(** * qrng_backend: the quantum random number engine (src/qrng_core.py)

    A shallow embedding of [QuantumRNG] and of the entry point that
    dispatches to it (src/application.py), followed by the properties of
    the randomness post-processor, the generation methods and the
    benchmark harness.

    Conventions of the embedding.
    - Python [int] is [Z]; a qubit index or a qubit count is [nat]
      (Qiskit rejects a negative register size).
    - Python [float] is idealised as a real number [R]: [np.log2] is the
      real base-2 logarithm and the arithmetic is exact.  Statements about
      entropies are therefore statements about the real-valued formula the
      code evaluates, not about its rounding.  The module [Double] holds
      the entropy loop over IEEE doubles, with [np.log2] as a parameter;
      it shows where rounding departs from the real-valued formula.
    - Python [str] is [string]; a one-character string met while iterating
      over a [str] is an [ascii].
    - A Python [dict] is an association list in insertion order without
      repeated keys ([dict_get], [dict_set], [dict_mem]).
    - Effects (the simulator backend, the wall clock, exceptions) are
      threaded through the monad [M]. *)

From Stdlib Require Import List String Ascii Bool Arith ZArith NArith.
From Stdlib Require Import Reals Lra Lia Permutation DecimalString.
From Stdlib Require PrimFloat SpecFloat FloatOps.
Import ListNotations.

Local Open Scope string_scope.
Local Open Scope list_scope.

(* ================================================================== *)
(** * Python containers                                                *)
(* ================================================================== *)

Section Dict.
Context {K V : Type}.
Variable eqb : K -> K -> bool.

(** [d.get(k)], [None] when the key is absent. *)
Fixpoint dict_get (d : list (K * V)) (k : K) : option V :=
  match d with
  | [] => None
  | (k', v) :: d' => if eqb k k' then Some v else dict_get d' k
  end.

(** [k in d] *)
Definition dict_mem (d : list (K * V)) (k : K) : bool :=
  match dict_get d k with Some _ => true | None => false end.

(** [d[k] = v]: an existing key keeps its place, a new one goes last. *)
Fixpoint dict_set (d : list (K * V)) (k : K) (v : V) : list (K * V) :=
  match d with
  | [] => [(k, v)]
  | (k', v') :: d' =>
      if eqb k k' then (k, v) :: d' else (k', v') :: dict_set d' k v
  end.

Definition keys (d : list (K * V)) : list K := map fst d.
Definition values (d : list (K * V)) : list V := map snd d.
End Dict.

(** An Outcome Count Map: outcome string to number of shots. *)
Definition CountMap := list (string * Z).

(** [sum(xs)] over Python ints. *)
Definition sum (xs : list Z) : Z := fold_left Z.add xs 0%Z.

(** [''.join(bits)] *)
Definition join (bits : list string) : string := String.concat "" bits.

(* ================================================================== *)
(** * Randomness post-processor                                        *)
(* ================================================================== *)

(** [np.log2] *)
Definition log2 (x : R) : R := (ln x / ln 2)%R.

(** One iteration of the loop of [_von_neumann_extractor]. *)
Definition extractor_step (output : list string) (bit_pair : string)
  : list string :=
  if Nat.eqb (String.length bit_pair) 2 then
    if String.eqb bit_pair "01" then output ++ ["0"]
    else if String.eqb bit_pair "10" then output ++ ["1"]
    else output
  else output.

(** [QuantumRNG._von_neumann_extractor] *)
Definition _von_neumann_extractor (bits : list string) : list string :=
  fold_left extractor_step bits [].

(** What one input element adds to the output. *)
Definition contribution (bit_pair : string) : list string :=
  if String.eqb bit_pair "01" then ["0"]
  else if String.eqb bit_pair "10" then ["1"]
  else [].

(** The input without its "00" and "11" elements. *)
Definition without_equal_pairs (bits : list string) : list string :=
  filter (fun s => negb (String.eqb s "00" || String.eqb s "11")) bits.

(** One iteration of the loop of [_calculate_entropy]. *)
Definition entropy_step (total_shots : Z) (entropy : R) (count : Z) : R :=
  let probability := (IZR count / IZR total_shots)%R in
  if Rlt_dec 0 probability
  then (entropy - probability * log2 probability)%R
  else entropy.

(** [QuantumRNG._calculate_entropy] *)
Definition _calculate_entropy (counts : CountMap) : R :=
  let total_shots := sum (values counts) in
  if (total_shots =? 0)%Z then 0%R
  else fold_left (entropy_step total_shots) (values counts) 0%R.

(** ** The same loop in double precision

    What [_calculate_entropy] computes on IEEE doubles, rounding to
    nearest at every operation.  [np.log2] belongs to numpy and is a
    parameter. *)
Module Double.

Import PrimFloat.

(** A Python [int] as a number without rounding. *)
Definition exact (x : Z) : SpecFloat.spec_float :=
  match x with
  | Z0 => SpecFloat.S754_zero false
  | Zpos p => SpecFloat.S754_finite false p 0
  | Zneg p => SpecFloat.S754_finite true p 0
  end.

(** [a / b] on Python integers, for [b <> 0]: the double nearest to the
    quotient. *)
Definition true_divide (a b : Z) : float :=
  FloatOps.SF2Prim
    (SpecFloat.SFdiv FloatOps.prec FloatOps.emax (exact a) (exact b)).

Section Entropy.

Variable np_log2 : float -> float.

(** The body of the loop [for count in counts.values()]. *)
Definition entropy_step (total_shots : Z) (entropy : float)
           (count : Z) : float :=
  let probability := true_divide count total_shots in
  if (0 <? probability)%float
  then (entropy - probability * np_log2 probability)%float
  else entropy.

(** [QuantumRNG._calculate_entropy] *)
Definition _calculate_entropy (counts : CountMap) : float :=
  let total_shots := sum (values counts) in
  if (total_shots =? 0)%Z then 0%float
  else fold_left (entropy_step total_shots) (values counts) 0%float.

End Entropy.

(** [np.log2] at the two arguments the example of eleven equal counts
    evaluates it at: the double nearest to the logarithm of 11, and the
    double nearest to the logarithm of the double nearest to 1/11. *)
Definition log2_eleven (x : float) : float :=
  if (x =? 11)%float then 0x1.bacea7c065d42p+1%float
  else (-0x1.bacea7c065d42p+1)%float.

End Double.

(** Eleven outcomes of four qubits counted once each, as 11 shots of the
    Hadamard method on 4 qubits can give. *)
Definition eleven_outcomes : CountMap :=
  [("0000", 1%Z); ("0001", 1%Z); ("0010", 1%Z); ("0011", 1%Z);
   ("0100", 1%Z); ("0101", 1%Z); ("0110", 1%Z); ("0111", 1%Z);
   ("1000", 1%Z); ("1001", 1%Z); ("1010", 1%Z)].

(** The first loop of [_calculate_bit_entropy]: [if bit in counts:
    counts[bit] += 1]. *)
Definition tally_step (counts : list (ascii * Z)) (bit : ascii)
  : list (ascii * Z) :=
  match dict_get Ascii.eqb counts bit with
  | Some n => dict_set Ascii.eqb counts bit (n + 1)%Z
  | None => counts
  end.

(** The second loop of [_calculate_bit_entropy]. *)
Definition bit_entropy_step (total : Z) (entropy : R) (count : Z) : R :=
  if (0 <? count)%Z then
    let p := (IZR count / IZR total)%R in (entropy - p * log2 p)%R
  else entropy.

(** [QuantumRNG._calculate_bit_entropy] *)
Definition _calculate_bit_entropy (bits : list string) : R :=
  match bits with
  | [] => 0%R
  | _ :: _ =>
      let bit_string := join bits in
      let counts :=
        fold_left tally_step (list_ascii_of_string bit_string)
                  [("0"%char, 0%Z); ("1"%char, 0%Z)] in
      let total := Z.of_nat (String.length bit_string) in
      if (total =? 0)%Z then 0%R
      else fold_left (bit_entropy_step total) (values counts) 0%R
  end.

(** ** The Shannon formula in the words of the specification *)

Definition Rsum (xs : list R) : R := fold_right Rplus 0%R xs.

(** (count/T) log2 (count/T) *)
Definition shannon_term (T count : Z) : R :=
  (IZR count / IZR T * log2 (IZR count / IZR T))%R.

(** - sum of (count_k/T) log2 (count_k/T) over the k with count_k > 0 *)
Definition shannon_sum (T : Z) (counts : CountMap) : R :=
  (- Rsum (map (shannon_term T)
               (filter (fun count => (0 <? count)%Z) (values counts))))%R.

(** The probabilities of the outcomes with a positive count. *)
Definition probabilities (T : Z) (counts : list Z) : list R :=
  map (fun count => (IZR count / IZR T)%R)
      (filter (fun count => (0 <? count)%Z) counts).

(** The number of distinct outcomes with a nonzero count. *)
Definition nonzero_outcomes (counts : CountMap) : nat :=
  List.length
    (nodup string_dec
           (keys (filter (fun item => negb (snd item =? 0)%Z) counts))).

(** The number of positive counts. *)
Definition positive_counts (counts : CountMap) : nat :=
  List.length (filter (fun count => (0 <? count)%Z) (values counts)).

(** A dictionary has no repeated key. *)
Definition distinct_keys (counts : CountMap) : Prop :=
  NoDup (keys counts).

(** An Outcome Count Map holds numbers of observed shots. *)
Definition shot_counts (counts : CountMap) : Prop :=
  Forall (fun count => (0 <= count)%Z) (values counts).

(** The symbol stream of a list of bit strings and the number of
    occurrences of a symbol in it. *)
Definition symbol_stream (bits : list string) : list ascii :=
  flat_map list_ascii_of_string bits.

Definition occurrences (symbol : ascii) (stream : list ascii) : Z :=
  Z.of_nat (count_occ ascii_dec stream symbol).

(** The symbol counts of a stream over the alphabet 0, 1. *)
Definition symbol_counts (stream : list ascii) : CountMap :=
  [("0", occurrences "0"%char stream); ("1", occurrences "1"%char stream)].

Definition binary_string (s : string) : Prop :=
  Forall (fun c => c = "0"%char \/ c = "1"%char) (list_ascii_of_string s).

(* ================================================================== *)
(** * Circuits                                                         *)
(* ================================================================== *)

(** The part of Qiskit's [QuantumCircuit] the engine uses.  A circuit is
    the declared registers, the gates in program order and the
    measurements (qubit, classical bit).  An instruction that names a
    qubit or a classical bit outside its register raises (Qiskit's
    [CircuitError]); so does a controlled gate whose control is its
    target. *)
Inductive Gate : Type :=
| H (qubit : nat)
| CX (control target : nat)
| RZ (theta : R) (qubit : nat).

Record Circuit : Type := mkCircuit {
  num_qubits : nat;
  num_clbits : nat;
  gates : list Gate;
  measured : list (nat * nat)
}.

Definition QuantumCircuit (nq nc : nat) : Circuit :=
  mkCircuit nq nc [] [].

Definition add_gate (g : Gate) (c : Circuit) : Circuit :=
  mkCircuit (num_qubits c) (num_clbits c) (gates c ++ [g]) (measured c).

(** The text of the error raised for an index outside a register of
    [size] bits, for a gate given the same qubit twice, and for a
    measurement of a number of qubits into another number of bits. *)
Definition index_error (index size : nat) : string :=
  "Index " ++ NilZero.string_of_uint (Nat.to_uint index)
  ++ " out of range for size "
  ++ NilZero.string_of_uint (Nat.to_uint size) ++ ".".
Definition duplicate_error : string := "duplicate qubit arguments".
Definition size_error : string := "register size error".

(** The first of [indices] outside a register of [size] bits. *)
Definition outside (size : nat) (indices : list nat) : option nat :=
  find (fun i => negb (i <? size)%nat) indices.

Definition h (qubit : nat) (c : Circuit) : string + Circuit :=
  if (qubit <? num_qubits c)%nat then inr (add_gate (H qubit) c)
  else inl (index_error qubit (num_qubits c)).

Definition cx (control target : nat) (c : Circuit) : string + Circuit :=
  if ((control <? num_qubits c) && (target <? num_qubits c))%nat then
    if (control =? target)%nat then inl duplicate_error
    else inr (add_gate (CX control target) c)
  else if (control <? num_qubits c)%nat
       then inl (index_error target (num_qubits c))
       else inl (index_error control (num_qubits c)).

Definition rz (theta : R) (qubit : nat) (c : Circuit) : string + Circuit :=
  if (qubit <? num_qubits c)%nat then inr (add_gate (RZ theta qubit) c)
  else inl (index_error qubit (num_qubits c)).

Definition measure (qubits clbits : list nat) (c : Circuit)
  : string + Circuit :=
  if (List.length qubits =? List.length clbits)%nat
     && forallb (fun q => q <? num_qubits c)%nat qubits
     && forallb (fun b => b <? num_clbits c)%nat clbits
  then inr (mkCircuit (num_qubits c) (num_clbits c) (gates c)
                      (measured c ++ combine qubits clbits))
  else
    match outside (num_qubits c) qubits, outside (num_clbits c) clbits with
    | Some q, _ => inl (index_error q (num_qubits c))
    | None, Some b => inl (index_error b (num_clbits c))
    | None, None => inl size_error
    end.

(** [range(n)] and [range(a, b)] *)
Definition range (n : nat) : list nat := seq 0 n.
Definition range2 (a b : nat) : list nat := seq a (b - a).

(* ================================================================== *)
(** * Results                                                          *)
(* ================================================================== *)

(** The values a result dictionary holds. *)
Inductive value : Type :=
| VStr (s : string)
| VCircuit (c : Circuit)
| VCircuits (cs : list Circuit)
| VCounts (counts : CountMap)
| VBits (bits : list string)
| VFloat (x : R).

(** What a generation method returns: a [dict] with string keys. *)
Definition Result := list (string * value).

Definition get (result : Result) (key : string) : option value :=
  dict_get String.eqb result key.

Definition has_key (result : Result) (key : string) : bool :=
  dict_mem String.eqb result key.

(** The loop [for binary_string, count in counts.items():
    random_bits.extend([binary_string] * count)] started from
    [random_bits]. *)
Definition extend_bits (random_bits : list string) (counts : CountMap)
  : list string :=
  fold_left
    (fun acc item => acc ++ repeat (fst item) (Z.to_nat (snd item)))
    counts random_bits.

(* ================================================================== *)
(** * Effects                                                          *)
(* ================================================================== *)

(** The world a computation runs in: how many jobs the backend has been
    given and how many times the clock has been read. *)
Record World : Type := mkWorld { jobs : nat; ticks : nat }.

(** The world after one more reading of the clock. *)
Definition tick (w : World) : World := mkWorld (jobs w) (S (ticks w)).

Inductive Outcome (A : Type) : Type :=
| Return (a : A)
| Raise (e : string).
Arguments Return {A} a.
Arguments Raise {A} e.

(** A computation that reads the clock, runs jobs and may raise. *)
Definition M (A : Type) : Type := World -> Outcome A * World.

Definition ret {A} (a : A) : M A := fun w => (Return a, w).

Definition raise {A} (e : string) : M A := fun w => (Raise e, w).

Definition bind {A B} (m : M A) (k : A -> M B) : M B :=
  fun w =>
    match m w with
    | (Return a, w') => k a w'
    | (Raise e, w') => (Raise e, w')
    end.

Declare Scope monad_scope.
Delimit Scope monad_scope with monad.
Notation "x <- m ;; k" := (bind m (fun x => k))
  (at level 61, m at next level, right associativity) : monad_scope.
Notation "m ;;; k" := (bind m (fun _ => k))
  (at level 61, right associativity) : monad_scope.
Local Open Scope monad_scope.

(** [try: body  except Exception as e: handler(str(e))] *)
Definition try_except {A} (body : M A) (handler : string -> M A) : M A :=
  fun w =>
    match body w with
    | (Return a, w') => (Return a, w')
    | (Raise e, w') => handler e w'
    end.

(** A library call that either raises or returns. *)
Definition lift {A} (r : string + A) : M A :=
  match r with inl e => raise e | inr a => ret a end.

(** [for x in xs: s = body(x, s)] *)
Fixpoint for_each {A S} (xs : list A) (body : A -> S -> M S) (s : S)
  : M S :=
  match xs with
  | [] => ret s
  | x :: xs' => s' <- body x s ;; for_each xs' body s'
  end.

(* ================================================================== *)
(** * NumPy reductions used by the benchmark                           *)
(* ================================================================== *)

Definition np_sum (xs : list R) : R := fold_left Rplus xs 0%R.

Definition np_mean (xs : list R) : R :=
  (np_sum xs / INR (List.length xs))%R.

(** [np.std]: the population standard deviation. *)
Definition np_std (xs : list R) : R :=
  let mean := np_mean xs in
  sqrt (np_mean (map (fun x => Rsqr (x - mean)) xs)).

(** [np.min] and [np.max]; only ever applied to a non-empty list. *)
Definition np_min (xs : list R) : R :=
  match xs with [] => 0%R | x :: xs' => fold_left Rmin xs' x end.

Definition np_max (xs : list R) : R :=
  match xs with [] => 0%R | x :: xs' => fold_left Rmax xs' x end.

(** The per-method entry of the benchmark's result. *)
Record Stats : Type := mkStats {
  avg_time : R;
  std_time : R;
  avg_entropy : R;
  std_entropy : R;
  min_time : R;
  max_time : R;
  successful_runs : Z
}.

(* ================================================================== *)
(** * QuantumRNG                                                       *)
(* ================================================================== *)

Section Engine.

(** [self.backend]: what the [n]-th job submitted (transpile, run,
    result, get_counts) gives for a circuit and a shot count: an
    exception or an Outcome Count Map. *)
Variable backend : nat -> Circuit -> Z -> string + CountMap.

(** What the [n]-th call of [time.time()] returns. *)
Variable clock : nat -> R.

Definition execute (circuit : Circuit) (shots : Z) : M CountMap :=
  fun w =>
    let w' := mkWorld (S (jobs w)) (ticks w) in
    match backend (jobs w) circuit shots with
    | inl e => (Raise e, w')
    | inr counts => (Return counts, w')
    end.

Definition time_time : M R :=
  fun w => (Return (clock (ticks w)), mkWorld (jobs w) (S (ticks w))).

(** [QuantumRNG.hadamard_method] *)
Definition hadamard_method (num_qubits : nat) (shots : Z) : M Result :=
  try_except
    (circuit <- ret (QuantumCircuit num_qubits num_qubits) ;;
     circuit <- for_each (range num_qubits)
                         (fun qubit c => lift (h qubit c)) circuit ;;
     circuit <- lift (measure (range num_qubits) (range num_qubits)
                              circuit) ;;
     counts <- execute circuit shots ;;
     let random_bits := extend_bits [] counts in
     ret [("method", VStr "Hadamard");
          ("circuit", VCircuit circuit);
          ("counts", VCounts counts);
          ("random_bits", VBits random_bits);
          ("entropy", VFloat (_calculate_entropy counts))])
    (fun e => ret [("error", VStr ("Hadamard method failed: " ++ e))]).

(** [QuantumRNG.bell_state_method] *)
Definition bell_state_method (shots : Z) : M Result :=
  try_except
    (circuit <- ret (QuantumCircuit 2 2) ;;
     circuit <- lift (h 0 circuit) ;;
     circuit <- lift (cx 0 1 circuit) ;;
     circuit <- lift (measure [0; 1]%nat [0; 1]%nat circuit) ;;
     counts <- execute circuit shots ;;
     let random_bits := extend_bits [] counts in
     ret [("method", VStr "Bell_State");
          ("circuit", VCircuit circuit);
          ("counts", VCounts counts);
          ("random_bits", VBits random_bits);
          ("entropy", VFloat (_calculate_entropy counts))])
    (fun e => ret [("error", VStr ("Bell state method failed: " ++ e))]).

(** [QuantumRNG.ghz_state_method] *)
Definition ghz_state_method (num_qubits : nat) (shots : Z) : M Result :=
  try_except
    (circuit <- ret (QuantumCircuit num_qubits num_qubits) ;;
     circuit <- lift (h 0 circuit) ;;
     circuit <- for_each (range2 1 num_qubits)
                         (fun i c => lift (cx 0 i c)) circuit ;;
     circuit <- lift (measure (range num_qubits) (range num_qubits)
                              circuit) ;;
     counts <- execute circuit shots ;;
     let random_bits := extend_bits [] counts in
     ret [("method", VStr "GHZ_State");
          ("circuit", VCircuit circuit);
          ("counts", VCounts counts);
          ("random_bits", VBits random_bits);
          ("entropy", VFloat (_calculate_entropy counts))])
    (fun e => ret [("error", VStr ("GHZ state method failed: " ++ e))]).

(** The body of the loop [for i in range(4)] of
    [nist_compliant_method], on the pair [(circuits, all_bits)]. *)
Definition nist_source (shots : Z) (i : nat)
           (acc : list Circuit * list string)
  : M (list Circuit * list string) :=
  let '(circuits, all_bits) := acc in
  circuit <- ret (QuantumCircuit 2 2) ;;
  circuit <- lift (h 0 circuit) ;;
  circuit <- lift (h 1 circuit) ;;
  circuit <- lift (rz (PI / 4) 0 circuit) ;;
  circuit <- lift (rz (PI / 3) 1 circuit) ;;
  circuit <- lift (measure [0; 1]%nat [0; 1]%nat circuit) ;;
  counts <- execute circuit (shots / 4)%Z ;;
  ret (circuits ++ [circuit], extend_bits all_bits counts).

(** [QuantumRNG.nist_compliant_method] *)
Definition nist_compliant_method (shots : Z) : M Result :=
  try_except
    (acc <- for_each (range 4) (nist_source shots) ([], []) ;;
     let '(circuits, all_bits) := acc in
     let processed_bits := _von_neumann_extractor all_bits in
     ret [("method", VStr "NIST_Compliant");
          ("circuits", VCircuits circuits);
          ("raw_bits", VBits all_bits);
          ("processed_bits", VBits processed_bits);
          ("entropy", VFloat (_calculate_bit_entropy processed_bits))])
    (fun e => ret [("error", VStr ("NIST method failed: " ++ e))]).

(** The dispatch of [generate_random_numbers] (src/application.py):
    the method named in the request is called with the request's
    [qubits] and [shots]; an unknown name is answered with an error. *)
Definition generate (method : string) (qubits : nat) (shots : Z)
  : M Result :=
  if method =? "hadamard" then hadamard_method qubits shots
  else if method =? "bell" then bell_state_method shots
  else if method =? "ghz" then ghz_state_method qubits shots
  else if method =? "nist" then nist_compliant_method shots
  else ret [("error", VStr "Invalid method")].

(** ** The benchmark *)

Definition methods : list string := ["hadamard"; "bell"; "ghz"; "nist"].

(** The call made for [method] in the loop of [benchmark_methods]
    ([num_qubits] takes its default). *)
Definition benchmark_call (method : string) : M Result :=
  if method =? "hadamard" then hadamard_method 1 100
  else if method =? "bell" then bell_state_method 100
  else if method =? "ghz" then ghz_state_method 3 100
  else nist_compliant_method 100.

(** [result['entropy']], a float. *)
Definition entropy_of (result : Result) : M R :=
  match get result "entropy" with
  | Some (VFloat x) => ret x
  | Some _ => raise "TypeError"
  | None => raise "KeyError: 'entropy'"
  end.

(** The body of the loop [for i in range(runs)], on the pair
    [(times, entropies)]. *)
Definition benchmark_run (method : string) (i : nat)
           (acc : list R * list R) : M (list R * list R) :=
  let '(times, entropies) := acc in
  start_time <- time_time ;;
  result <- benchmark_call method ;;
  end_time <- time_time ;;
  if negb (has_key result "error") then
    entropy <- entropy_of result ;;
    ret (times ++ [(end_time - start_time)%R], entropies ++ [entropy])
  else ret (times, entropies).

(** The body of the loop [for method in methods], on [results]. *)
Definition benchmark_method (runs : Z) (method : string)
           (results : list (string * Stats))
  : M (list (string * Stats)) :=
  acc <- for_each (range (Z.to_nat runs)) (benchmark_run method)
                  ([], []) ;;
  let '(times, entropies) := acc in
  match times with
  | [] => ret results
  | _ :: _ =>
      ret (dict_set String.eqb results method
             (mkStats (np_mean times) (np_std times)
                      (np_mean entropies) (np_std entropies)
                      (np_min times) (np_max times)
                      (Z.of_nat (List.length times))))
  end.

(** [QuantumRNG.benchmark_methods] *)
Definition benchmark_methods (runs : Z) : M (list (string * Stats)) :=
  for_each methods (benchmark_method runs) [].

(** ** The runs of a benchmark, for stating its properties *)

(** The results bound to [result] by [n] repetitions of the inner loop
    for [method] started in world [w], and the world they end in. *)
Fixpoint run_results (method : string) (n : nat) (w : World)
  : list Result * World :=
  match n with
  | O => ([], w)
  | S n' =>
      match benchmark_call method (tick w) with
      | (Return result, w') =>
          let '(rest, w'') := run_results method n' (tick w') in
          (result :: rest, w'')
      | (Raise _, w') => ([], w')
      end
  end.

(** The world in which the inner loop of the [i]-th method starts. *)
Fixpoint world_before (runs : Z) (ms : list string) (i : nat) (w : World)
  : World :=
  match i, ms with
  | S i', m :: ms' =>
      world_before runs ms' i' (snd (run_results m (Z.to_nat runs) w))
  | _, _ => w
  end.

Definition succeeded (result : Result) : bool :=
  negb (has_key result "error").

(** The successful runs among the repetitions of [method] started in
    world [w]. *)
Definition successes (runs : Z) (method : string) (w : World)
  : list Result :=
  filter succeeded (fst (run_results method (Z.to_nat runs) w)).

End Engine.

(* ================================================================== *)
(** * The circuit families                                             *)
(* ================================================================== *)

(** The circuits of the Circuit Builder (section 4.2 of the
    specification), as closed terms; each generation method is shown
    below to submit the circuit of its family. *)

Definition hadamard_circuit (n : nat) : Circuit :=
  mkCircuit n n (map H (range n)) (combine (range n) (range n)).

Definition bell_circuit : Circuit :=
  mkCircuit 2 2 [H 0; CX 0 1] [(0, 0); (1, 1)]%nat.

Definition ghz_circuit (n : nat) : Circuit :=
  mkCircuit n n (H 0 :: map (CX 0) (range2 1 n))
            (combine (range n) (range n)).

Definition nist_circuit : Circuit :=
  mkCircuit 2 2 [H 0; H 1; RZ (PI / 4) 0; RZ (PI / 3) 1]
            [(0, 0); (1, 1)]%nat.

(** The flattened list of per-shot outcome strings of a count map: each
    outcome repeated as many times as it was counted, in the order of
    the map. *)
Definition flattened (counts : CountMap) : list string :=
  flat_map (fun item => repeat (fst item) (Z.to_nat (snd item))) counts.

(** The result dictionary of a successful run of one of the methods
    that submit a single circuit. *)
Definition single_result (name : string) (circuit : Circuit)
           (counts : CountMap) : Result :=
  [("method", VStr name);
   ("circuit", VCircuit circuit);
   ("counts", VCounts counts);
   ("random_bits", VBits (flattened counts));
   ("entropy", VFloat (_calculate_entropy counts))].

(** The result dictionary of a failed run. *)
Definition error_result (prefix e : string) : Result :=
  [("error", VStr (prefix ++ e))].

(** The world after one more job. *)
Definition after_job (w : World) : World := mkWorld (S (jobs w)) (ticks w).

(** What a method that submits the single circuit [circuit] to [backend]
    returns in world [w]. *)
Definition single_run (backend : nat -> Circuit -> Z -> string + CountMap)
           (name prefix : string) (circuit : Circuit)
           (shots : Z) (w : World) : Outcome Result * World :=
  match backend (jobs w) circuit shots with
  | inr counts => (Return (single_result name circuit counts), after_job w)
  | inl e => (Return (error_result prefix e), after_job w)
  end.

(** The answers of [backend] to the [n] jobs of the combined method
    started in world [w]: the count maps in order, or the first
    exception, and the world after the last job submitted. *)
Fixpoint nist_jobs (backend : nat -> Circuit -> Z -> string + CountMap)
         (shots : Z) (n : nat) (w : World)
  : (string + list CountMap) * World :=
  match n with
  | O => (inr [], w)
  | S n' =>
      match backend (jobs w) nist_circuit (shots / 4)%Z with
      | inl e => (inl e, after_job w)
      | inr counts =>
          match nist_jobs backend shots n' (after_job w) with
          | (inl e, w') => (inl e, w')
          | (inr rest, w') => (inr (counts :: rest), w')
          end
      end
  end.

(** The result dictionary of a successful run of the combined method on
    the count maps of its sources. *)
Definition nist_result (sources : list CountMap) : Result :=
  let all_bits := flat_map flattened sources in
  [("method", VStr "NIST_Compliant");
   ("circuits", VCircuits (repeat nist_circuit (List.length sources)));
   ("raw_bits", VBits all_bits);
   ("processed_bits", VBits (_von_neumann_extractor all_bits));
   ("entropy",
    VFloat (_calculate_bit_entropy (_von_neumann_extractor all_bits)))].

(** The name a method gives itself in its result. *)
Definition method_name (method : string) : string :=
  if method =? "hadamard" then "Hadamard"
  else if method =? "bell" then "Bell_State"
  else if method =? "ghz" then "GHZ_State"
  else "NIST_Compliant".

(** The circuit a single-circuit method submits. *)
Definition method_circuit (method : string) (qubits : nat) : Circuit :=
  if method =? "hadamard" then hadamard_circuit qubits
  else if method =? "bell" then bell_circuit
  else ghz_circuit qubits.

(** The circuit of the first job a method submits. *)
Definition first_circuit (method : string) (qubits : nat) : Circuit :=
  if method =? "nist" then nist_circuit else method_circuit method qubits.

(* ================================================================== *)
(** * The simulator the engine delegates to                            *)
(* ================================================================== *)

(** The source hands every circuit to an external simulator
    ([AerSimulator]).  The state vector engine and the measurement
    sampler below follow the specification of that simulation
    (sections 4.1 and 4.3); they give an ideal, noiseless [backend]. *)

(** ** Complex amplitudes *)

(** Modelled from the spec: the complex amplitudes of the Quantum State
    (section 3), absent from the source: real and imaginary part. *)
Definition C : Type := (R * R)%type.

Definition Czero : C := (0%R, 0%R).
Definition Cone : C := (1%R, 0%R).

Definition Cplus (a b : C) : C := ((fst a + fst b)%R, (snd a + snd b)%R).
Definition Cminus (a b : C) : C := ((fst a - fst b)%R, (snd a - snd b)%R).
Definition Cmult (a b : C) : C :=
  ((fst a * fst b - snd a * snd b)%R, (fst a * snd b + snd a * fst b)%R).
Definition Cscale (r : R) (a : C) : C := ((r * fst a)%R, (r * snd a)%R).

(** e^{i theta} *)
Definition Cexp_i (theta : R) : C := (cos theta, sin theta).

(** The squared magnitude. *)
Definition Cnorm2 (a : C) : R := (fst a * fst a + snd a * snd a)%R.

(** ** State vector engine *)

(** Modelled from the spec: the Quantum State of the State Vector Engine
    (section 3), which the source leaves to the simulator: the vector of
    the 2^n amplitudes, indexed by the basis outcome; qubit [q] is bit
    [q] of the index. *)
Definition State : Type := N -> C.

(** Modelled from the spec: [initialize(n)] of the State Vector Engine
    (section 4.1), absent from the source: amplitude 1 at index 0 and 0
    elsewhere. *)
Definition initialize (n : nat) : State :=
  fun k => if (k =? 0)%N then Cone else Czero.

(** Modelled from the spec: the value of qubit [q] in the basis outcome
    [k] (section 3: amplitudes are indexed by the binary representation
    of the outcome). *)
Definition bit (q : nat) (k : N) : bool := N.testbit k (N.of_nat q).

(** Modelled from the spec: the basis outcome that differs from [k] in
    qubit [q] only, the other member of the amplitude pair of a gate on
    [q] (section 4.1). *)
Definition flip (q : nat) (k : N) : N :=
  N.lxor k (N.shiftl 1 (N.of_nat q)).

(** Modelled from the spec: [apply(state, gate)] of the State Vector
    Engine (section 4.1), absent from the source.  Hadamard mixes the
    pair of amplitudes that differ in the target qubit, with a sign flip
    on the 1 component; controlled-NOT swaps the pair of the target where
    the control is 1; the Z rotation multiplies the 1 component by
    e^{i theta}. *)
Definition apply (st : State) (g : Gate) : State :=
  match g with
  | H q =>
      fun k =>
        if bit q k
        then Cscale (/ sqrt 2) (Cminus (st (flip q k)) (st k))
        else Cscale (/ sqrt 2) (Cplus (st k) (st (flip q k)))
  | CX c t => fun k => if bit c k then st (flip t k) else st k
  | RZ theta q => fun k => if bit q k then Cmult (Cexp_i theta) (st k)
                           else st k
  end.

(** Modelled from the spec: the evolution of the initial state through
    the gate sequence of a circuit (section 2, control flow). *)
Definition evolve (c : Circuit) : State :=
  fold_left apply (gates c) (initialize (num_qubits c)).

(** Modelled from the spec: the Born rule (section 4.3), the probability
    of outcome [k] is the squared magnitude of its amplitude. *)
Definition probability (st : State) (k : N) : R := Cnorm2 (st k).

(** ** Measurement sampler *)

(** Modelled from the spec: one shot of the Measurement Sampler (section
    4.3), absent from the source: the outcome a uniform draw [u] of
    [0, 1) selects from the Born distribution, scanning the [fuel]
    outcomes from [k] on with [acc] the probability already passed.  No
    outcome is selected only when the probabilities do not sum to 1. *)
Fixpoint pick (st : State) (u : R) (acc : R) (k : N) (fuel : nat)
  : option N :=
  match fuel with
  | O => None
  | S fuel' =>
      let acc' := (acc + probability st k)%R in
      if Rlt_dec u acc' then Some k
      else pick st u acc' (N.succ k) fuel'
  end.

(** Modelled from the spec: one shot on an [n]-qubit state (section
    4.3), absent from the source. *)
Definition draw (n : nat) (st : State) (u : R) : option N :=
  pick st u 0%R 0%N (2 ^ n).

(** Modelled from the spec: the value of classical bit [b] when the
    basis outcome [k] is measured, absent from the source: the bit of
    the qubit last measured into [b]. *)
Definition clbit (c : Circuit) (k : N) (b : nat) : bool :=
  match find (fun m => (snd m =? b)%nat) (rev (measured c)) with
  | Some (q, _) => bit q k
  | None => false
  end.

(** Modelled from the spec: the fixed-width binary string of an outcome
    (section 3, Outcome Count Map), absent from the source: the
    characters of bits [n-1 .. 0], highest first. *)
Fixpoint render (f : nat -> bool) (n : nat) : string :=
  match n with
  | O => ""
  | S n' => String (if f n' then "1"%char else "0"%char) (render f n')
  end.

(** Modelled from the spec: the key of a measured basis outcome in the
    Outcome Count Map (section 3), absent from the source. *)
Definition outcome_string (c : Circuit) (k : N) : string :=
  render (clbit c k) (num_clbits c).

(** Modelled from the spec: the accumulation of one outcome in the
    Outcome Count Map (section 4.3), absent from the source:
    [counts[outcome] = counts.get(outcome, 0) + 1]. *)
Definition record_outcome (counts : CountMap) (outcome : string)
  : CountMap :=
  match dict_get String.eqb counts outcome with
  | Some n => dict_set String.eqb counts outcome (n + 1)%Z
  | None => dict_set String.eqb counts outcome 1%Z
  end.

Definition normalization_error : string :=
  "state normalization violated".

Section IdealBackend.

(** The uniform draw of [0, 1) used for shot [i] of job [j]. *)
Variable uniform : nat -> nat -> R.

(** Modelled from the spec: one shot of the Measurement Sampler added to
    the counts (section 4.3), absent from the source; a shot that selects
    no outcome is a simulation failure (section 7). *)
Definition sample_step (c : Circuit) (st : State) (job : nat)
           (acc : string + CountMap) (shot : nat) : string + CountMap :=
  match acc with
  | inl e => inl e
  | inr counts =>
      match draw (num_qubits c) st (uniform job shot) with
      | Some k => inr (record_outcome counts (outcome_string c k))
      | None => inl normalization_error
      end
  end.

(** Modelled from the spec: the Measurement Sampler (section 4.3) on
    the state the State Vector Engine reaches, absent from the source:
    [shots] independent outcomes accumulated in an Outcome Count Map,
    the empty map when [shots <= 0] (section 4.2). *)
Definition ideal_backend (job : nat) (c : Circuit) (shots : Z)
  : string + CountMap :=
  fold_left (sample_step c (evolve c) job) (range (Z.to_nat shots))
            (inr []).

End IdealBackend.

(** The amplitude 1/sqrt 2. *)
Definition Chalf : C := ((/ sqrt 2)%R, 0%R).

(** The state with amplitude 1/sqrt 2 on the all-zeros and on the
    all-ones outcome of [n] qubits and 0 elsewhere. *)
Definition ghz_state (n : nat) : State :=
  fun k => if ((k =? 0) || (k =? N.ones (N.of_nat n)))%N then Chalf
           else Czero.

(** The string of [n] copies of a character. *)
Fixpoint constant_string (c : ascii) (n : nat) : string :=
  match n with
  | O => ""
  | S n' => String c (constant_string c n')
  end.

(** A deterministic backend for examples: every shot gives the all-zeros
    outcome. *)
Definition zeros_backend (job : nat) (c : Circuit) (shots : Z)
  : string + CountMap :=
  if (shots <=? 0)%Z then inr []
  else inr [(render (fun _ => false) (num_clbits c), shots)].

(** A backend whose every job fails. *)
Definition failing_backend (job : nat) (c : Circuit) (shots : Z)
  : string + CountMap :=
  inl "simulation failed".

(** A backend that rejects a job of no shots and counts every shot of
    another job on the all-zeros outcome. *)
Definition rejecting_backend (job : nat) (c : Circuit) (shots : Z)
  : string + CountMap :=
  if (shots <=? 0)%Z then inl "no shots"
  else inr [(render (fun _ => false) (num_clbits c), shots)].

(* ================================================================== *)
(** * Further notions for stating properties                           *)
(* ================================================================== *)

(** What one count takes off the entropy in the loop of
    [_calculate_entropy]: p log2 p when the probability p is positive. *)
Definition entropy_term (total_shots count : Z) : R :=
  let probability := (IZR count / IZR total_shots)%R in
  if Rlt_dec 0 probability then (probability * log2 probability)%R
  else 0%R.

(** The map with every count multiplied by [m]. *)
Definition scaled (m : Z) (counts : CountMap) : CountMap :=
  map (fun item => (fst item, (m * snd item)%Z)) counts.

(** The map without its entries of count 0. *)
Definition without_zero_counts (counts : CountMap) : CountMap :=
  filter (fun item => negb (snd item =? 0)%Z) counts.

(** [counts.get(key, 0)] *)
Definition count_of (counts : CountMap) (key : string) : Z :=
  match dict_get String.eqb counts key with
  | Some count => count
  | None => 0%Z
  end.

(** The text a method puts before the message of the exception it
    caught. *)
Definition failure_prefix (method : string) : string :=
  if method =? "hadamard" then "Hadamard method failed: "
  else if method =? "bell" then "Bell state method failed: "
  else if method =? "ghz" then "GHZ state method failed: "
  else "NIST method failed: ".

(** The entry [benchmark_methods] writes for a method from the times and
    the entropies of its successful runs. *)
Definition stats_of (times entropies : list R) : Stats :=
  mkStats (np_mean times) (np_std times)
          (np_mean entropies) (np_std entropies)
          (np_min times) (np_max times)
          (Z.of_nat (List.length times)).

(** An entry computed from one time and one entropy per successful run,
    at least one and at most [runs], each time the difference of two
    successive readings of [clock]. *)
Definition measured_stats (clock : nat -> R) (runs : Z) (stats : Stats)
  : Prop :=
  exists times entropies,
    stats = stats_of times entropies
    /\ times <> []
    /\ List.length entropies = List.length times
    /\ (Z.of_nat (List.length times) <= runs)%Z
    /\ Forall (fun time => exists n, time = (clock (S n) - clock n)%R) times.

(* ================================================================== *)
(** * The distribution plot (src/qrng_visualization.py)                *)
(* ================================================================== *)

(** [classical_counts[bit] = classical_counts.get(bit, 0) + 1] *)
Definition count_bit (classical_counts : CountMap) (bit : string)
  : CountMap :=
  dict_set String.eqb classical_counts bit
           (count_of classical_counts bit + 1)%Z.

(** The dictionary [classical_counts] that the loop of
    [plot_distribution_comparison] builds from [classical_bits]. *)
Definition classical_counts (classical_bits : list string) : CountMap :=
  fold_left count_bit classical_bits [].

(** One axis of the figure: the histogram drawn on it, if any, and its
    title. *)
Record Panel : Type := mkPanel {
  histogram : option CountMap;
  panel_title : string
}.

(** The figure of two axes, as what is drawn on each. *)
Record Figure : Type := mkFigure {
  quantum_panel : Panel;
  classical_panel : Panel
}.

(** [if counts: plot_histogram(counts, ax=ax)] *)
Definition plot_histogram_if_any (counts : CountMap) : option CountMap :=
  match counts with
  | [] => None
  | _ :: _ => Some counts
  end.

(** [QRNGVisualizer.plot_distribution_comparison] *)
Definition plot_distribution_comparison (quantum_counts : CountMap)
           (classical_bits : list string) (title : string) : Figure :=
  let classical_counts := classical_counts classical_bits in
  mkFigure
    (mkPanel (plot_histogram_if_any quantum_counts)
             ("Quantum Distribution - " ++ title))
    (mkPanel (plot_histogram_if_any classical_counts)
             ("Classical Distribution - " ++ title)).

(* ================================================================== *)
(** * The web entry points (src/application.py)                        *)
(* ================================================================== *)

(** The JSON object in the body of a request, as far as the entry
    points read it: the integers under [shots] and [qubits], when
    present. *)
Record Request : Type := mkRequest {
  req_shots : option Z;
  req_qubits : option nat
}.

(** What [request.get_json()] makes of the body of a request. *)
Inductive Body : Type :=
| Unreadable (e : string)
    (* it raises, on a body that is not JSON or not announced as JSON *)
| Falsy
    (* None or another false value, which [or {}] replaces *)
| NotObject (type_name : string)
    (* a true value of another type than dict (list, str, int, ...) *)
| Object (data : Request).

(** The dictionary [response] of [generate_random_numbers]. *)
Record Response : Type := mkResponse {
  response_method : string;
  response_random_bits : list string;
  response_processed_bits : list string;
  response_entropy : R;
  classical_comparison : list string;
  visualization : string;
  total_bits : Z;
  response_shots : Z
}.

(** What an entry point returns: the response, with status 200, or an
    error body with its status. *)
Inductive Reply : Type :=
| Ok (response : Response)
| Error (status : Z) (message : string).

(** The binary digits of a positive number, highest first. *)
Fixpoint binary_digits (p : positive) : string :=
  match p with
  | xH => "1"
  | xO p' => binary_digits p' ++ "0"
  | xI p' => binary_digits p' ++ "1"
  end.

(** [format(x, 'b')] for [x >= 0] *)
Definition format_b (x : N) : string :=
  match x with
  | N0 => "0"
  | Npos p => binary_digits p
  end.

(** [format(x, f'0{width}b')] for [x >= 0]: the binary digits, padded
    with zeros on the left up to [width] characters. *)
Definition format_0b (width : nat) (x : N) : string :=
  let digits := format_b x in
  constant_string "0" (width - String.length digits) ++ digits.

(** [result[key]] where the engine holds a string; a missing key raises
    [KeyError], whose text is the quoted key. *)
Definition get_str (result : Result) (key : string) : M string :=
  match get result key with
  | Some (VStr s) => ret s
  | Some _ => raise "TypeError"
  | None => raise ("'" ++ key ++ "'")
  end.

(** [result[key]] where the engine holds a float. *)
Definition get_float (result : Result) (key : string) : M R :=
  match get result key with
  | Some (VFloat x) => ret x
  | Some _ => raise "TypeError"
  | None => raise ("'" ++ key ++ "'")
  end.

(** [result.get(key, [])] where the engine holds a list of strings. *)
Definition get_bits (result : Result) (key : string) : M (list string) :=
  match get result key with
  | Some (VBits bits) => ret bits
  | Some _ => raise "TypeError"
  | None => ret []
  end.

(** [result.get('counts', {})] *)
Definition get_counts (result : Result) : M CountMap :=
  match get result "counts" with
  | Some (VCounts counts) => ret counts
  | Some _ => raise "TypeError"
  | None => ret []
  end.

(** [data = request.get_json() or {}], up to the first [data.get]: the
    dictionary read, or the text of the exception of [get_json], or that
    of the [AttributeError] of a value without a method [get]. *)
Definition body_data (body : Body) : string + Request :=
  match body with
  | Unreadable e => inl e
  | Falsy => inr (mkRequest None None)
  | NotObject type_name =>
      inl ("'" ++ type_name ++ "' object has no attribute 'get'")%string
  | Object data => inr data
  end.

(** [data.get('shots', 1024)] and [data.get('qubits', 1)] *)
Definition requested_shots (data : Request) : Z :=
  match req_shots data with Some shots => shots | None => 1024%Z end.

Definition requested_qubits (data : Request) : nat :=
  match req_qubits data with Some qubits => qubits | None => 1%nat end.

Section Application.

Variable backend : nat -> Circuit -> Z -> string + CountMap.

(** [np.random.randint(0, high)]: what the [i]-th call made for a
    request returns, a number or an exception. *)
Variable randint : nat -> N -> string + N.

(** Drawing the figure, [plt.savefig] and the base64 encoding: the
    encoded image or the exception raised on the way. *)
Variable render : Figure -> string + string.

(** The comprehension [[format(np.random.randint(0, max_val),
    f'0{qubits}b') for _ in range(shots)]], over the indices of its
    calls. *)
Fixpoint classical_draws (qubits : nat) (max_val : N) (calls : list nat)
  : string + list string :=
  match calls with
  | [] => inr []
  | i :: calls' =>
      match randint i max_val with
      | inl e => inl e
      | inr x =>
          match classical_draws qubits max_val calls' with
          | inl e => inl e
          | inr bits => inr (format_0b qubits x :: bits)
          end
      end
  end.

(** The part of [generate_random_numbers] that follows the dispatch:
    what is answered for the [result] of the engine. *)
Definition answer (qubits : nat) (shots : Z) (result : Result) : M Reply :=
  if has_key result "error" then
    message <- get_str result "error" ;;
    ret (Error 500 message)
  else
    let max_val := (2 ^ N.of_nat qubits)%N in
    classical_bits <-
      lift (classical_draws qubits max_val (range (Z.to_nat shots))) ;;
    quantum_counts <- get_counts result ;;
    name <- get_str result "method" ;;
    let fig :=
      plot_distribution_comparison quantum_counts classical_bits
                                   (name ++ " Method") in
    plot_url <- lift (render fig) ;;
    random_bits <- get_bits result "random_bits" ;;
    processed_bits <- get_bits result "processed_bits" ;;
    entropy <- get_float result "entropy" ;;
    ret (Ok (mkResponse name random_bits processed_bits entropy
                        classical_bits
                        ("data:image/png;base64," ++ plot_url)
                        (Z.of_nat (List.length random_bits))
                        shots)).

(** [generate_random_numbers] (the route /api/generate/<method>): the
    reading of the body, the dispatch on the method name, then [answer],
    all of it inside [try ... except Exception as e], which answers 500
    with [str(e)]. *)
Definition generate_random_numbers (method : string) (body : Body)
  : M Reply :=
  try_except
    (data <- lift (body_data body) ;;
     let shots := requested_shots data in
     let qubits := requested_qubits data in
     if method =? "hadamard" then
       result <- hadamard_method backend qubits shots ;;
       answer qubits shots result
     else if method =? "bell" then
       result <- bell_state_method backend shots ;;
       answer qubits shots result
     else if method =? "ghz" then
       result <- ghz_state_method backend qubits shots ;;
       answer qubits shots result
     else if method =? "nist" then
       result <- nist_compliant_method backend shots ;;
       answer qubits shots result
     else ret (Error 400 "Invalid method"))
    (fun e => ret (Error 500 e)).

End Application.



(** The counts a result hands to the plot: [result.get('counts', {})]. *)
Definition plotted_counts (result : Result) : CountMap :=
  match get result "counts" with
  | Some (VCounts counts) => counts
  | _ => []
  end.

(* ================================================================== *)
(** * Properties of the Von Neumann extractor                          *)
(* ================================================================== *)

Lemma extractor_step_contribution output bit_pair :
  extractor_step output bit_pair = output ++ contribution bit_pair.
Proof.
  unfold extractor_step, contribution.
  destruct (String.eqb bit_pair "01") eqn:E01.
  - apply String.eqb_eq in E01. subst. reflexivity.
  - destruct (String.eqb bit_pair "10") eqn:E10.
    + apply String.eqb_eq in E10. subst. reflexivity.
    + rewrite app_nil_r. now destruct (Nat.eqb _ _).
Qed.

Lemma extractor_fold bits : forall output,
  fold_left extractor_step bits output
  = output ++ flat_map contribution bits.
Proof.
  induction bits as [|b bits IH]; intros output; simpl.
  - now rewrite app_nil_r.
  - rewrite IH, extractor_step_contribution, <- app_assoc. reflexivity.
Qed.

Lemma extractor_flat_map bits :
  _von_neumann_extractor bits = flat_map contribution bits.
Proof. unfold _von_neumann_extractor. now rewrite extractor_fold. Qed.

Lemma contribution_wrong_length bit_pair :
  String.length bit_pair <> 2%nat -> contribution bit_pair = [].
Proof.
  intros Hlen. unfold contribution.
  destruct (String.eqb bit_pair "01") eqn:E01.
  - apply String.eqb_eq in E01. subst. now elim Hlen.
  - destruct (String.eqb bit_pair "10") eqn:E10; [|reflexivity].
    apply String.eqb_eq in E10. subst. now elim Hlen.
Qed.

(** Cone. The extractor scans its input in order; an element equal to "01"
    adds the bit "0", an element equal to "10" adds the bit "1", and an
    element equal to "00" or "11" or of length other than 2 adds nothing.
    The output is the concatenation of these contributions in input order
    (the function is total: no input makes it fail). *)
Theorem von_neumann_extractor_spec :
  (forall bits,
     _von_neumann_extractor bits = flat_map contribution bits)
  /\ (forall bits bit_pair,
        _von_neumann_extractor (bits ++ [bit_pair])
        = _von_neumann_extractor bits ++ contribution bit_pair)
  /\ contribution "01" = ["0"]
  /\ contribution "10" = ["1"]
  /\ (forall bit_pair,
        bit_pair = "00" \/ bit_pair = "11"
        \/ String.length bit_pair <> 2%nat ->
        contribution bit_pair = []).
Proof.
  repeat split.
  - exact extractor_flat_map.
  - intros bits bit_pair.
    rewrite !extractor_flat_map, flat_map_app. simpl.
    now rewrite app_nil_r.
  - intros bit_pair [-> | [-> | Hlen]]; try reflexivity.
    now apply contribution_wrong_length.
Qed.

Lemma von_neumann_extractor_spec_witness :
  _von_neumann_extractor (["01"; "00"; "1"; "10"] ++ ["11"])
  = _von_neumann_extractor ["01"; "00"; "1"; "10"] ++ []
  /\ contribution "011" = [].
Proof.
  destruct von_neumann_extractor_spec as (_ & Hsnoc & _ & _ & Hnone).
  split.
  - rewrite (Hsnoc ["01"; "00"; "1"; "10"] "11").
    now rewrite (Hnone "11") by (right; left; reflexivity).
  - apply Hnone. right; right. simpl. lia.
Defined.

Lemma count_contribution_0 bit_pair :
  count_occ string_dec (contribution bit_pair) "0"
  = count_occ string_dec [bit_pair] "01".
Proof.
  unfold contribution.
  destruct (String.eqb bit_pair "01") eqn:E01.
  - apply String.eqb_eq in E01. subst. reflexivity.
  - apply String.eqb_neq in E01.
    replace (count_occ string_dec [bit_pair] "01") with 0%nat
      by (simpl; now destruct (string_dec bit_pair "01")).
    now destruct (String.eqb bit_pair "10").
Qed.

Lemma count_contribution_1 bit_pair :
  count_occ string_dec (contribution bit_pair) "1"
  = count_occ string_dec [bit_pair] "10".
Proof.
  unfold contribution.
  destruct (String.eqb bit_pair "01") eqn:E01.
  - apply String.eqb_eq in E01. subst. reflexivity.
  - destruct (String.eqb bit_pair "10") eqn:E10.
    + apply String.eqb_eq in E10. subst. reflexivity.
    + apply String.eqb_neq in E10. simpl.
      now destruct (string_dec bit_pair "10").
Qed.

Lemma extractor_count_0 bits :
  count_occ string_dec (_von_neumann_extractor bits) "0"
  = count_occ string_dec bits "01".
Proof.
  rewrite extractor_flat_map.
  induction bits as [|b bits IH]; [reflexivity|].
  change (b :: bits) with ([b] ++ bits) at 2.
  cbn [flat_map]. rewrite !count_occ_app, IH, count_contribution_0.
  reflexivity.
Qed.

Lemma extractor_count_1 bits :
  count_occ string_dec (_von_neumann_extractor bits) "1"
  = count_occ string_dec bits "10".
Proof.
  rewrite extractor_flat_map.
  induction bits as [|b bits IH]; [reflexivity|].
  change (b :: bits) with ([b] ++ bits) at 2.
  cbn [flat_map]. rewrite !count_occ_app, IH, count_contribution_1.
  reflexivity.
Qed.

Lemma extractor_without_equal_pairs bits :
  _von_neumann_extractor (without_equal_pairs bits)
  = _von_neumann_extractor bits.
Proof.
  rewrite !extractor_flat_map. unfold without_equal_pairs.
  induction bits as [|b bits IH]; [reflexivity|]. simpl.
  destruct (String.eqb b "00") eqn:E00; simpl.
  - apply String.eqb_eq in E00. subst. exact IH.
  - destruct (String.eqb b "11") eqn:E11; simpl.
    + apply String.eqb_eq in E11. subst. exact IH.
    + now rewrite IH.
Qed.

(** Claim C6. When "01" occurs in the input exactly as often as "10",
    the output of the extractor holds exactly as many "0" bits as "1"
    bits; the elements "00" and "11" contribute nothing: the output is
    that of the input with them removed, and inserting one anywhere
    leaves the output unchanged. *)
Theorem von_neumann_extractor_balanced :
  forall bits,
    count_occ string_dec bits "01" = count_occ string_dec bits "10" ->
    count_occ string_dec (_von_neumann_extractor bits) "0"
    = count_occ string_dec (_von_neumann_extractor bits) "1"
    /\ _von_neumann_extractor bits
       = _von_neumann_extractor (without_equal_pairs bits)
    /\ (forall before after,
          bits = before ++ after ->
          _von_neumann_extractor (before ++ "00" :: after)
          = _von_neumann_extractor bits
          /\ _von_neumann_extractor (before ++ "11" :: after)
             = _von_neumann_extractor bits).
Proof.
  intros bits Heq. repeat split.
  - now rewrite extractor_count_0, extractor_count_1.
  - symmetry. apply extractor_without_equal_pairs.
  - subst bits. rewrite !extractor_flat_map, !flat_map_app. reflexivity.
  - subst bits. rewrite !extractor_flat_map, !flat_map_app. reflexivity.
Qed.

Lemma von_neumann_extractor_balanced_witness :
  count_occ string_dec (_von_neumann_extractor ["01"; "00"; "10"; "11"; "10"; "011"; "01"]) "0"
  = count_occ string_dec (_von_neumann_extractor ["01"; "00"; "10"; "11"; "10"; "011"; "01"]) "1".
Proof.
  exact (proj1 (von_neumann_extractor_balanced
                  ["01"; "00"; "10"; "11"; "10"; "011"; "01"] eq_refl)).
Defined.

(* ================================================================== *)
(** * Properties of the Shannon entropy over outcomes                  *)
(* ================================================================== *)

Section OutcomeEntropy.
Local Open Scope R_scope.

Lemma sum_from (xs : list Z) : forall a : Z,
  fold_left Z.add xs a = (a + sum xs)%Z.
Proof.
  unfold sum. induction xs as [|x xs IH]; intros a; simpl.
  - lia.
  - rewrite IH, (IH x). lia.
Qed.

Lemma sum_cons (x : Z) (xs : list Z) : sum (x :: xs) = (x + sum xs)%Z.
Proof. unfold sum at 1. simpl. now rewrite sum_from. Qed.

Lemma ln_2_pos : 0 < ln 2.
Proof. rewrite <- ln_1. apply ln_increasing; lra. Qed.

Lemma ln_monotone (x y : R) : 0 < x -> x <= y -> ln x <= ln y.
Proof.
  intros Hx [Hlt| ->]; [|lra]. left. now apply ln_increasing.
Qed.

Lemma log2_1 : log2 1 = 0.
Proof. unfold log2. rewrite ln_1. lra. Qed.

Lemma probability_positive (T count : Z) :
  (0 < T)%Z -> (0 < IZR count / IZR T <-> (0 < count)%Z).
Proof.
  intros HT. apply IZR_lt in HT. split.
  - intros Hp. apply lt_IZR.
    destruct (Rle_or_lt (IZR count) 0) as [Hle|]; [|assumption].
    exfalso. apply Rinv_0_lt_compat in HT. unfold Rdiv in Hp. nra.
  - intros Hc. apply IZR_lt in Hc. now apply Rdiv_lt_0_compat.
Qed.

Lemma entropy_step_term (T : Z) (entropy : R) (count : Z) :
  (0 < T)%Z ->
  entropy_step T entropy count
  = if (0 <? count)%Z then entropy - shannon_term T count else entropy.
Proof.
  intros HT. unfold entropy_step, shannon_term. cbv zeta.
  destruct (Rlt_dec 0 (IZR count / IZR T)) as [Hp|Hp];
    destruct (Z.ltb_spec 0 count) as [Hc|Hc]; try reflexivity.
  - apply probability_positive in Hp; [lia | assumption].
  - elim Hp. now apply probability_positive.
Qed.

Lemma entropy_loop (T : Z) (counts : list Z) :
  (0 < T)%Z ->
  forall entropy,
    fold_left (entropy_step T) counts entropy
    = entropy
      - Rsum (map (shannon_term T)
                  (filter (fun count => (0 <? count)%Z) counts)).
Proof.
  intros HT. induction counts as [|c counts IH]; intros entropy; simpl.
  - lra.
  - rewrite IH, entropy_step_term by assumption.
    destruct (0 <? c)%Z; simpl; lra.
Qed.

Lemma entropy_cases (counts : CountMap) (T : Z) :
  sum (values counts) = T ->
  (T = 0%Z -> _calculate_entropy counts = 0)
  /\ ((0 < T)%Z -> _calculate_entropy counts = shannon_sum T counts).
Proof.
  intros HT. unfold _calculate_entropy. cbv zeta. rewrite HT.
  split.
  - intros ->. reflexivity.
  - intros Hpos. destruct (Z.eqb_spec T 0) as [->|_]; [lia|].
    rewrite entropy_loop by assumption. unfold shannon_sum. lra.
Qed.

(** Claim C4. For an Outcome Count Map whose counts sum to T, the
    entropy operation returns 0 when T = 0 and, when T > 0, minus the
    sum of (count_k/T) log2 (count_k/T) over exactly the keys k whose
    count is positive. *)
Theorem calculate_entropy_formula :
  forall (counts : CountMap) (T : Z),
    sum (values counts) = T ->
    (T = 0%Z -> _calculate_entropy counts = 0)
    /\ ((0 < T)%Z -> _calculate_entropy counts = shannon_sum T counts).
Proof.
  intros counts T HT. now apply entropy_cases.
Qed.

Lemma calculate_entropy_formula_witness :
  _calculate_entropy [("00", 3%Z); ("01", 0%Z); ("11", 1%Z)]
  = - (IZR 3 / IZR 4 * log2 (IZR 3 / IZR 4)
       + (IZR 1 / IZR 4 * log2 (IZR 1 / IZR 4) + 0))
  /\ _calculate_entropy [("00", 0%Z)] = 0.
Proof.
  split.
  - exact (proj2 (calculate_entropy_formula
                    [("00", 3%Z); ("01", 0%Z); ("11", 1%Z)] 4 eq_refl)
                 eq_refl).
  - exact (proj1 (calculate_entropy_formula [("00", 0%Z)] 0 eq_refl)
                 eq_refl).
Defined.

(** *** Bounds *)

Lemma ln_le_pred (y : R) : 0 < y -> ln y <= y - 1.
Proof.
  intros Hy. pose proof (exp_ineq1_le (ln y)) as Hexp.
  rewrite exp_ln in Hexp by assumption. lra.
Qed.

(** One term of Gibbs' inequality against the uniform distribution on
    [K] outcomes. *)
Lemma gibbs_term (K p : R) :
  0 < K -> 0 < p -> - (p * ln p) <= p * ln K + / K - p.
Proof.
  intros HK Hp.
  assert (HKp : 0 < K * p) by now apply Rmult_lt_0_compat.
  pose proof (ln_le_pred (/ (K * p)) (Rinv_0_lt_compat _ HKp)) as Hln.
  rewrite ln_Rinv, ln_mult in Hln by assumption.
  assert (Hmul : p * (- (ln K + ln p)) <= p * (/ (K * p) - 1))
    by (apply Rmult_le_compat_l; lra).
  replace (p * (/ (K * p) - 1)) with (/ K - p) in Hmul
    by (field; split; lra).
  lra.
Qed.

Lemma gibbs_sum (K : R) (ps : list R) :
  0 < K -> Forall (fun p => 0 < p) ps ->
  - Rsum (map (fun p => p * ln p) ps)
  <= Rsum ps * ln K + INR (List.length ps) * / K - Rsum ps.
Proof.
  intros HK Hps. induction Hps as [|p ps Hp _ IH].
  - simpl. lra.
  - cbn [map Rsum fold_right List.length]. rewrite S_INR.
    pose proof (gibbs_term K p HK Hp). unfold Rsum in *. lra.
Qed.

Lemma nonpositive_sum (ps : list R) :
  Forall (fun p => 0 < p <= 1) ps ->
  Rsum (map (fun p => p * ln p) ps) <= 0.
Proof.
  induction 1 as [|p ps [Hp Hp1] _ IH]; [simpl; lra|].
  assert (Hln : ln p <= 0).
  { destruct Hp1 as [Hlt| ->]; [|rewrite ln_1; lra].
    rewrite <- ln_1. left. now apply ln_increasing. }
  assert (p * ln p <= 0) by nra.
  cbn [map Rsum fold_right]. unfold Rsum in IH. lra.
Qed.

Lemma shannon_sum_probabilities (T : Z) (counts : CountMap) :
  shannon_sum T counts
  = - Rsum (map (fun p => p * ln p) (probabilities T (values counts)))
    / ln 2.
Proof.
  unfold shannon_sum, probabilities. rewrite map_map.
  generalize (filter (fun count => (0 <? count)%Z) (values counts)).
  intros cs. pose proof ln_2_pos.
  induction cs as [|c cs IH].
  - simpl. lra.
  - cbn [map Rsum fold_right] in *. unfold shannon_term at 1, log2.
    unfold Rsum in *.
    set (x := IZR c / IZR T) in *. set (l := ln x) in *.
    unfold Rdiv in *. lra.
Qed.

Lemma sum_nonneg (counts : list Z) :
  Forall (fun count => (0 <= count)%Z) counts -> (0 <= sum counts)%Z.
Proof.
  induction 1 as [|c cs Hc _ IH]; [reflexivity|].
  rewrite sum_cons. lia.
Qed.

Lemma sum_positive_part (counts : list Z) :
  Forall (fun count => (0 <= count)%Z) counts ->
  sum (filter (fun count => (0 <? count)%Z) counts) = sum counts.
Proof.
  induction 1 as [|c cs Hc _ IH]; [reflexivity|]. simpl.
  destruct (Z.ltb_spec 0 c); rewrite !sum_cons; lia.
Qed.

Lemma count_le_sum (counts : list Z) (count : Z) :
  Forall (fun count => (0 <= count)%Z) counts ->
  In count counts -> (count <= sum counts)%Z.
Proof.
  induction 1 as [|c cs Hc Hcs IH]; intros Hin; [contradiction|].
  rewrite sum_cons. pose proof (sum_nonneg cs Hcs).
  destruct Hin as [->|Hin]; [lia|]. specialize (IH Hin). lia.
Qed.

Lemma Rsum_scaled (T : Z) (cs : list Z) :
  Rsum (map (fun count => IZR count / IZR T) cs) = IZR (sum cs) / IZR T.
Proof.
  induction cs as [|c cs IH].
  - simpl. unfold sum. simpl. lra.
  - cbn [map Rsum fold_right] in *. unfold Rsum in *.
    rewrite IH, sum_cons, plus_IZR. lra.
Qed.

Lemma probabilities_sum (T : Z) (counts : list Z) :
  (0 < T)%Z -> sum counts = T ->
  Forall (fun count => (0 <= count)%Z) counts ->
  Rsum (probabilities T counts) = 1.
Proof.
  intros HT Hsum Hcounts. unfold probabilities.
  rewrite Rsum_scaled, sum_positive_part, Hsum by assumption.
  apply IZR_lt in HT. field. lra.
Qed.

Lemma probabilities_range (T : Z) (counts : list Z) :
  (0 < T)%Z -> sum counts = T ->
  Forall (fun count => (0 <= count)%Z) counts ->
  Forall (fun p => 0 < p <= 1) (probabilities T counts).
Proof.
  intros HT Hsum Hcounts. unfold probabilities.
  apply Forall_forall. intros p Hp.
  apply in_map_iff in Hp as (c & <- & Hc).
  apply filter_In in Hc as [Hin Hpos].
  apply Z.ltb_lt in Hpos.
  pose proof (count_le_sum counts c Hcounts Hin) as Hle.
  rewrite Hsum in Hle. apply IZR_le in Hle.
  pose proof (IZR_lt _ _ HT) as HT'. pose proof (IZR_lt _ _ Hpos).
  split.
  - now apply Rdiv_lt_0_compat.
  - apply Rmult_le_reg_r with (IZR T); [assumption|].
    unfold Rdiv. rewrite Rmult_assoc, Rinv_l by lra. lra.
Qed.

Lemma probabilities_length (T : Z) (counts : CountMap) :
  List.length (probabilities T (values counts)) = positive_counts counts.
Proof. unfold probabilities, positive_counts. apply length_map. Qed.

Lemma keys_filter_distinct (f : string * Z -> bool) (counts : CountMap) :
  distinct_keys counts -> NoDup (keys (filter f counts)).
Proof.
  unfold distinct_keys, keys.
  induction counts as [|[k v] counts IH]; intros Hnodup; simpl.
  - constructor.
  - inversion Hnodup as [|? ? Hnotin Hrest]; subst.
    destruct (f (k, v)); simpl; [|now apply IH].
    constructor; [|now apply IH].
    intros Hin. apply Hnotin.
    apply in_map_iff in Hin as (item & <- & Hitem).
    apply filter_In in Hitem as [Hitem _]. now apply in_map.
Qed.

(** In a dictionary of shot counts the outcomes with a nonzero count are
    the entries with a positive count. *)
Lemma nonzero_outcomes_positive (counts : CountMap) :
  distinct_keys counts -> shot_counts counts ->
  nonzero_outcomes counts = positive_counts counts.
Proof.
  intros Hkeys Hcounts. unfold nonzero_outcomes, positive_counts.
  rewrite nodup_fixed_point by now apply keys_filter_distinct.
  unfold keys, values. rewrite length_map.
  unfold shot_counts, values in Hcounts. clear Hkeys.
  induction counts as [|[k v] counts IH]; [reflexivity|].
  inversion Hcounts as [|? ? Hv Hrest]; subst. simpl in Hv |- *.
  destruct (Z.eqb_spec v 0) as [->|Hnz]; simpl.
  - now apply IH.
  - destruct (Z.ltb_spec 0 v); [|lia]. simpl. f_equal. now apply IH.
Qed.

Lemma entropy_range (counts : CountMap) :
  shot_counts counts ->
  0 <= _calculate_entropy counts
  /\ ((1 <= positive_counts counts)%nat ->
      _calculate_entropy counts <= log2 (INR (positive_counts counts))).
Proof.
  intros Hcounts. pose proof ln_2_pos as Hln2.
  pose proof (sum_nonneg _ Hcounts) as HT.
  destruct (Z.eq_dec (sum (values counts)) 0) as [Hzero|Hnz].
  - rewrite (proj1 (entropy_cases counts _ eq_refl) Hzero).
    split; [lra|]. intros Hk. unfold log2.
    apply Rmult_le_pos; [|left; now apply Rinv_0_lt_compat].
    rewrite <- ln_1. apply ln_monotone; [lra|]. apply (le_INR 1 _ Hk).
  - assert (Hpos : (0 < sum (values counts))%Z) by lia.
    rewrite (proj2 (entropy_cases counts _ eq_refl) Hpos).
    rewrite shannon_sum_probabilities.
    pose proof (probabilities_range _ _ Hpos eq_refl Hcounts) as Hrange.
    pose proof (probabilities_sum _ _ Hpos eq_refl Hcounts) as Hone.
    split.
    + pose proof (nonpositive_sum _ Hrange).
      apply Rmult_le_pos; [lra|]. left. now apply Rinv_0_lt_compat.
    + intros Hk.
      assert (HK : 0 < INR (positive_counts counts))
        by (apply lt_0_INR; lia).
      assert (Hall : Forall (fun p => 0 < p)
                            (probabilities (sum (values counts))
                                           (values counts)))
        by (eapply Forall_impl; [|exact Hrange]; simpl; tauto).
      pose proof (gibbs_sum _ _ HK Hall) as Hgibbs.
      rewrite Hone, probabilities_length in Hgibbs.
      rewrite Rinv_r in Hgibbs by lra.
      unfold log2, Rdiv. apply Rmult_le_compat_r; [|lra].
      left. now apply Rinv_0_lt_compat.
Qed.

Lemma entropy_no_outcome (counts : CountMap) :
  shot_counts counts -> positive_counts counts = 0%nat ->
  _calculate_entropy counts = 0.
Proof.
  intros Hcounts Hnone.
  apply (proj1 (entropy_cases counts _ eq_refl)).
  rewrite <- sum_positive_part by exact Hcounts.
  unfold positive_counts in Hnone.
  apply length_zero_iff_nil in Hnone. now rewrite Hnone.
Qed.

(** ** One outcome, in double precision *)

Lemma div_eucl_exact (a b : Z) :
  (0 < b)%Z -> Z.div_eucl (a * b) b = (a, 0%Z).
Proof.
  intros Hb.
  pose proof (Z.div_mul a b ltac:(lia)) as Hq.
  pose proof (Z.mod_mul a b ltac:(lia)) as Hr.
  unfold Z.div, Z.modulo in Hq, Hr.
  destruct (Z.div_eucl (a * b) b) as [q r]. now subst.
Qed.

(** [0 / T] is the double 0.0. *)
Lemma true_divide_zero (T : Z) :
  (0 < T)%Z -> Double.true_divide 0 T = PrimFloat.zero.
Proof. destruct T as [|p|p]; try lia. intros _. reflexivity. Qed.

(** [c / c] is the double 1.0, whatever the size of [c]. *)
Lemma true_divide_self (c : Z) :
  (0 < c)%Z -> Double.true_divide c c = PrimFloat.one.
Proof.
  destruct c as [|p|p]; try lia. intros _.
  unfold Double.true_divide, Double.exact, SpecFloat.SFdiv,
    SpecFloat.SFdiv_core_binary.
  cbv zeta.
  replace (Z.sub (Z.add (SpecFloat.Zdigits2 (Z.pos p)) 0)
                 (Z.add (SpecFloat.Zdigits2 (Z.pos p)) 0))
    with 0%Z by lia.
  change (Z.sub 0 0) with 0%Z.
  change (Z.min (SpecFloat.fexp FloatOps.prec FloatOps.emax 0) 0)
    with (-53)%Z.
  change (0 - -53)%Z with 53%Z. cbv iota.
  rewrite Z.shiftl_mul_pow2 by lia.
  replace (Z.pos p * 2 ^ 53)%Z with (2 ^ 53 * Z.pos p)%Z by lia.
  rewrite div_eucl_exact by lia.
  unfold SpecFloat.new_location.
  destruct (Z.even (Z.pos p)); vm_compute; reflexivity.
Qed.

(** The loop in double precision passes over the counts that are 0. *)
Lemma double_entropy_positive_part
      (np_log2 : PrimFloat.float -> PrimFloat.float) (T : Z)
      (counts : list Z) :
  (0 < T)%Z ->
  Forall (fun count => (0 <= count)%Z) counts ->
  forall e,
    fold_left (Double.entropy_step np_log2 T) counts e
    = fold_left (Double.entropy_step np_log2 T)
                (filter (fun count => (0 <? count)%Z) counts) e.
Proof.
  intros HT. induction 1 as [|c cs Hc _ IH]; intros e; [reflexivity|].
  cbn [fold_left filter]. destruct (Z.ltb_spec 0 c) as [Hpos|Hzero].
  - cbn [fold_left]. apply IH.
  - assert (c = 0%Z) as -> by lia.
    rewrite <- IH. f_equal.
    unfold Double.entropy_step. cbv zeta.
    now rewrite true_divide_zero by exact HT.
Qed.

(** With one outcome of nonzero count the doubles of the loop are exact:
    the probability is 1.0 and nothing is taken off 0.0. *)
Lemma double_entropy_single
      (np_log2 : PrimFloat.float -> PrimFloat.float) (counts : CountMap) :
  shot_counts counts ->
  positive_counts counts = 1%nat ->
  np_log2 PrimFloat.one = PrimFloat.zero ->
  Double._calculate_entropy np_log2 counts = PrimFloat.zero.
Proof.
  unfold shot_counts, positive_counts. intros Hcounts Hone Hlog.
  pose proof (sum_positive_part (values counts) Hcounts) as Hsum.
  destruct (filter (fun count => (0 <? count)%Z) (values counts))
    as [|c [|c' rest]] eqn:Hfilter; try discriminate Hone.
  assert (Hc : (0 < c)%Z).
  { assert (Hin : In c (filter (fun count => (0 <? count)%Z)
                               (values counts)))
      by (rewrite Hfilter; now left).
    apply filter_In in Hin. now apply Z.ltb_lt. }
  rewrite sum_cons in Hsum. change (sum []) with 0%Z in Hsum.
  unfold Double._calculate_entropy. cbv zeta.
  rewrite <- Hsum, Z.add_0_r.
  destruct (Z.eqb_spec c 0) as [E|_]; [lia|].
  rewrite (double_entropy_positive_part np_log2 c (values counts) Hc Hcounts).
  rewrite Hfilter. cbn [fold_left].
  unfold Double.entropy_step. cbv zeta.
  rewrite (true_divide_self c Hc).
  change (PrimFloat.ltb PrimFloat.zero PrimFloat.one) with true. cbv iota.
  rewrite Hlog. reflexivity.
Qed.

(** Claim C5, as the code has it.  Over the reals, that is with the
    quotients and the logarithms of the loop taken exactly: for an
    Outcome Count Map (a dictionary whose counts are numbers of shots)
    with exactly k distinct outcomes of nonzero count, the formula the
    entropy operation evaluates has a value in the closed interval
    [0, log2 k]; with exactly one such outcome it is exactly 0.  (For
    k = 0, where log2 k is not defined, it is 0 as well.)  The doubles
    the code computes with carry a rounding error that the upper bound
    does not allow for; with exactly one outcome of nonzero count they
    carry none, and the double returned is 0.0 ([np.log2] giving 0.0 at
    1.0). *)
Theorem calculate_entropy_bounds :
  forall (counts : CountMap) (k : nat),
    distinct_keys counts ->
    shot_counts counts ->
    nonzero_outcomes counts = k ->
    0 <= _calculate_entropy counts
    /\ ((1 <= k)%nat -> _calculate_entropy counts <= log2 (INR k))
    /\ (k = 1%nat -> _calculate_entropy counts = 0)
    /\ (k = 0%nat -> _calculate_entropy counts = 0)
    /\ (k = 1%nat ->
        forall np_log2 : PrimFloat.float -> PrimFloat.float,
          np_log2 PrimFloat.one = PrimFloat.zero ->
          Double._calculate_entropy np_log2 counts = PrimFloat.zero).
Proof.
  intros counts k Hkeys Hcounts <-.
  rewrite nonzero_outcomes_positive by assumption.
  destruct (entropy_range counts Hcounts) as [Hlow Hhigh].
  split; [exact Hlow|]. split; [exact Hhigh|]. split; [|split].
  - intros Hone. rewrite Hone in Hhigh. simpl in Hhigh.
    rewrite log2_1 in Hhigh. specialize (Hhigh (le_n 1)). lra.
  - now apply entropy_no_outcome.
  - intros Hone np_log2 Hlog. now apply double_entropy_single.
Qed.

Lemma calculate_entropy_bounds_witness :
  0 <= _calculate_entropy [("00", 3%Z); ("10", 0%Z); ("11", 1%Z)]
  /\ _calculate_entropy [("00", 3%Z); ("10", 0%Z); ("11", 1%Z)]
     <= log2 (INR 2)
  /\ _calculate_entropy [("000", 0%Z); ("111", 7%Z)] = 0.
Proof.
  assert (H1 : shot_counts [("00", 3%Z); ("10", 0%Z); ("11", 1%Z)])
    by (unfold shot_counts; simpl; repeat constructor; lia).
  assert (H2 : shot_counts [("000", 0%Z); ("111", 7%Z)])
    by (unfold shot_counts; simpl; repeat constructor; lia).
  assert (K1 : distinct_keys [("00", 3%Z); ("10", 0%Z); ("11", 1%Z)])
    by (unfold distinct_keys; simpl; repeat constructor; simpl;
        intuition discriminate).
  assert (K2 : distinct_keys [("000", 0%Z); ("111", 7%Z)])
    by (unfold distinct_keys; simpl; repeat constructor; simpl;
        intuition discriminate).
  pose proof (calculate_entropy_bounds _ 2 K1 H1 eq_refl)
    as (Hlow & Hhigh & _).
  pose proof (calculate_entropy_bounds _ 1 K2 H2 eq_refl)
    as (_ & _ & Hone & _).
  repeat split.
  - exact Hlow.
  - apply Hhigh. lia.
  - now apply Hone.
Defined.

End OutcomeEntropy.

Section Rounding.
Import PrimFloat.

(** In double precision the upper bound of claim C5 fails by rounding.
    On eleven outcomes counted once each the probability is the double
    nearest to 1/11, [np.log2] gives the double nearest to its
    logarithm, and the eleven subtractions of the loop end on
    3.459431618637298, two units in the last place above the double
    nearest to log2 11 (3.4594316186372973) and one above the next
    double, hence above log2 11 itself. *)
Lemma calculate_entropy_rounding :
  distinct_keys eleven_outcomes
  /\ shot_counts eleven_outcomes
  /\ nonzero_outcomes eleven_outcomes = 11%nat
  /\ Double.true_divide 1 11 = 0x1.745d1745d1746p-4%float
  /\ Double._calculate_entropy Double.log2_eleven eleven_outcomes
     = 0x1.bacea7c065d44p+1%float
  /\ (Double.log2_eleven 11
      <? Double._calculate_entropy Double.log2_eleven eleven_outcomes)%float
     = true
  /\ (next_up (Double.log2_eleven 11)
      <? Double._calculate_entropy Double.log2_eleven eleven_outcomes)%float
     = true.
Proof.
  split; [|split; [|split; [|split; [|split; [|split]]]]].
  - unfold distinct_keys, eleven_outcomes. cbn [keys map fst].
    repeat constructor; cbn [In]; intuition discriminate.
  - unfold shot_counts, eleven_outcomes. repeat constructor; simpl; lia.
  - reflexivity.
  - vm_compute. reflexivity.
  - vm_compute. reflexivity.
  - vm_compute. reflexivity.
  - vm_compute. reflexivity.
Qed.

End Rounding.

(* ================================================================== *)
(** * Properties of the bit-sequence entropy                           *)
(* ================================================================== *)

Section BitEntropy.
Local Open Scope R_scope.

(** Decides [Forall binary_string] on a literal list. *)
Ltac binary_strings :=
  repeat (apply Forall_cons || apply Forall_nil);
  unfold binary_string; simpl;
  repeat (apply Forall_cons || apply Forall_nil);
  solve [left; reflexivity | right; reflexivity].

Lemma list_ascii_of_string_app (s1 s2 : string) :
  list_ascii_of_string (s1 ++ s2)
  = list_ascii_of_string s1 ++ list_ascii_of_string s2.
Proof. induction s1 as [|c s1 IH]; simpl; [reflexivity|now rewrite IH]. Qed.

(** [''.join] concatenates the characters of its arguments in order. *)
Lemma join_symbol_stream (bits : list string) :
  list_ascii_of_string (join bits) = symbol_stream bits.
Proof.
  unfold join, symbol_stream.
  induction bits as [|b bits IH]; [reflexivity|].
  destruct bits as [|b' bits].
  - simpl. now rewrite app_nil_r.
  - change (String.concat "" (b :: b' :: bits))
      with (b ++ "" ++ String.concat "" (b' :: bits))%string.
    rewrite list_ascii_of_string_app. cbn [String.append].
    rewrite IH. reflexivity.
Qed.

Lemma string_length_chars (s : string) :
  String.length s = List.length (list_ascii_of_string s).
Proof. induction s; simpl; congruence. Qed.

Lemma tally (stream : list ascii) : forall a b : Z,
  fold_left tally_step stream [("0"%char, a); ("1"%char, b)]
  = [("0"%char, (a + occurrences "0" stream)%Z);
     ("1"%char, (b + occurrences "1" stream)%Z)].
Proof.
  unfold occurrences.
  induction stream as [|c stream IH]; intros a b.
  - simpl. now rewrite !Z.add_0_r.
  - cbn [fold_left count_occ]. unfold tally_step at 2. cbn [dict_get].
    destruct (Ascii.eqb_spec c "0") as [->|H0].
    + cbn [dict_set]. rewrite Ascii.eqb_refl, IH.
      destruct (ascii_dec "0" "0") as [_|F]; [|now elim F].
      destruct (ascii_dec "0" "1") as [F|_]; [discriminate|].
      rewrite Nat2Z.inj_succ.
      replace (a + 1 + Z.of_nat (count_occ ascii_dec stream "0"%char))%Z
        with (a + Z.succ (Z.of_nat (count_occ ascii_dec stream "0"%char)))%Z
        by lia.
      reflexivity.
    + destruct (Ascii.eqb_spec c "1") as [->|H1].
      * cbn [dict_set]. rewrite Ascii.eqb_refl.
        replace (Ascii.eqb "1" "0") with false by reflexivity.
        rewrite IH.
        destruct (ascii_dec "1" "1") as [_|F]; [|now elim F].
        destruct (ascii_dec "1" "0") as [F|_]; [discriminate|].
        rewrite Nat2Z.inj_succ.
        replace (b + 1 + Z.of_nat (count_occ ascii_dec stream "1"%char))%Z
          with (b + Z.succ (Z.of_nat (count_occ ascii_dec stream "1"%char)))%Z
          by lia.
        reflexivity.
      * rewrite IH.
        destruct (ascii_dec c "0") as [F|_]; [now elim H0|].
        destruct (ascii_dec c "1") as [F|_]; [now elim H1|].
        reflexivity.
Qed.

Lemma bit_entropy_loop (T : Z) (counts : list Z) : forall entropy,
  fold_left (bit_entropy_step T) counts entropy
  = entropy
    - Rsum (map (shannon_term T)
                (filter (fun count => (0 <? count)%Z) counts)).
Proof.
  induction counts as [|c counts IH]; intros entropy; simpl.
  - lra.
  - rewrite IH. unfold bit_entropy_step, shannon_term. cbv zeta.
    destruct (0 <? c)%Z; unfold Rsum; cbn [map fold_right]; lra.
Qed.

(** The value of the operation in terms of the symbol counts of the
    concatenated stream and of its length. *)
Lemma bit_entropy_value (bits : list string) :
  let stream := symbol_stream bits in
  let T := Z.of_nat (List.length stream) in
  _calculate_bit_entropy bits
  = if (T =? 0)%Z then 0 else shannon_sum T (symbol_counts stream).
Proof.
  cbv zeta. destruct bits as [|b bits]; [reflexivity|].
  unfold _calculate_bit_entropy. cbv zeta.
  rewrite string_length_chars, join_symbol_stream.
  destruct (Z.of_nat _ =? 0)%Z; [reflexivity|].
  rewrite tally, bit_entropy_loop. unfold shannon_sum. simpl values.
  lra.
Qed.

Lemma binary_stream (bits : list string) :
  Forall binary_string bits ->
  Forall (fun c => c = "0"%char \/ c = "1"%char) (symbol_stream bits).
Proof.
  unfold symbol_stream. induction 1 as [|b bits Hb _ IH]; simpl.
  - constructor.
  - apply Forall_app. split; assumption.
Qed.

Lemma binary_counts (stream : list ascii) :
  Forall (fun c => c = "0"%char \/ c = "1"%char) stream ->
  (occurrences "0" stream + occurrences "1" stream)%Z
  = Z.of_nat (List.length stream).
Proof.
  unfold occurrences. induction 1 as [|c stream Hc _ IH].
  - reflexivity.
  - cbn [count_occ List.length].
    destruct Hc as [-> | ->].
    + destruct (ascii_dec "0" "0") as [_|F]; [|now elim F].
      destruct (ascii_dec "0" "1") as [F|_]; [discriminate|]. lia.
    + destruct (ascii_dec "1" "1") as [_|F]; [|now elim F].
      destruct (ascii_dec "1" "0") as [F|_]; [discriminate|]. lia.
Qed.

Lemma symbol_counts_sum (stream : list ascii) :
  sum (values (symbol_counts stream))
  = (occurrences "0" stream + occurrences "1" stream)%Z.
Proof. unfold symbol_counts. simpl. rewrite !sum_cons. unfold sum. simpl. lia. Qed.

Lemma symbol_counts_shots (stream : list ascii) :
  shot_counts (symbol_counts stream).
Proof.
  unfold shot_counts, symbol_counts, occurrences. simpl.
  repeat constructor; lia.
Qed.

(** On a stream over 0 and 1 the operation is the entropy operation
    applied to the symbol counts. *)
Lemma bit_entropy_as_entropy (bits : list string) :
  Forall binary_string bits ->
  _calculate_bit_entropy bits
  = _calculate_entropy (symbol_counts (symbol_stream bits)).
Proof.
  intros Hbits. rewrite bit_entropy_value. cbv zeta.
  pose proof (binary_counts _ (binary_stream _ Hbits)) as Hlen.
  pose proof (symbol_counts_sum (symbol_stream bits)) as Hsum.
  rewrite Hlen in Hsum. rewrite <- Hsum.
  destruct (entropy_cases
              (symbol_counts (symbol_stream bits)) _ eq_refl)
    as [Hzero Hpos].
  destruct (Z.eqb_spec (sum (values (symbol_counts (symbol_stream bits)))) 0)
    as [E|E].
  - now rewrite Hzero.
  - rewrite Hpos; [reflexivity|]. rewrite Hsum in *. lia.
Qed.

(** Claim C9. The bit-sequence entropy operation concatenates the
    strings of its input into one symbol stream and returns the Shannon
    entropy of the frequencies of the symbols 0 and 1 in that stream:
    0 for an empty stream, otherwise minus the sum of (n_s/T) log2
    (n_s/T) over the symbols s that occur, with T the length of the
    stream.  When the stream is over the alphabet 0, 1 the symbol
    counts sum to T and the value is that of the entropy operation on
    the symbol counts.  On the empty list it returns 0. *)
Theorem calculate_bit_entropy_spec :
  _calculate_bit_entropy [] = 0
  /\ (forall bits, list_ascii_of_string (join bits) = symbol_stream bits)
  /\ (forall bits T,
        Z.of_nat (List.length (symbol_stream bits)) = T ->
        (T = 0%Z -> _calculate_bit_entropy bits = 0)
        /\ ((0 < T)%Z ->
            _calculate_bit_entropy bits
            = shannon_sum T (symbol_counts (symbol_stream bits))))
  /\ (forall bits,
        Forall binary_string bits ->
        sum (values (symbol_counts (symbol_stream bits)))
        = Z.of_nat (List.length (symbol_stream bits))
        /\ _calculate_bit_entropy bits
           = _calculate_entropy (symbol_counts (symbol_stream bits))).
Proof.
  split; [reflexivity|]. split; [exact join_symbol_stream|]. split.
  - intros bits T HT. pose proof (bit_entropy_value bits) as Hv.
    cbv zeta in Hv. rewrite HT in Hv. split.
    + intros ->. exact Hv.
    + intros Hpos. destruct (Z.eqb_spec T 0); [lia|exact Hv].
  - intros bits Hbits. split.
    + rewrite symbol_counts_sum.
      apply binary_counts. now apply binary_stream.
    + now apply bit_entropy_as_entropy.
Qed.

Lemma calculate_bit_entropy_spec_witness :
  _calculate_bit_entropy ["0"; "1"; "1"; "1"]
  = shannon_sum 4 [("0", 1%Z); ("1", 3%Z)]
  /\ _calculate_bit_entropy [""; ""] = 0
  /\ _calculate_bit_entropy ["0"; "1"; "1"; "1"]
     = _calculate_entropy [("0", 1%Z); ("1", 3%Z)].
Proof.
  destruct calculate_bit_entropy_spec as (_ & _ & Hvalue & Hbinary).
  split; [|split].
  - exact (proj2 (Hvalue ["0"; "1"; "1"; "1"] 4%Z eq_refl) eq_refl).
  - exact (proj1 (Hvalue [""; ""] 0%Z eq_refl) eq_refl).
  - apply (Hbinary ["0"; "1"; "1"; "1"]).
    binary_strings.
Defined.

Lemma log2_2 : log2 2 = 1.
Proof. unfold log2. pose proof ln_2_pos. field. lra. Qed.

(** Claim C10. For an input list all of whose characters are 0 or 1,
    the value of the bit-sequence entropy operation lies in [0, 1]. *)
Theorem calculate_bit_entropy_range :
  forall bits,
    Forall binary_string bits ->
    0 <= _calculate_bit_entropy bits <= 1.
Proof.
  intros bits Hbits. rewrite bit_entropy_as_entropy by assumption.
  set (counts := symbol_counts (symbol_stream bits)).
  destruct (entropy_range counts (symbol_counts_shots _)) as [Hlow Hhigh].
  split; [assumption|].
  destruct (Z.eq_dec (sum (values counts)) 0) as [Hzero|Hnz].
  - rewrite (proj1 (entropy_cases counts _ eq_refl) Hzero). lra.
  - assert (Hk : (1 <= positive_counts counts <= 2)%nat).
    { subst counts. rewrite symbol_counts_sum in Hnz.
      unfold positive_counts, symbol_counts. simpl.
      destruct (Z.ltb_spec 0 (occurrences "0" (symbol_stream bits)));
        destruct (Z.ltb_spec 0 (occurrences "1" (symbol_stream bits)));
        simpl; try lia.
      unfold occurrences in *. lia. }
    apply Rle_trans with (1 := Hhigh (proj1 Hk)).
    rewrite <- log2_2. unfold log2, Rdiv.
    apply Rmult_le_compat_r.
    + left. apply Rinv_0_lt_compat, ln_2_pos.
    + apply ln_monotone.
      * apply (lt_INR 0). lia.
      * apply (le_INR _ 2). lia.
Qed.

Lemma calculate_bit_entropy_range_witness :
  0 <= _calculate_bit_entropy ["0"; "1"; "1"; "0"; "1"] <= 1.
Proof.
  apply calculate_bit_entropy_range.
  binary_strings.
Defined.

End BitEntropy.

(* ================================================================== *)
(** * The generation methods                                           *)
(* ================================================================== *)

Lemma extend_bits_flattened (counts : CountMap) : forall random_bits,
  extend_bits random_bits counts = random_bits ++ flattened counts.
Proof.
  unfold extend_bits, flattened.
  induction counts as [|item counts IH]; intros random_bits; simpl.
  - now rewrite app_nil_r.
  - now rewrite IH, app_assoc.
Qed.

Lemma circuit_eta (c : Circuit) :
  mkCircuit (num_qubits c) (num_clbits c) (gates c) (measured c) = c.
Proof. now destruct c. Qed.

(** The loop applying Hadamard gates extends the gate sequence. *)
Lemma for_each_h (qs : list nat) : forall (c : Circuit) (w : World),
  Forall (fun q => (q < num_qubits c)%nat) qs ->
  for_each qs (fun qubit c => lift (h qubit c)) c w
  = (Return (mkCircuit (num_qubits c) (num_clbits c)
                       (gates c ++ map H qs) (measured c)), w).
Proof.
  induction qs as [|q qs IH]; intros c w Hqs.
  - simpl. unfold ret. now rewrite app_nil_r, circuit_eta.
  - inversion Hqs as [|? ? Hq Hqs']; subst.
    cbn [for_each]. unfold bind at 1. unfold h.
    apply Nat.ltb_lt in Hq. rewrite Hq. cbn [lift]. unfold ret at 1.
    rewrite IH by exact Hqs'. simpl. now rewrite <- app_assoc.
Qed.

(** The loop applying controlled-NOT gates from qubit 0. *)
Lemma for_each_cx (ts : list nat) : forall (c : Circuit) (w : World),
  (0 < num_qubits c)%nat ->
  Forall (fun t => (0 < t < num_qubits c)%nat) ts ->
  for_each ts (fun i c => lift (cx 0 i c)) c w
  = (Return (mkCircuit (num_qubits c) (num_clbits c)
                       (gates c ++ map (CX 0) ts) (measured c)), w).
Proof.
  induction ts as [|t ts IH]; intros c w Hn Hts.
  - simpl. unfold ret. now rewrite app_nil_r, circuit_eta.
  - inversion Hts as [|? ? [Ht0 Ht] Hts']; subst.
    cbn [for_each]. unfold bind at 1. unfold cx.
    apply Nat.ltb_lt in Hn, Ht. rewrite Hn, Ht. cbn [andb].
    destruct (Nat.eqb_spec 0 t) as [E|_]; [lia|].
    cbn [lift]. unfold ret at 1.
    rewrite IH; simpl; try assumption.
    + now rewrite <- app_assoc.
    + now apply Nat.ltb_lt.
Qed.

Lemma range_below (n : nat) : Forall (fun q => (q < n)%nat) (range n).
Proof.
  apply Forall_forall. intros q Hq. apply in_seq in Hq. lia.
Qed.

Lemma range2_between (n : nat) :
  Forall (fun t => (0 < t < n)%nat) (range2 1 n).
Proof.
  apply Forall_forall. intros q Hq. apply in_seq in Hq. lia.
Qed.

Lemma forallb_range (n : nat) :
  forallb (fun q => (q <? n)%nat) (range n) = true.
Proof.
  apply forallb_forall. intros q Hq. apply in_seq in Hq.
  apply Nat.ltb_lt. lia.
Qed.

(** Measuring every qubit into the classical bit of the same index. *)
Lemma measure_all (n : nat) (gs : list Gate) :
  measure (range n) (range n) (mkCircuit n n gs [])
  = inr (mkCircuit n n gs (combine (range n) (range n))).
Proof.
  unfold measure. cbn [num_qubits num_clbits gates measured].
  now rewrite Nat.eqb_refl, forallb_range.
Qed.

Section Methods.
Variable backend : nat -> Circuit -> Z -> string + CountMap.

Lemma hadamard_method_run (n : nat) (shots : Z) (w : World) :
  hadamard_method backend n shots w
  = single_run backend "Hadamard" "Hadamard method failed: "
               (hadamard_circuit n) shots w.
Proof.
  unfold hadamard_method, try_except, single_run.
  unfold bind at 1. unfold ret at 1.
  unfold bind at 1. rewrite for_each_h by apply range_below.
  cbn [QuantumCircuit num_qubits num_clbits gates measured app].
  unfold bind at 1. rewrite measure_all. cbn [lift]. unfold ret at 1.
  unfold bind, execute. fold (hadamard_circuit n). fold (after_job w).
  destruct (backend (jobs w) (hadamard_circuit n) shots) as [e|counts].
  - reflexivity.
  - unfold ret, single_result. now rewrite extend_bits_flattened.
Qed.

Lemma bell_state_method_run (shots : Z) (w : World) :
  bell_state_method backend shots w
  = single_run backend "Bell_State" "Bell state method failed: "
               bell_circuit shots w.
Proof.
  unfold bell_state_method, try_except, single_run.
  cbv beta iota zeta delta
      [bind ret execute lift h cx measure QuantumCircuit add_gate
       num_qubits num_clbits gates measured app Nat.ltb Nat.leb Nat.eqb
       andb forallb List.length combine].
  fold bell_circuit. fold (after_job w).
  destruct (backend (jobs w) bell_circuit shots) as [e|counts].
  - reflexivity.
  - unfold single_result. now rewrite extend_bits_flattened.
Qed.

Lemma ghz_state_method_run (n : nat) (shots : Z) (w : World) :
  (1 <= n)%nat ->
  ghz_state_method backend n shots w
  = single_run backend "GHZ_State" "GHZ state method failed: "
               (ghz_circuit n) shots w.
Proof.
  intros Hn. unfold ghz_state_method, try_except, single_run.
  unfold bind at 1. unfold ret at 1.
  unfold bind at 1. unfold h. cbn [QuantumCircuit num_qubits].
  destruct (Nat.ltb_spec 0 n) as [_|F]; [|lia].
  cbn [lift]. unfold ret at 1.
  unfold bind at 1.
  rewrite for_each_cx; cbn [add_gate QuantumCircuit num_qubits];
    [|lia|apply range2_between].
  cbn [add_gate QuantumCircuit num_qubits num_clbits gates measured app].
  unfold bind at 1. rewrite measure_all. cbn [lift]. unfold ret at 1.
  unfold bind, execute. fold (ghz_circuit n). fold (after_job w).
  destruct (backend (jobs w) (ghz_circuit n) shots) as [e|counts].
  - reflexivity.
  - unfold ret, single_result. now rewrite extend_bits_flattened.
Qed.

Lemma nist_source_run (shots : Z) (i : nat) (circuits : list Circuit)
      (all_bits : list string) (w : World) :
  nist_source backend shots i (circuits, all_bits) w
  = match backend (jobs w) nist_circuit (shots / 4)%Z with
    | inl e => (Raise e, after_job w)
    | inr counts =>
        (Return (circuits ++ [nist_circuit], all_bits ++ flattened counts),
         after_job w)
    end.
Proof.
  unfold nist_source.
  cbv beta iota zeta delta
      [bind ret execute lift h rz measure QuantumCircuit add_gate
       num_qubits num_clbits gates measured app Nat.ltb Nat.leb Nat.eqb
       andb forallb List.length combine].
  fold nist_circuit. fold (after_job w).
  destruct (backend (jobs w) nist_circuit (shots / 4)%Z) as [e|counts].
  - reflexivity.
  - now rewrite extend_bits_flattened.
Qed.

Lemma nist_loop (shots : Z) (n : nat) :
  forall (start : nat) (circuits : list Circuit) (all_bits : list string)
         (w : World),
    for_each (seq start n) (nist_source backend shots) (circuits, all_bits) w
    = match nist_jobs backend shots n w with
      | (inl e, w') => (Raise e, w')
      | (inr sources, w') =>
          (Return (circuits ++ repeat nist_circuit (List.length sources),
                   all_bits ++ flat_map flattened sources), w')
      end.
Proof.
  induction n as [|n IH]; intros start circuits all_bits w.
  - simpl. unfold ret. now rewrite !app_nil_r.
  - cbn [seq for_each nist_jobs]. unfold bind at 1.
    rewrite nist_source_run.
    destruct (backend (jobs w) nist_circuit (shots / 4)%Z) as [e|counts];
      [reflexivity|].
    rewrite IH.
    destruct (nist_jobs backend shots n (after_job w)) as [[e|sources] w'];
      [reflexivity|].
    cbn [List.length repeat flat_map]. now rewrite <- !app_assoc.
Qed.

Lemma nist_compliant_method_run (shots : Z) (w : World) :
  nist_compliant_method backend shots w
  = match nist_jobs backend shots 4 w with
    | (inl e, w') => (Return (error_result "NIST method failed: " e), w')
    | (inr sources, w') => (Return (nist_result sources), w')
    end.
Proof.
  unfold nist_compliant_method, try_except. unfold bind at 1.
  unfold range. rewrite nist_loop.
  destruct (nist_jobs backend shots 4 w) as [[e|sources] w'];
    reflexivity.
Qed.

Lemma nist_jobs_length (shots : Z) (n : nat) : forall w sources w',
  nist_jobs backend shots n w = (inr sources, w') ->
  List.length sources = n.
Proof.
  induction n as [|n IH]; intros w sources w'; simpl.
  - intros [= <- _]. reflexivity.
  - destruct (backend (jobs w) nist_circuit (shots / 4)%Z); [discriminate|].
    destruct (nist_jobs backend shots n (after_job w)) as [[e|rest] w1] eqn:E;
      [discriminate|].
    intros [= <- _]. simpl. f_equal. eapply IH. exact E.
Qed.

(** A qubit count of 0 makes the GHZ method fail: there is no qubit 0. *)
Lemma ghz_state_method_no_qubit (shots : Z) (w : World) :
  ghz_state_method backend 0 shots w
  = (Return (error_result "GHZ state method failed: " (index_error 0 0)),
     w).
Proof. reflexivity. Qed.

End Methods.

(** ** The shape of a result *)

(** The fields of the result of a successful single-circuit method. *)
Lemma single_result_fields (name : string) (circuit : Circuit)
      (counts : CountMap) :
  has_key (single_result name circuit counts) "error" = false
  /\ get (single_result name circuit counts) "method" = Some (VStr name)
  /\ get (single_result name circuit counts) "counts"
     = Some (VCounts counts)
  /\ get (single_result name circuit counts) "random_bits"
     = Some (VBits (flattened counts))
  /\ get (single_result name circuit counts) "entropy"
     = Some (VFloat (_calculate_entropy counts))
  /\ get (single_result name circuit counts) "raw_bits" = None
  /\ get (single_result name circuit counts) "processed_bits" = None.
Proof. repeat split. Qed.

(** The fields of the result of a successful combined method. *)
Lemma nist_result_fields (sources : list CountMap) :
  let all_bits := flat_map flattened sources in
  has_key (nist_result sources) "error" = false
  /\ get (nist_result sources) "method" = Some (VStr "NIST_Compliant")
  /\ get (nist_result sources) "raw_bits" = Some (VBits all_bits)
  /\ get (nist_result sources) "processed_bits"
     = Some (VBits (_von_neumann_extractor all_bits))
  /\ get (nist_result sources) "entropy"
     = Some (VFloat (_calculate_bit_entropy
                       (_von_neumann_extractor all_bits)))
  /\ get (nist_result sources) "random_bits" = None
  /\ get (nist_result sources) "counts" = None.
Proof. repeat split. Qed.

Lemma error_result_key (prefix e : string) :
  has_key (error_result prefix e) "error" = true.
Proof. reflexivity. Qed.

(** What [generate] returns for a single-circuit method. *)
Lemma generate_single backend (method : string) (qubits : nat) (shots : Z)
      (w : World) :
  method = "hadamard" \/ method = "bell" \/ method = "ghz" ->
  exists prefix,
    generate backend method qubits shots w
    = (if (method =? "ghz") && (qubits =? 0)%nat
       then (Return (error_result prefix (index_error 0 0)), w)
       else single_run backend (method_name method) prefix
                       (method_circuit method qubits) shots w).
Proof.
  intros [-> | [-> | ->]].
  - exists "Hadamard method failed: ". apply hadamard_method_run.
  - exists "Bell state method failed: ". apply bell_state_method_run.
  - exists "GHZ state method failed: ".
    destruct qubits as [|n].
    + apply ghz_state_method_no_qubit.
    + apply ghz_state_method_run. lia.
Qed.

Lemma methods_cases (method : string) :
  In method methods ->
  (method = "hadamard" \/ method = "bell" \/ method = "ghz")
  \/ method = "nist".
Proof. simpl. intuition. Qed.

Lemma single_not_nist (method : string) :
  method = "hadamard" \/ method = "bell" \/ method = "ghz" ->
  method <> "nist".
Proof. intros [-> | [-> | ->]]; discriminate. Qed.

(** Claim C3, as the code has it.  A successful invocation of the
    Hadamard, Bell or GHZ method returns a result that carries the
    method name, the Outcome Count Map the backend returned, the
    flattened list of per-shot outcome strings under the key
    [random_bits] and the entropy of the counts.  A successful
    invocation of the NIST method returns a result that carries the
    method name, the flattened outcome strings of its four sources under
    the key [raw_bits], the debiased bits under the key [processed_bits]
    and their bit-sequence entropy; it has no key [random_bits]. *)
Theorem generation_result_fields :
  forall backend method qubits shots w,
    In method methods ->
    exists result w',
      generate backend method qubits shots w = (Return result, w')
      /\ (has_key result "error" = false ->
          get result "method" = Some (VStr (method_name method))
          /\ (method <> "nist" ->
              exists counts,
                backend (jobs w) (method_circuit method qubits) shots
                = inr counts
                /\ get result "counts" = Some (VCounts counts)
                /\ get result "random_bits"
                   = Some (VBits (flattened counts))
                /\ get result "entropy"
                   = Some (VFloat (_calculate_entropy counts))
                /\ get result "processed_bits" = None)
          /\ (method = "nist" ->
              exists sources,
                nist_jobs backend shots 4 w = (inr sources, w')
                /\ get result "raw_bits"
                   = Some (VBits (flat_map flattened sources))
                /\ get result "processed_bits"
                   = Some (VBits (_von_neumann_extractor
                                    (flat_map flattened sources)))
                /\ get result "entropy"
                   = Some (VFloat (_calculate_bit_entropy
                                     (_von_neumann_extractor
                                        (flat_map flattened sources))))
                /\ get result "random_bits" = None)).
Proof.
  intros backend method qubits shots w Hin.
  destruct (methods_cases method Hin) as [Hsingle | ->].
  - destruct (generate_single backend method qubits shots w Hsingle)
      as [prefix ->].
    pose proof (single_not_nist method Hsingle) as Hnot.
    destruct ((method =? "ghz") && (qubits =? 0)%nat).
    { do 2 eexists. split; [reflexivity|]. discriminate. }
    unfold single_run.
    destruct (backend (jobs w) (method_circuit method qubits) shots)
      as [e|counts] eqn:Hrun.
    { do 2 eexists. split; [reflexivity|]. discriminate. }
    do 2 eexists. split; [reflexivity|]. intros _.
    split; [reflexivity|]. split; [|intros ->; now elim Hnot].
    intros _. exists counts. repeat split.
  - change (generate backend "nist" qubits shots)
      with (nist_compliant_method backend shots).
    rewrite nist_compliant_method_run.
    destruct (nist_jobs backend shots 4 w) as [[e|sources] w'] eqn:Hjobs.
    { do 2 eexists. split; [reflexivity|]. discriminate. }
    do 2 eexists. split; [reflexivity|]. intros _.
    split; [reflexivity|]. split; [intros F; now elim F|].
    intros _. exists sources. repeat split.
Qed.

Lemma generation_result_fields_witness :
  exists result w',
    generate zeros_backend "nist" 1 8 (mkWorld 0 0) = (Return result, w')
    /\ get result "raw_bits"
       = Some (VBits ["00"; "00"; "00"; "00"; "00"; "00"; "00"; "00"])
    /\ get result "processed_bits" = Some (VBits [])
    /\ get result "random_bits" = None.
Proof.
  destruct (generation_result_fields zeros_backend "nist" 1 8 (mkWorld 0 0))
    as (result & w' & Hrun & Hfields).
  { simpl. auto. }
  exists result, w'. split; [exact Hrun|].
  assert (Hok : has_key result "error" = false).
  { change (generate zeros_backend "nist" 1 8 (mkWorld 0 0))
      with (nist_compliant_method zeros_backend 8 (mkWorld 0 0)) in Hrun.
    rewrite nist_compliant_method_run in Hrun.
    injection Hrun as <- _. reflexivity. }
  destruct (Hfields Hok) as (_ & _ & Hnist).
  destruct (Hnist eq_refl) as (sources & Hjobs & Hraw & Hproc & _ & Hnone).
  injection Hjobs as <- _. repeat split; assumption.
Defined.

(** The combined method returns its outcome strings under [raw_bits]:
    a successful result of it has no key [random_bits], so that not
    every successful result carries the flattened outcome strings under
    that key. *)
Lemma nist_result_without_random_bits :
  ~ (forall backend method qubits shots w result w',
       In method methods ->
       generate backend method qubits shots w = (Return result, w') ->
       has_key result "error" = false ->
       exists random_bits,
         get result "random_bits" = Some (VBits random_bits)).
Proof.
  intros Hall.
  destruct (Hall zeros_backend "nist" 1%nat 8%Z (mkWorld 0 0)
                 (nist_result (repeat [("00", 2%Z)] 4)) (mkWorld 4 0))
    as [random_bits Hget].
  - simpl. auto.
  - change (generate zeros_backend "nist" 1 8 (mkWorld 0 0))
      with (nist_compliant_method zeros_backend 8 (mkWorld 0 0)).
    now rewrite nist_compliant_method_run.
  - reflexivity.
  - discriminate Hget.
Qed.

(** ** Zero shots *)

Section MethodFailures.
Variable backend : nat -> Circuit -> Z -> string + CountMap.

(** What [generate] returns for a single-circuit method on at least one
    qubit, with the text of its failure. *)
Lemma generate_single_run (method : string) (qubits : nat) (shots : Z)
      (w : World) :
  method = "hadamard" \/ method = "bell" \/ method = "ghz" ->
  (1 <= qubits)%nat ->
  generate backend method qubits shots w
  = single_run backend (method_name method) (failure_prefix method)
               (method_circuit method qubits) shots w.
Proof.
  intros [-> | [-> | ->]] Hq.
  - apply hadamard_method_run.
  - apply bell_state_method_run.
  - now apply ghz_state_method_run.
Qed.

Lemma nist_jobs_world (shots : Z) (n : nat) : forall w answer w',
  nist_jobs backend shots n w = (answer, w') ->
  ticks w' = ticks w /\ (jobs w <= jobs w' <= jobs w + n)%nat.
Proof.
  induction n as [|n IH]; intros w answer w'; simpl.
  - intros [= _ <-]. lia.
  - destruct (backend (jobs w) nist_circuit (shots / 4)%Z).
    + intros [= _ <-]. simpl. lia.
    + destruct (nist_jobs backend shots n (after_job w))
        as [[e|rest] w1] eqn:E;
        intros [= _ <-]; apply IH in E; simpl in E; lia.
Qed.

(** The combined method stops at its first failing source. *)
Lemma nist_jobs_failure (shots : Z) (n : nat) : forall w k e,
  (k < n)%nat ->
  (forall i, (i < k)%nat ->
             exists counts,
               backend (jobs w + i) nist_circuit (shots / 4)%Z = inr counts) ->
  backend (jobs w + k) nist_circuit (shots / 4)%Z = inl e ->
  nist_jobs backend shots n w = (inl e, mkWorld (jobs w + k + 1) (ticks w)).
Proof.
  induction n as [|n IH]; intros w k e Hk Hbefore Hfail; [lia|].
  cbn [nist_jobs]. destruct k as [|k].
  - rewrite Nat.add_0_r in Hfail. rewrite Hfail. unfold after_job.
    do 2 f_equal. lia.
  - destruct (Hbefore 0%nat) as [counts Hfirst]; [lia|].
    rewrite Nat.add_0_r in Hfirst. rewrite Hfirst.
    rewrite (IH (after_job w) k e).
    + cbn [after_job jobs ticks]. do 2 f_equal. lia.
    + lia.
    + intros i Hi. cbn [after_job jobs].
      destruct (Hbefore (S i)) as [c Hc]; [lia|]. exists c.
      now replace (S (jobs w) + i)%nat with (jobs w + S i)%nat by lia.
    + cbn [after_job jobs].
      now replace (S (jobs w) + k)%nat with (jobs w + S k)%nat by lia.
Qed.

End MethodFailures.

(** The first of the jobs of the combined method: it is submitted, its
    failure is the failure of the method, and the method succeeds only if
    it is accepted. *)
Lemma nist_jobs_first backend (shots : Z) (n : nat) (w : World) :
  forall answer w',
    nist_jobs backend shots (S n) w = (answer, w') ->
    (jobs w < jobs w')%nat
    /\ (forall e,
          backend (jobs w) nist_circuit (shots / 4)%Z = inl e ->
          answer = inl e /\ w' = after_job w)
    /\ (forall sources,
          answer = inr sources ->
          exists counts,
            backend (jobs w) nist_circuit (shots / 4)%Z = inr counts).
Proof.
  intros answer w'. cbn [nist_jobs].
  destruct (backend (jobs w) nist_circuit (shots / 4)%Z) as [e|counts].
  - intros [= <- <-]. split; [cbn [after_job jobs]; lia|].
    split; [intros e' [= <-]; split; reflexivity|discriminate].
  - destruct (nist_jobs backend shots n (after_job w))
      as [[e|rest] w1] eqn:Hrest;
      intros [= <- <-]; apply nist_jobs_world in Hrest;
      cbn [after_job jobs] in Hrest;
      (split; [lia|]); (split; [discriminate|]).
    + discriminate.
    + intros _ _. now exists counts.
Qed.

(** Claim C2, as the code has it.  No method looks at the shot count: for
    every method and every qubit count of at least 1, generation with
    [shots = 0] submits its job of 0 shots to the backend and returns
    what that job gives, without raising.  When the backend rejects the
    job, the result is a failure: the dictionary whose only key is
    [error], with the method's prefix before the text of the exception,
    and the result is successful only if the backend accepted the job.
    When the backend answers a job of 0 shots with the empty Outcome Count
    Map, the result is successful with entropy 0: for Hadamard, Bell and
    GHZ with an empty Outcome Count Map and no outcome strings; for the
    NIST method with empty [raw_bits] and [processed_bits] and no Outcome
    Count Map. *)
Theorem zero_shots_result :
  forall backend method qubits w,
    In method methods ->
    (1 <= qubits)%nat ->
    exists result w',
      generate backend method qubits 0 w = (Return result, w')
      /\ (jobs w < jobs w')%nat
      /\ (forall e,
            backend (jobs w) (first_circuit method qubits) 0%Z = inl e ->
            result = [("error", VStr (failure_prefix method ++ e))]
            /\ w' = after_job w)
      /\ (has_key result "error" = false ->
          exists counts,
            backend (jobs w) (first_circuit method qubits) 0%Z = inr counts)
      /\ ((forall job circuit, backend job circuit 0%Z = inr []) ->
          has_key result "error" = false
          /\ get result "entropy" = Some (VFloat 0)
          /\ (method <> "nist" ->
              get result "counts" = Some (VCounts [])
              /\ get result "random_bits" = Some (VBits []))
          /\ (method = "nist" ->
              get result "counts" = None
              /\ get result "raw_bits" = Some (VBits [])
              /\ get result "processed_bits" = Some (VBits []))).
Proof.
  intros backend method qubits w Hin Hqubits.
  destruct (methods_cases method Hin) as [Hsingle | ->].
  - rewrite (generate_single_run backend method qubits 0 w Hsingle Hqubits).
    pose proof (single_not_nist method Hsingle) as Hnot.
    assert (Hfirst : first_circuit method qubits
                     = method_circuit method qubits).
    { unfold first_circuit.
      destruct (String.eqb_spec method "nist"); [contradiction|reflexivity]. }
    rewrite Hfirst. unfold single_run.
    destruct (backend (jobs w) (method_circuit method qubits) 0%Z)
      as [e|counts] eqn:Hjob.
    + do 2 eexists. split; [reflexivity|].
      split; [cbn [after_job jobs]; lia|].
      split; [intros e' [= <-]; split; reflexivity|].
      split; [discriminate|].
      intros Hsampler. rewrite Hsampler in Hjob. discriminate.
    + do 2 eexists. split; [reflexivity|].
      split; [cbn [after_job jobs]; lia|].
      split; [discriminate|].
      split; [intros _; now exists counts|].
      intros Hsampler. rewrite Hsampler in Hjob. injection Hjob as <-.
      split; [reflexivity|]. split; [reflexivity|].
      split; [intros _; split; reflexivity | intros ->; now elim Hnot].
  - change (generate backend "nist" qubits 0)
      with (nist_compliant_method backend 0).
    change (first_circuit "nist" qubits) with nist_circuit.
    change (failure_prefix "nist") with "NIST method failed: ".
    rewrite nist_compliant_method_run.
    destruct (nist_jobs backend 0 4 w) as [answer w'] eqn:Hjobs.
    destruct (nist_jobs_first backend 0 3 w answer w' Hjobs)
      as (Hworld & Hrejected & Haccepted).
    change (0 / 4)%Z with 0%Z in Hrejected, Haccepted.
    destruct answer as [e|sources].
    + do 2 eexists. split; [reflexivity|]. split; [exact Hworld|].
      split.
      { intros e' He'. destruct (Hrejected e' He') as [[= <-] ->].
        split; reflexivity. }
      split; [discriminate|].
      intros Hsampler. revert Hjobs. cbn [nist_jobs].
      change (0 / 4)%Z with 0%Z. rewrite !Hsampler. discriminate.
    + do 2 eexists. split; [reflexivity|]. split; [exact Hworld|].
      split.
      { intros e' He'. destruct (Hrejected e' He') as [F _]. discriminate. }
      split; [intros _; now apply (Haccepted sources)|].
      intros Hsampler. revert Hjobs. cbn [nist_jobs].
      change (0 / 4)%Z with 0%Z. rewrite !Hsampler.
      intros [= <- _].
      split; [reflexivity|]. split; [reflexivity|].
      split; [intros F; now elim F | intros _; repeat split].
Qed.

Lemma zero_shots_result_witness :
  generate rejecting_backend "ghz" 3 0 (mkWorld 0 0)
  = (Return [("error", VStr "GHZ state method failed: no shots")],
     mkWorld 1 0).
Proof.
  destruct (zero_shots_result rejecting_backend "ghz" 3 (mkWorld 0 0))
    as (result & w' & Hrun & _ & Hrejected & _).
  { simpl. auto. }
  { lia. }
  destruct (Hrejected "no shots" eq_refl) as [-> ->]. exact Hrun.
Defined.

(** The claim fails at [shots = 0] where the backend rejects a job of
    no shots: each of the four methods returns a failure.  And where the
    backend answers such a job with the empty map, the result of the
    combined method still has no Outcome Count Map. *)
Lemma zero_shots_rejected :
  generate rejecting_backend "hadamard" 1 0 (mkWorld 0 0)
  = (Return [("error", VStr "Hadamard method failed: no shots")],
     mkWorld 1 0)
  /\ generate rejecting_backend "bell" 1 0 (mkWorld 0 0)
     = (Return [("error", VStr "Bell state method failed: no shots")],
        mkWorld 1 0)
  /\ generate rejecting_backend "ghz" 1 0 (mkWorld 0 0)
     = (Return [("error", VStr "GHZ state method failed: no shots")],
        mkWorld 1 0)
  /\ generate rejecting_backend "nist" 1 0 (mkWorld 0 0)
     = (Return [("error", VStr "NIST method failed: no shots")],
        mkWorld 1 0)
  /\ exists result,
       generate zeros_backend "nist" 1 0 (mkWorld 0 0)
       = (Return result, mkWorld 4 0)
       /\ has_key result "error" = false
       /\ get result "counts" = None.
Proof.
  split; [|split; [|split; [|split]]].
  - now rewrite generate_single_run by (auto; lia).
  - now rewrite generate_single_run by (auto; lia).
  - now rewrite generate_single_run by (auto; lia).
  - change (generate rejecting_backend "nist" 1 0 (mkWorld 0 0))
      with (nist_compliant_method rejecting_backend 0 (mkWorld 0 0)).
    now rewrite nist_compliant_method_run.
  - change (generate zeros_backend "nist" 1 0 (mkWorld 0 0))
      with (nist_compliant_method zeros_backend 0 (mkWorld 0 0)).
    rewrite nist_compliant_method_run.
    eexists. split; [reflexivity|]. split; reflexivity.
Qed.

(* ================================================================== *)
(** * The benchmark                                                    *)
(* ================================================================== *)

Lemma dict_get_set_same {V} (d : list (string * V)) (k : string) (v : V) :
  dict_get String.eqb (dict_set String.eqb d k v) k = Some v.
Proof.
  induction d as [|[k' v'] d IH]; simpl.
  - now rewrite String.eqb_refl.
  - destruct (String.eqb k k') eqn:E; simpl; rewrite ?String.eqb_refl, ?E;
      [reflexivity|exact IH].
Qed.

Lemma dict_get_set_other {V} (d : list (string * V)) (k k' : string) (v : V) :
  k' <> k ->
  dict_get String.eqb (dict_set String.eqb d k v) k'
  = dict_get String.eqb d k'.
Proof.
  intros Hneq. induction d as [|[k0 v0] d IH]; simpl.
  - apply String.eqb_neq in Hneq. now rewrite Hneq.
  - destruct (String.eqb k k0) eqn:E; simpl.
    + apply String.eqb_eq in E. subst k0.
      apply String.eqb_neq in Hneq. now rewrite Hneq.
    + now rewrite IH.
Qed.

Section Benchmark.
Variable backend : nat -> Circuit -> Z -> string + CountMap.
Variable clock : nat -> R.

(** A method called by the benchmark never raises, and a result without
    the key [error] holds a float under the key [entropy]. *)
Lemma benchmark_call_total (method : string) (w : World) :
  exists result w',
    benchmark_call backend method w = (Return result, w')
    /\ (succeeded result = true ->
        exists x, get result "entropy" = Some (VFloat x)).
Proof.
  unfold benchmark_call.
  assert (Hsingle : forall name prefix circuit shots,
             exists result w',
               single_run backend name prefix circuit shots w
               = (Return result, w')
               /\ (succeeded result = true ->
                   exists x, get result "entropy" = Some (VFloat x))).
  { intros name prefix circuit shots. unfold single_run.
    destruct (backend (jobs w) circuit shots) as [e|counts];
      do 2 eexists; (split; [reflexivity|]).
    - discriminate.
    - intros _. eexists. reflexivity. }
  destruct (method =? "hadamard").
  { rewrite hadamard_method_run. apply Hsingle. }
  destruct (method =? "bell").
  { rewrite bell_state_method_run. apply Hsingle. }
  destruct (method =? "ghz").
  { rewrite ghz_state_method_run by lia. apply Hsingle. }
  rewrite nist_compliant_method_run.
  destruct (nist_jobs backend 100 4 w) as [[e|sources] w'];
    do 2 eexists; (split; [reflexivity|]).
  - discriminate.
  - intros _. eexists. reflexivity.
Qed.

(** One repetition of the inner loop. *)
Lemma benchmark_run_step (method : string) (i : nat)
      (times entropies : list R) (w : World) :
  benchmark_run backend clock method i (times, entropies) w
  = match benchmark_call backend method (tick w) with
    | (Return result, w') =>
        if succeeded result then
          match get result "entropy" with
          | Some (VFloat x) =>
              (Return (times ++ [(clock (ticks w') - clock (ticks w))%R],
                       entropies ++ [x]), tick w')
          | Some _ => (Raise "TypeError", tick w')
          | None => (Raise "KeyError: 'entropy'", tick w')
          end
        else (Return (times, entropies), tick w')
    | (Raise e, w') => (Raise e, w')
    end.
Proof.
  unfold benchmark_run, bind, time_time, succeeded, entropy_of.
  fold (tick w).
  destruct (benchmark_call backend method (tick w)) as [[result|e] w'];
    [|reflexivity].
  fold (tick w').
  destruct (negb (has_key result "error")); [|reflexivity].
  destruct (get result "entropy") as [[]|]; reflexivity.
Qed.

(** The inner loop: it never raises, it ends in the world the runs end
    in, and it appends one time and one entropy per successful run. *)
Lemma benchmark_runs (method : string) (n : nat) :
  forall (start : nat) (times entropies : list R) (w : World),
    let trace := run_results backend method n w in
    exists ts es,
      for_each (seq start n) (benchmark_run backend clock method)
               (times, entropies) w
      = (Return (times ++ ts, entropies ++ es), snd trace)
      /\ List.length ts = List.length (filter succeeded (fst trace))
      /\ List.length (fst trace) = n.
Proof.
  induction n as [|n IH]; intros start times entropies w; cbv zeta.
  - exists [], []. simpl. unfold ret. now rewrite !app_nil_r.
  - cbn [seq for_each run_results].
    unfold bind at 1. rewrite benchmark_run_step.
    destruct (benchmark_call_total method (tick w))
      as (result & w' & -> & Hfloat).
    destruct (succeeded result) eqn:Hok.
    + destruct (Hfloat eq_refl) as [x ->].
      destruct (IH (S start)
                   (times ++ [(clock (ticks w') - clock (ticks w))%R])
                   (entropies ++ [x]) (tick w'))
        as (ts & es & -> & Hlen & Htrace).
      destruct (run_results backend method n (tick w'))
        as [rest w''].
      exists ((clock (ticks w') - clock (ticks w))%R :: ts), (x :: es).
      cbn [fst snd filter] in *. rewrite Hok.
      rewrite <- !app_assoc. simpl. auto.
    + destruct (IH (S start) times entropies (tick w'))
        as (ts & es & -> & Hlen & Htrace).
      destruct (run_results backend method n (tick w'))
        as [rest w''].
      exists ts, es.
      cbn [fst snd filter] in *. rewrite Hok. simpl. auto.
Qed.

(** One turn of the outer loop: the entry of the method is set exactly
    when one of its runs succeeded. *)
Lemma benchmark_method_run (runs : Z) (method : string)
      (results : list (string * Stats)) (w : World) :
  exists results',
    benchmark_method backend clock runs method results w
    = (Return results',
       snd (run_results backend method (Z.to_nat runs) w))
    /\ (successes backend runs method w = [] -> results' = results)
    /\ (successes backend runs method w <> [] ->
        exists stats,
          results' = dict_set String.eqb results method stats
          /\ successful_runs stats
             = Z.of_nat (List.length (successes backend runs method w))).
Proof.
  unfold benchmark_method, successes. unfold bind at 1. unfold range.
  destruct (benchmark_runs method (Z.to_nat runs) 0 [] [] w)
    as (ts & es & -> & Hlen & _).
  cbn [app]. destruct ts as [|t ts].
  - eexists. split; [reflexivity|]. split; [reflexivity|].
    intros Hne. destruct (filter succeeded _); [now elim Hne|discriminate].
  - eexists. split; [reflexivity|]. split.
    + intros Hnil. rewrite Hnil in Hlen. discriminate.
    + intros _. eexists. split; [reflexivity|].
      cbn [successful_runs]. now rewrite Hlen.
Qed.

(** The outer loop over a list of distinct methods none of which has an
    entry yet. *)
Lemma benchmark_loop (runs : Z) (ms : list string) :
  forall (results : list (string * Stats)) (w : World),
    NoDup ms ->
    (forall m, In m ms -> dict_get String.eqb results m = None) ->
    exists final w',
      for_each ms (benchmark_method backend clock runs) results w
      = (Return final, w')
      /\ (forall m, ~ In m ms ->
          dict_get String.eqb final m = dict_get String.eqb results m)
      /\ (forall i m,
            nth_error ms i = Some m ->
            let ok := successes backend runs m (world_before backend runs ms i w) in
            (ok = [] -> dict_get String.eqb final m = None)
            /\ (ok <> [] ->
                exists stats,
                  dict_get String.eqb final m = Some stats
                  /\ successful_runs stats = Z.of_nat (List.length ok))).
Proof.
  induction ms as [|m0 ms IH]; intros results w Hnodup Hfresh.
  - exists results, w. split; [reflexivity|]. split; [reflexivity|].
    intros [|i] m; discriminate.
  - inversion Hnodup as [|? ? Hnotin Hnodup']; subst.
    cbn [for_each]. unfold bind at 1.
    destruct (benchmark_method_run runs m0 results w)
      as (results1 & -> & Hnone & Hsome).
    set (w1 := snd (run_results backend m0 (Z.to_nat runs) w)).
    assert (Hother : forall m, m <> m0 ->
              dict_get String.eqb results1 m = dict_get String.eqb results m).
    { intros m Hm.
      destruct (successes backend runs m0 w) eqn:E.
      - now rewrite Hnone.
      - destruct Hsome as (stats & -> & _); [discriminate|].
        now apply dict_get_set_other. }
    destruct (IH results1 w1 Hnodup') as (final & w' & -> & Hkeep & Hms).
    { intros m Hm. rewrite Hother.
      - apply Hfresh. now right.
      - intros ->. contradiction. }
    exists final, w'. split; [reflexivity|]. split.
    + intros m Hm. rewrite Hkeep by (intros F; apply Hm; now right).
      apply Hother. intros ->. apply Hm. now left.
    + intros [|i] m Hnth; cbn [nth_error world_before] in *.
      * injection Hnth as <-. rewrite (Hkeep m0 Hnotin). split.
        -- intros Hnil. rewrite (Hnone Hnil). apply Hfresh. now left.
        -- intros Hne. destruct (Hsome Hne) as (stats & -> & Hcount).
           exists stats. split; [apply dict_get_set_same|exact Hcount].
      * apply (Hms i m Hnth).
Qed.

Lemma methods_distinct : NoDup methods.
Proof.
  unfold methods. repeat constructor; simpl; intuition discriminate.
Qed.

(** What [benchmark_methods] returns, method by method. *)
Lemma benchmark_entries (runs : Z) (w : World) :
  exists results w',
    benchmark_methods backend clock runs w = (Return results, w')
    /\ (forall m, ~ In m methods -> dict_get String.eqb results m = None)
    /\ (forall i m,
          nth_error methods i = Some m ->
          let ok :=
            successes backend runs m (world_before backend runs methods i w) in
          (ok = [] -> dict_get String.eqb results m = None)
          /\ (ok <> [] ->
              exists stats,
                dict_get String.eqb results m = Some stats
                /\ successful_runs stats = Z.of_nat (List.length ok))).
Proof.
  unfold benchmark_methods.
  destruct (benchmark_loop runs methods [] w methods_distinct)
    as (results & w' & Hrun & Hkeep & Hms); [reflexivity|].
  exists results, w'. split; [exact Hrun|]. split; [|exact Hms].
  intros m Hm. now rewrite Hkeep.
Qed.

Lemma trace_length (runs : Z) (method : string) (w : World) :
  List.length (fst (run_results backend method (Z.to_nat runs) w))
  = Z.to_nat runs.
Proof.
  destruct (benchmark_runs method (Z.to_nat runs) 0 [] [] w)
    as (_ & _ & _ & _ & Hlen).
  exact Hlen.
Qed.

Lemma no_success (rs : list Result) :
  Forall (fun result => has_key result "error" = true) rs ->
  filter succeeded rs = [].
Proof.
  induction 1 as [|r rs Hr _ IH]; [reflexivity|].
  simpl. unfold succeeded at 1. now rewrite Hr.
Qed.

End Benchmark.

(** Claim C8. For every number of runs the benchmark returns a map (it
    never raises); each method makes exactly [runs] runs; a method all of
    whose runs fail, that is return a result with the key [error], has
    no entry in the map; and every entry of the map belongs to one of
    the four methods and has [successful_runs >= 1], the number of its
    successful runs. *)
Theorem benchmark_omits_failed_methods :
  forall backend clock runs w,
  exists results w',
    benchmark_methods backend clock runs w = (Return results, w')
    /\ (forall i method,
          nth_error methods i = Some method ->
          let trace :=
            fst (run_results backend method (Z.to_nat runs)
                             (world_before backend runs methods i w)) in
          List.length trace = Z.to_nat runs
          /\ (Forall (fun result => has_key result "error" = true) trace ->
              dict_get String.eqb results method = None))
    /\ (forall method stats,
          dict_get String.eqb results method = Some stats ->
          (1 <= successful_runs stats)%Z
          /\ exists i,
               nth_error methods i = Some method
               /\ successful_runs stats
                  = Z.of_nat
                      (List.length
                         (successes backend runs method
                            (world_before backend runs methods i w)))).
Proof.
  intros backend clock runs w.
  destruct (benchmark_entries backend clock runs w)
    as (results & w' & Hrun & Hkeys & Hms).
  exists results, w'. split; [exact Hrun|]. split.
  - intros i method Hnth. cbv zeta. split.
    + apply (trace_length backend clock).
    + intros Hfail. apply (Hms i method Hnth).
      unfold successes. now apply no_success.
  - intros method stats Hget.
    destruct (in_dec string_dec method methods) as [Hin|Hnotin].
    + apply In_nth_error in Hin as [i Hnth].
      destruct (Hms i method Hnth) as [Hnone Hsome].
      destruct (successes backend runs method
                          (world_before backend runs methods i w))
        as [|r ok] eqn:E.
      * rewrite Hnone in Hget by reflexivity. discriminate.
      * destruct Hsome as (stats' & Hget' & Hcount); [discriminate|].
        rewrite Hget in Hget'. injection Hget' as <-.
        split.
        -- rewrite Hcount. simpl List.length. lia.
        -- exists i. split; [exact Hnth|]. now rewrite E.
    + rewrite Hkeys in Hget by assumption. discriminate.
Qed.

Lemma benchmark_omits_failed_methods_witness :
  exists results w',
    benchmark_methods failing_backend (fun _ => 0%R) 2 (mkWorld 0 0)
    = (Return results, w')
    /\ dict_get String.eqb results "bell" = None.
Proof.
  destruct (benchmark_omits_failed_methods
              failing_backend (fun _ => 0%R) 2 (mkWorld 0 0))
    as (results & w' & Hrun & Hfail & _).
  exists results, w'. split; [exact Hrun|].
  apply (Hfail 1%nat "bell" eq_refl).
  vm_compute. repeat constructor.
Defined.

(* ================================================================== *)
(** * Bell and GHZ outcomes in the ideal simulation                    *)
(* ================================================================== *)

Section Bits.
Local Open Scope N_scope.

Lemma bit_flip (q t : nat) (k : N) :
  bit q (flip t k) = xorb (bit q k) (Nat.eqb t q).
Proof.
  unfold bit, flip. rewrite N.lxor_spec, N.shiftl_1_l, N.pow2_bits_eqb.
  f_equal. destruct (Nat.eqb_spec t q) as [->|Hneq].
  - apply N.eqb_refl.
  - apply N.eqb_neq. lia.
Qed.

Lemma flip_involutive (q : nat) (k : N) : flip q (flip q k) = k.
Proof.
  unfold flip. now rewrite N.lxor_assoc, N.lxor_nilpotent, N.lxor_0_r.
Qed.

Lemma flip_swap (q : nat) (k k' : N) : flip q k = k' <-> k = flip q k'.
Proof.
  split; intros H.
  - now rewrite <- H, flip_involutive.
  - now rewrite H, flip_involutive.
Qed.

Lemma bit_zero (q : nat) : bit q 0 = false.
Proof. apply N.bits_0. Qed.

Lemma bit_ones (q n : nat) : bit q (N.ones (N.of_nat n)) = (q <? n)%nat.
Proof.
  unfold bit. destruct (Nat.ltb_spec q n) as [Hlt|Hge].
  - apply N.ones_spec_low. lia.
  - apply N.ones_spec_high. lia.
Qed.

Lemma flip_ones (j : nat) :
  flip j (N.ones (N.of_nat j)) = N.ones (N.of_nat (S j)).
Proof.
  apply N.bits_inj. intros m.
  unfold flip. rewrite N.lxor_spec, N.shiftl_1_l, N.pow2_bits_eqb.
  destruct (N.lt_trichotomy m (N.of_nat j)) as [Hlt | [-> | Hgt]].
  - rewrite !N.ones_spec_low by lia.
    replace (N.of_nat j =? m) with false by (symmetry; apply N.eqb_neq; lia).
    reflexivity.
  - rewrite N.ones_spec_high by lia. rewrite N.ones_spec_low by lia.
    now rewrite N.eqb_refl.
  - rewrite !N.ones_spec_high by lia.
    replace (N.of_nat j =? m) with false by (symmetry; apply N.eqb_neq; lia).
    reflexivity.
Qed.

Lemma flip_zero_not_odd (j : nat) (k : N) :
  (1 <= j)%nat -> bit 0 k = true -> flip j k <> 0.
Proof.
  intros Hj Hbit Hflip. apply flip_swap in Hflip. subst k.
  rewrite bit_flip, bit_zero in Hbit.
  destruct (Nat.eqb_spec j 0); [lia|discriminate].
Qed.

End Bits.

Section GHZ.
Local Open Scope R_scope.

Lemma sqrt2_squared : / sqrt 2 * / sqrt 2 = / 2.
Proof.
  rewrite <- Rinv_mult. now rewrite sqrt_sqrt by lra.
Qed.

Lemma ghz_state_zero (n : nat) : ghz_state n 0%N = Chalf.
Proof. reflexivity. Qed.

Lemma ghz_state_ones (n : nat) : ghz_state n (N.ones (N.of_nat n)) = Chalf.
Proof.
  unfold ghz_state. now rewrite N.eqb_refl, orb_true_r.
Qed.

Lemma ghz_state_other (n : nat) (k : N) :
  k <> 0%N -> k <> N.ones (N.of_nat n) -> ghz_state n k = Czero.
Proof.
  intros H0 H1. unfold ghz_state.
  apply N.eqb_neq in H0, H1. now rewrite H0, H1.
Qed.

(** A Hadamard gate on qubit 0 of the initial state. *)
Lemma hadamard_on_initial (n : nat) (k : N) :
  apply (initialize n) (H 0) k = ghz_state 1 k.
Proof.
  unfold apply, initialize.
  change (N.ones (N.of_nat 1)) with 1%N in *.
  destruct (bit 0 k) eqn:Hbit.
  - assert (Hk : k <> 0%N) by (intros ->; discriminate).
    apply N.eqb_neq in Hk. rewrite Hk.
    destruct (N.eq_dec k 1) as [->|H1].
    + unfold ghz_state, Chalf, Cscale, Cminus, Cone, Czero. simpl.
      f_equal; lra.
    + assert (Hf : flip 0 k <> 0%N).
      { intros Hf. apply flip_swap in Hf. now subst k. }
      apply N.eqb_neq in Hf. rewrite Hf.
      rewrite ghz_state_other; [|now apply N.eqb_neq|exact H1].
      unfold Cscale, Cminus, Czero. simpl. f_equal; lra.
  - assert (Hf : flip 0 k <> 0%N).
    { intros Hf. apply flip_swap in Hf. subst k. discriminate. }
    apply N.eqb_neq in Hf. rewrite Hf.
    destruct (N.eq_dec k 0) as [->|H0].
    + unfold ghz_state, Chalf, Cscale, Cplus, Cone, Czero. simpl.
      f_equal; lra.
    + assert (H1 : k <> 1%N) by (intros ->; discriminate).
      rewrite ghz_state_other by assumption.
      apply N.eqb_neq in H0. rewrite H0.
      unfold Cscale, Cplus, Czero. simpl. f_equal; lra.
Qed.

(** A controlled-NOT from qubit 0 onto the next qubit extends the
    entangled state by one qubit. *)
Lemma cx_extends_ghz (j : nat) (st : State) :
  (1 <= j)%nat ->
  (forall k, st k = ghz_state j k) ->
  forall k, apply st (CX 0 j) k = ghz_state (S j) k.
Proof.
  intros Hj Hst k. unfold apply. rewrite !Hst.
  destruct (bit 0 k) eqn:Hbit.
  - assert (Hk : k <> 0%N) by (intros ->; discriminate).
    pose proof (flip_zero_not_odd j k Hj Hbit) as Hf.
    destruct (N.eq_dec k (N.ones (N.of_nat (S j)))) as [->|Hones].
    + rewrite ghz_state_ones. rewrite <- flip_ones, flip_involutive.
      apply ghz_state_ones.
    + rewrite (ghz_state_other (S j)) by assumption.
      apply ghz_state_other; [exact Hf|].
      intros Hflip. apply flip_swap in Hflip.
      rewrite flip_ones in Hflip. contradiction.
  - assert (H1 : forall m, (1 <= m)%nat -> k <> N.ones (N.of_nat m)).
    { intros m Hm ->. rewrite bit_ones in Hbit.
      destruct (Nat.ltb_spec 0 m); [discriminate|lia]. }
    destruct (N.eq_dec k 0) as [->|H0].
    + now rewrite !ghz_state_zero.
    + rewrite !ghz_state_other; auto; apply H1; lia.
Qed.

Lemma cx_chain (m : nat) : forall (j : nat) (st : State),
  (1 <= j)%nat ->
  (forall k, st k = ghz_state j k) ->
  forall k,
    fold_left apply (map (CX 0) (seq j m)) st k = ghz_state (j + m) k.
Proof.
  induction m as [|m IH]; intros j st Hj Hst k.
  - simpl. rewrite Nat.add_0_r. apply Hst.
  - cbn [seq map fold_left]. rewrite (IH (S j)).
    + f_equal. lia.
    + lia.
    + now apply cx_extends_ghz.
Qed.

(** The GHZ circuit on [n >= 1] qubits leaves the register in the GHZ
    state. *)
Lemma evolve_ghz (n : nat) (k : N) :
  (1 <= n)%nat -> evolve (ghz_circuit n) k = ghz_state n k.
Proof.
  intros Hn. unfold evolve, ghz_circuit, range2.
  cbn [gates num_qubits fold_left].
  rewrite (cx_chain (n - 1) 1).
  - f_equal. lia.
  - lia.
  - apply hadamard_on_initial.
Qed.

Lemma probability_ghz (n : nat) (k : N) :
  (1 <= n)%nat ->
  probability (evolve (ghz_circuit n)) k
  = if ((k =? 0) || (k =? N.ones (N.of_nat n)))%N then / 2 else 0.
Proof.
  intros Hn. unfold probability. rewrite evolve_ghz by assumption.
  unfold ghz_state.
  destruct ((k =? 0) || (k =? N.ones (N.of_nat n)))%N.
  - unfold Cnorm2, Chalf. simpl. rewrite sqrt2_squared. lra.
  - unfold Cnorm2, Czero. simpl. lra.
Qed.

End GHZ.

Section Sampler.
Local Open Scope R_scope.

(** Outcomes of probability 0 are passed over. *)
Lemma pick_skip (st : State) (u : R) (m : nat) :
  forall (k : N) (acc : R) (rest : nat),
    (forall j, (k <= j < k + N.of_nat m)%N -> probability st j = 0) ->
    ~ u < acc ->
    pick st u acc k (m + rest) = pick st u acc (k + N.of_nat m)%N rest.
Proof.
  induction m as [|m IH]; intros k acc rest Hzero Hacc.
  - simpl. now rewrite N.add_0_r.
  - cbn [Nat.add pick]. cbv zeta.
    rewrite Hzero by lia. rewrite Rplus_0_r.
    destruct (Rlt_dec u acc) as [F|_]; [contradiction|].
    rewrite IH; [f_equal; lia| |assumption].
    intros j Hj. apply Hzero. lia.
Qed.

Lemma pow2_ge_2 (n : nat) : (1 <= n)%nat -> (2 <= 2 ^ n)%nat.
Proof.
  intros Hn. destruct n as [|n]; [lia|].
  rewrite Nat.pow_succ_r'. pose proof (Nat.pow_nonzero 2 n). lia.
Qed.

Lemma ones_of_pow2 (n : nat) :
  N.ones (N.of_nat n) = N.of_nat (2 ^ n - 1).
Proof.
  rewrite N.ones_equiv, Nat2N.inj_sub, Nat2N.inj_pow. simpl N.of_nat. lia.
Qed.

(** One shot on the GHZ state gives the all-zeros or the all-ones
    outcome. *)
Lemma draw_ghz (n : nat) (u : R) :
  (1 <= n)%nat -> u < 1 ->
  draw n (evolve (ghz_circuit n)) u = Some 0%N
  \/ draw n (evolve (ghz_circuit n)) u = Some (N.ones (N.of_nat n)).
Proof.
  intros Hn Hu. unfold draw. pose proof (pow2_ge_2 n Hn) as Hpow.
  replace (2 ^ n)%nat with (S ((2 ^ n - 2) + 1)) by lia.
  cbn [pick]. cbv zeta. rewrite probability_ghz by assumption.
  cbn [N.eqb orb].
  destruct (Rlt_dec u (0 + / 2)) as [_|Hhalf]; [now left|right].
  rewrite pick_skip; [| |exact Hhalf].
  - replace (N.succ 0 + N.of_nat (2 ^ n - 2))%N
      with (N.ones (N.of_nat n)) by (rewrite ones_of_pow2; lia).
    cbn [pick]. cbv zeta. rewrite probability_ghz by assumption.
    rewrite N.eqb_refl, orb_true_r.
    destruct (Rlt_dec u (0 + / 2 + / 2)) as [_|F]; [reflexivity|].
    elim F. lra.
  - intros j Hj. rewrite probability_ghz by assumption.
    replace (j =? 0)%N with false by (symmetry; apply N.eqb_neq; lia).
    replace (j =? N.ones (N.of_nat n))%N with false; [reflexivity|].
    symmetry. apply N.eqb_neq. rewrite ones_of_pow2. lia.
Qed.

End Sampler.

Section Outcomes.

Lemma combine_diagonal (l : list nat) :
  combine l l = map (fun i => (i, i)) l.
Proof. induction l as [|i l IH]; simpl; congruence. Qed.

Lemma find_diagonal (l : list nat) (b : nat) :
  In b l ->
  find (fun m : nat * nat => (snd m =? b)%nat) (map (fun i => (i, i)) l)
  = Some (b, b).
Proof.
  induction l as [|i l IH]; intros Hin; [contradiction|]. simpl.
  destruct (Nat.eqb_spec i b) as [->|Hneq]; [reflexivity|].
  apply IH. destruct Hin; [contradiction|assumption].
Qed.

(** In the GHZ circuit classical bit [b] holds qubit [b]. *)
Lemma clbit_ghz (n : nat) (k : N) (b : nat) :
  (b < n)%nat -> clbit (ghz_circuit n) k b = bit b k.
Proof.
  intros Hb. unfold clbit, ghz_circuit. cbn [measured].
  rewrite combine_diagonal, <- map_rev, find_diagonal; [reflexivity|].
  apply in_rev. rewrite rev_involutive. apply in_seq. lia.
Qed.

Lemma render_constant (f : nat -> bool) (v : bool) (n : nat) :
  (forall b, (b < n)%nat -> f b = v) ->
  render f n = constant_string (if v then "1"%char else "0"%char) n.
Proof.
  induction n as [|n IH]; intros Hf; [reflexivity|]. simpl.
  rewrite Hf by lia. rewrite IH; [reflexivity|].
  intros b Hb. apply Hf. lia.
Qed.

Lemma outcome_string_zeros (n : nat) :
  outcome_string (ghz_circuit n) 0%N = constant_string "0" n.
Proof.
  unfold outcome_string. cbn [ghz_circuit num_clbits].
  apply (render_constant _ false). intros b Hb.
  rewrite clbit_ghz by assumption. apply bit_zero.
Qed.

Lemma outcome_string_ones (n : nat) :
  outcome_string (ghz_circuit n) (N.ones (N.of_nat n))
  = constant_string "1" n.
Proof.
  unfold outcome_string. cbn [ghz_circuit num_clbits].
  apply (render_constant _ true). intros b Hb.
  rewrite clbit_ghz, bit_ones by assumption. now apply Nat.ltb_lt.
Qed.

Lemma keys_dict_set (counts : CountMap) (outcome : string) (v : Z) :
  forall key,
    In key (keys (dict_set String.eqb counts outcome v)) ->
    key = outcome \/ In key (keys counts).
Proof.
  unfold keys. induction counts as [|[k' v'] counts IH]; intros key; simpl.
  - intros [<-|[]]. now left.
  - destruct (String.eqb outcome k'); simpl.
    + intros [<-|Hin]; auto.
    + intros [<-|Hin]; auto. destruct (IH key Hin); auto.
Qed.

Lemma keys_record_outcome (counts : CountMap) (outcome key : string) :
  In key (keys (record_outcome counts outcome)) ->
  key = outcome \/ In key (keys counts).
Proof.
  unfold record_outcome.
  destruct (dict_get String.eqb counts outcome); apply keys_dict_set.
Qed.

Lemma flattened_keys (P : string -> Prop) (counts : CountMap) :
  Forall P (keys counts) -> Forall P (flattened counts).
Proof.
  unfold keys, flattened. induction counts as [|[k v] counts IH]; simpl.
  - constructor.
  - intros Hall. inversion Hall as [|? ? Hk Hrest]; subst.
    apply Forall_app. split; [|now apply IH].
    apply Forall_forall. intros s Hs. apply repeat_spec in Hs. now subst.
Qed.

Variable uniform : nat -> nat -> R.
Hypothesis uniform_range : forall job shot, (0 <= uniform job shot < 1)%R.

(** The outcomes counted by the ideal backend on the GHZ circuit. *)
Lemma ideal_ghz_samples (n : nat) (job : nat) :
  (1 <= n)%nat ->
  let allowed outcome :=
    outcome = constant_string "0" n \/ outcome = constant_string "1" n in
  forall (shots : list nat) (counts : CountMap),
    Forall allowed (keys counts) ->
    exists counts',
      fold_left (sample_step uniform (ghz_circuit n)
                             (evolve (ghz_circuit n)) job)
                shots (inr counts)
      = inr counts'
      /\ Forall allowed (keys counts').
Proof.
  intros Hn allowed shots.
  induction shots as [|shot shots IH]; intros counts Hkeys.
  - exists counts. split; [reflexivity|assumption].
  - cbn [fold_left sample_step]. cbn [ghz_circuit num_qubits].
    fold (ghz_circuit n).
    assert (Hnew : forall k,
               k = 0%N \/ k = N.ones (N.of_nat n) ->
               Forall allowed
                 (keys (record_outcome counts
                          (outcome_string (ghz_circuit n) k)))).
    { intros k Hk. apply Forall_forall. intros key Hkey.
      apply keys_record_outcome in Hkey as [->|Hin].
      - destruct Hk as [-> | ->].
        + left. apply outcome_string_zeros.
        + right. apply outcome_string_ones.
      - rewrite Forall_forall in Hkeys. now apply Hkeys. }
    destruct (draw_ghz n (uniform job shot) Hn
                       (proj2 (uniform_range job shot))) as [-> | ->];
      apply IH, Hnew; auto.
Qed.

Lemma ideal_backend_ghz (n : nat) (job : nat) (shots : Z) :
  (1 <= n)%nat ->
  exists counts,
    ideal_backend uniform job (ghz_circuit n) shots = inr counts
    /\ Forall (fun outcome =>
                 outcome = constant_string "0" n
                 \/ outcome = constant_string "1" n) (keys counts).
Proof.
  intros Hn. unfold ideal_backend.
  apply (ideal_ghz_samples n job Hn). constructor.
Qed.

End Outcomes.

(** Claim C7.  In the ideal noiseless simulation (the state vector engine
    and the sampler of the specification, with every uniform draw in
    [0, 1)) the Bell method succeeds and every outcome it samples is "00"
    or "11", never "01" or "10"; for every n >= 1 the GHZ method on n
    qubits succeeds and every outcome it samples is the all-zeros or the
    all-ones string of n bits. *)
Theorem entangled_outcomes :
  forall (uniform : nat -> nat -> R) (shots : Z) (w : World),
    (forall job shot, (0 <= uniform job shot < 1)%R) ->
    (exists counts,
       bell_state_method (ideal_backend uniform) shots w
       = (Return (single_result "Bell_State" bell_circuit counts),
          after_job w)
       /\ Forall (fun outcome => outcome = "00" \/ outcome = "11")
                 (keys counts)
       /\ Forall (fun outcome => outcome = "00" \/ outcome = "11")
                 (flattened counts)
       /\ ~ In "01" (keys counts) /\ ~ In "10" (keys counts))
    /\ (forall n,
          (1 <= n)%nat ->
          exists counts,
            ghz_state_method (ideal_backend uniform) n shots w
            = (Return (single_result "GHZ_State" (ghz_circuit n) counts),
               after_job w)
            /\ Forall (fun outcome =>
                         outcome = constant_string "0" n
                         \/ outcome = constant_string "1" n)
                      (keys counts)
            /\ Forall (fun outcome =>
                         outcome = constant_string "0" n
                         \/ outcome = constant_string "1" n)
                      (flattened counts)).
Proof.
  intros uniform shots w Hu. split.
  - rewrite bell_state_method_run. unfold single_run.
    destruct (ideal_backend_ghz uniform Hu 2 (jobs w) shots)
      as (counts & Hrun & Hkeys); [lia|].
    change (ghz_circuit 2) with bell_circuit in Hrun. rewrite Hrun.
    exists counts. split; [reflexivity|].
    split; [exact Hkeys|]. split; [now apply flattened_keys|].
    rewrite Forall_forall in Hkeys.
    split; intros Hin; destruct (Hkeys _ Hin); discriminate.
  - intros n Hn. rewrite ghz_state_method_run by assumption.
    unfold single_run.
    destruct (ideal_backend_ghz uniform Hu n (jobs w) shots Hn)
      as (counts & -> & Hkeys).
    exists counts. split; [reflexivity|].
    split; [exact Hkeys|now apply flattened_keys].
Qed.

Lemma entangled_outcomes_witness :
  exists counts,
    ghz_state_method (ideal_backend (fun _ _ => 0%R)) 3 5 (mkWorld 0 0)
    = (Return (single_result "GHZ_State" (ghz_circuit 3) counts),
       mkWorld 1 0)
    /\ Forall (fun outcome => outcome = "000" \/ outcome = "111")
              (keys counts).
Proof.
  destruct (entangled_outcomes (fun _ _ => 0%R) 5 (mkWorld 0 0))
    as [_ Hghz].
  { intros _ _. split; [apply Rle_refl|apply Rlt_0_1]. }
  destruct (Hghz 3%nat) as (counts & Hrun & Hkeys & _); [lia|].
  exists counts. split; [exact Hrun|exact Hkeys].
Defined.

(* ================================================================== *)
(** * Further properties of the post-processor                         *)
(* ================================================================== *)

Section ExtractorOutput.

Lemma contribution_binary (bit_pair : string) :
  Forall (fun bit => bit = "0" \/ bit = "1") (contribution bit_pair)
  /\ (List.length (contribution bit_pair) <= 1)%nat.
Proof.
  unfold contribution.
  destruct (String.eqb bit_pair "01");
    [|destruct (String.eqb bit_pair "10")];
    (split; [|simpl; lia]).
  - constructor; [now left|constructor].
  - constructor; [now right|constructor].
  - constructor.
Qed.

Lemma extractor_output (bits : list string) :
  Forall (fun bit => bit = "0" \/ bit = "1") (_von_neumann_extractor bits)
  /\ List.length (_von_neumann_extractor bits)
     = (count_occ string_dec bits "01" + count_occ string_dec bits "10")%nat.
Proof.
  rewrite extractor_flat_map.
  induction bits as [|b bits [IHall IHlen]]; [split; [constructor|reflexivity]|].
  cbn [flat_map]. split.
  - apply Forall_app. split; [apply contribution_binary|exact IHall].
  - rewrite length_app, IHlen. cbn [count_occ]. unfold contribution.
    destruct (String.eqb_spec b "01") as [->|H01].
    + simpl. lia.
    + destruct (String.eqb_spec b "10") as [->|H10].
      * simpl. lia.
      * destruct (string_dec b "01"); [contradiction|].
        destruct (string_dec b "10"); [contradiction|]. simpl. lia.
Qed.

Lemma count_pairs_bound (bits : list string) :
  (count_occ string_dec bits "01" + count_occ string_dec bits "10"
   <= List.length bits)%nat.
Proof.
  induction bits as [|b bits IH]; [simpl; lia|]. cbn [count_occ List.length].
  destruct (string_dec b "01") as [E1|]; destruct (string_dec b "10") as [E2|];
    try (rewrite E1 in E2; discriminate); lia.
Qed.

(** Property X1. Every element of the extractor's output is the string
    "0" or the string "1"; the output has one element per "01" or "10" of
    the input, so it is never longer than the input. *)
Theorem extractor_output_bits :
  forall bits,
    Forall (fun bit => bit = "0" \/ bit = "1") (_von_neumann_extractor bits)
    /\ List.length (_von_neumann_extractor bits)
       = (count_occ string_dec bits "01" + count_occ string_dec bits "10")%nat
    /\ (List.length (_von_neumann_extractor bits) <= List.length bits)%nat.
Proof.
  intros bits. destruct (extractor_output bits) as [Hall Hlen].
  split; [exact Hall|]. split; [exact Hlen|].
  rewrite Hlen. apply count_pairs_bound.
Qed.

Lemma extractor_app (bits1 bits2 : list string) :
  _von_neumann_extractor (bits1 ++ bits2)
  = _von_neumann_extractor bits1 ++ _von_neumann_extractor bits2.
Proof. rewrite !extractor_flat_map. apply flat_map_app. Qed.

(** Property X2. The extractor works element by element: the output for
    a concatenation of inputs is the concatenation of the outputs, for
    two lists and for any list of lists; and every output element having
    length 1, running the extractor on its own output gives nothing. *)
Theorem extractor_composition :
  (forall bits1 bits2,
     _von_neumann_extractor (bits1 ++ bits2)
     = _von_neumann_extractor bits1 ++ _von_neumann_extractor bits2)
  /\ (forall chunks : list (list string),
        _von_neumann_extractor (List.concat chunks)
        = List.concat (map _von_neumann_extractor chunks))
  /\ (forall bits,
        _von_neumann_extractor (_von_neumann_extractor bits) = []).
Proof.
  split; [exact extractor_app|]. split.
  - induction chunks as [|chunk chunks IH]; [reflexivity|].
    cbn [List.concat map]. now rewrite extractor_app, IH.
  - intros bits. destruct (extractor_output bits) as [Hall _].
    induction Hall as [|bit output [-> | ->] _ IH]; [reflexivity| |];
      change (?b :: output) with ([b] ++ output);
      now rewrite extractor_app, IH.
Qed.

End ExtractorOutput.

Section EntropyInvariance.
Local Open Scope R_scope.

Lemma entropy_step_as_term (T : Z) (entropy : R) (count : Z) :
  entropy_step T entropy count = entropy - entropy_term T count.
Proof.
  unfold entropy_step, entropy_term. cbv zeta.
  destruct (Rlt_dec 0 (IZR count / IZR T)); lra.
Qed.

(** The loop of [_calculate_entropy], for any total. *)
Lemma entropy_fold (T : Z) (counts : list Z) : forall entropy,
  fold_left (entropy_step T) counts entropy
  = entropy - Rsum (map (entropy_term T) counts).
Proof.
  induction counts as [|c counts IH]; intros entropy; simpl.
  - lra.
  - rewrite IH, entropy_step_as_term. unfold Rsum. lra.
Qed.

Lemma entropy_as_sum (counts : CountMap) :
  _calculate_entropy counts
  = if (sum (values counts) =? 0)%Z then 0
    else - Rsum (map (entropy_term (sum (values counts))) (values counts)).
Proof.
  unfold _calculate_entropy. cbv zeta.
  destruct (sum (values counts) =? 0)%Z; [reflexivity|].
  rewrite entropy_fold. lra.
Qed.

Lemma sum_permutation (xs ys : list Z) :
  Permutation xs ys -> sum xs = sum ys.
Proof.
  induction 1 as [|x xs ys _ IH|x y xs|xs ys zs _ IH1 _ IH2].
  - reflexivity.
  - rewrite !sum_cons. lia.
  - rewrite !sum_cons. lia.
  - congruence.
Qed.

Lemma Rsum_permutation (xs ys : list R) :
  Permutation xs ys -> Rsum xs = Rsum ys.
Proof.
  unfold Rsum.
  induction 1 as [|x xs ys _ IH|x y xs|xs ys zs _ IH1 _ IH2]; simpl.
  - reflexivity.
  - lra.
  - lra.
  - congruence.
Qed.

(** Property X3. Over the reals, that is with the quotients, the
    logarithms and the sum of the loop taken exactly, the entropy of an
    Outcome Count Map does not depend on the order of its entries.  (The
    doubles the code adds up round differently in another order.) *)
Theorem calculate_entropy_order :
  forall counts counts' : CountMap,
    Permutation counts counts' ->
    _calculate_entropy counts = _calculate_entropy counts'.
Proof.
  intros counts counts' Hperm.
  assert (Hvalues : Permutation (values counts) (values counts'))
    by (unfold values; now apply Permutation_map).
  rewrite !entropy_as_sum, <- (sum_permutation _ _ Hvalues).
  destruct (sum (values counts) =? 0)%Z; [reflexivity|].
  f_equal. apply Rsum_permutation. now apply Permutation_map.
Qed.

Lemma calculate_entropy_order_witness :
  _calculate_entropy [("00", 1%Z); ("11", 3%Z); ("01", 2%Z)]
  = _calculate_entropy [("11", 3%Z); ("01", 2%Z); ("00", 1%Z)].
Proof.
  apply calculate_entropy_order.
  apply Permutation_cons_append with (l := [("11", 3%Z); ("01", 2%Z)]).
Defined.

Lemma entropy_term_zero (T : Z) : entropy_term T 0 = 0.
Proof.
  unfold entropy_term. cbv zeta.
  destruct (Rlt_dec 0 (IZR 0 / IZR T)) as [Hp|_]; [|reflexivity].
  exfalso. unfold Rdiv in Hp. rewrite Rmult_0_l in Hp. lra.
Qed.

(** Property X4. Entries whose count is 0 do not matter: the entropy of
    a map is that of the map without them. *)
Theorem calculate_entropy_zero_counts :
  forall counts : CountMap,
    _calculate_entropy (without_zero_counts counts)
    = _calculate_entropy counts.
Proof.
  intros counts. rewrite !entropy_as_sum.
  assert (Hsum : sum (values (without_zero_counts counts))
                 = sum (values counts)).
  { unfold without_zero_counts, values.
    induction counts as [|[k c] counts IH]; [reflexivity|]. simpl.
    destruct (Z.eqb_spec c 0) as [->|_]; simpl; rewrite !sum_cons; lia. }
  rewrite Hsum. destruct (sum (values counts) =? 0)%Z; [reflexivity|].
  f_equal. clear Hsum. generalize (sum (values counts)). intros T.
  unfold without_zero_counts, values.
  induction counts as [|[k c] counts IH]; [reflexivity|]. simpl.
  destruct (Z.eqb_spec c 0) as [->|_]; simpl.
  - rewrite entropy_term_zero. unfold Rsum in *. lra.
  - unfold Rsum in *. lra.
Qed.

Lemma sum_scaled (m : Z) (counts : CountMap) :
  sum (values (scaled m counts)) = (m * sum (values counts))%Z.
Proof.
  unfold scaled, values.
  induction counts as [|[k c] counts IH]; simpl.
  - unfold sum. simpl. lia.
  - rewrite !sum_cons, IH. lia.
Qed.

Lemma entropy_term_scaled (m T count : Z) :
  m <> 0%Z -> T <> 0%Z ->
  entropy_term (m * T) (m * count) = entropy_term T count.
Proof.
  intros Hm HT. unfold entropy_term. cbv zeta.
  assert (IZR m <> 0) by (now apply not_0_IZR).
  assert (IZR T <> 0) by (now apply not_0_IZR).
  replace (IZR (m * count) / IZR (m * T)) with (IZR count / IZR T).
  - reflexivity.
  - rewrite !mult_IZR. field. split; assumption.
Qed.

(** Property X5. The entropy depends only on the frequencies: multiplying
    every count of a map by the same nonzero integer leaves it
    unchanged. *)
Theorem calculate_entropy_scale :
  forall (counts : CountMap) (m : Z),
    m <> 0%Z ->
    _calculate_entropy (scaled m counts) = _calculate_entropy counts.
Proof.
  intros counts m Hm. rewrite !entropy_as_sum, sum_scaled.
  destruct (Z.eqb_spec (sum (values counts)) 0) as [->|HT].
  - now rewrite Z.mul_0_r.
  - destruct (Z.eqb_spec (m * sum (values counts)) 0) as [E|_]; [lia|].
    f_equal. generalize dependent (sum (values counts)). intros T HT.
    unfold scaled, values. rewrite !map_map. simpl.
    induction counts as [|[k c] counts IH]; [reflexivity|].
    cbn [map Rsum fold_right] in *. unfold Rsum in *.
    rewrite IH, entropy_term_scaled by assumption. reflexivity.
Qed.

Lemma calculate_entropy_scale_witness :
  _calculate_entropy [("0", 6%Z); ("1", 2%Z)]
  = _calculate_entropy [("0", 3%Z); ("1", 1%Z)].
Proof.
  apply (calculate_entropy_scale [("0", 3%Z); ("1", 1%Z)] 2).
  discriminate.
Defined.

End EntropyInvariance.

Section EntropyValues.
Local Open Scope R_scope.

Lemma values_uniform (counts : CountMap) (c : Z) :
  Forall (fun item => snd item = c) counts ->
  values counts = repeat c (List.length counts).
Proof.
  unfold values. induction 1 as [|item counts Hitem _ IH]; simpl.
  - reflexivity.
  - now rewrite Hitem, IH.
Qed.

Lemma sum_repeat (c : Z) (k : nat) : sum (repeat c k) = (Z.of_nat k * c)%Z.
Proof.
  induction k as [|k IH].
  - reflexivity.
  - cbn [repeat]. rewrite sum_cons, IH. lia.
Qed.

Lemma Rsum_repeat (f : Z -> R) (c : Z) (k : nat) :
  Rsum (map f (repeat c k)) = INR k * f c.
Proof.
  induction k as [|k IH].
  - simpl. lra.
  - cbn [repeat map]. rewrite S_INR. unfold Rsum in *. simpl. rewrite IH. lra.
Qed.

Lemma log2_inv (x : R) : 0 < x -> log2 (/ x) = - log2 x.
Proof.
  intros Hx. unfold log2. rewrite ln_Rinv by assumption.
  pose proof ln_2_pos. field. lra.
Qed.

(** Property X6. On a uniform map, k >= 1 outcomes all counted the same
    positive number of times, the entropy is exactly log2 k: the upper
    bound of the entropy is attained. *)
Theorem calculate_entropy_uniform :
  forall (counts : CountMap) (c : Z),
    (0 < c)%Z ->
    counts <> [] ->
    Forall (fun item => snd item = c) counts ->
    _calculate_entropy counts = log2 (INR (List.length counts)).
Proof.
  intros counts c Hc Hne Hall.
  assert (Hk : (1 <= List.length counts)%nat)
    by (destruct counts; [now elim Hne|simpl; lia]).
  set (k := List.length counts) in *.
  rewrite entropy_as_sum, (values_uniform counts c Hall), sum_repeat.
  fold k. destruct (Z.eqb_spec (Z.of_nat k * c) 0) as [E|_]; [nia|].
  rewrite Rsum_repeat. unfold entropy_term. cbv zeta.
  assert (HK : 0 < INR k) by (apply lt_0_INR; lia).
  assert (HC : 0 < IZR c) by (now apply IZR_lt).
  replace (IZR c / IZR (Z.of_nat k * c)) with (/ INR k).
  - destruct (Rlt_dec 0 (/ INR k)) as [_|F].
    + rewrite log2_inv by assumption. field. lra.
    + elim F. now apply Rinv_0_lt_compat.
  - rewrite mult_IZR, <- INR_IZR_INZ. field. split; lra.
Qed.

Lemma calculate_entropy_uniform_witness :
  _calculate_entropy [("00", 5%Z); ("01", 5%Z); ("10", 5%Z); ("11", 5%Z)]
  = log2 (INR 4).
Proof.
  apply (calculate_entropy_uniform
           [("00", 5%Z); ("01", 5%Z); ("10", 5%Z); ("11", 5%Z)] 5).
  - lia.
  - discriminate.
  - repeat constructor.
Defined.

Lemma symbol_stream_join (bits : list string) :
  symbol_stream [join bits] = symbol_stream bits.
Proof.
  unfold symbol_stream at 1. cbn [flat_map].
  now rewrite app_nil_r, join_symbol_stream.
Qed.

Lemma bit_entropy_stream (bits bits' : list string) :
  symbol_stream bits = symbol_stream bits' ->
  _calculate_bit_entropy bits = _calculate_bit_entropy bits'.
Proof.
  intros Hstream. rewrite !bit_entropy_value. cbv zeta.
  now rewrite Hstream.
Qed.

(** Property X7. The bit-sequence entropy depends only on the
    concatenation of its input: two lists with the same concatenated
    characters have the same entropy, and the entropy of a list is that
    of the one-element list holding its joined string. *)
Theorem calculate_bit_entropy_stream :
  forall bits bits' : list string,
    symbol_stream bits = symbol_stream bits' ->
    _calculate_bit_entropy bits = _calculate_bit_entropy bits'
    /\ _calculate_bit_entropy bits = _calculate_bit_entropy [join bits].
Proof.
  intros bits bits' Hstream. split.
  - now apply bit_entropy_stream.
  - apply bit_entropy_stream. symmetry. apply symbol_stream_join.
Qed.

Lemma calculate_bit_entropy_stream_witness :
  _calculate_bit_entropy ["01"; "1"; ""; "10"]
  = _calculate_bit_entropy ["0"; "1110"]
  /\ _calculate_bit_entropy ["01"; "1"; ""; "10"]
     = _calculate_bit_entropy ["01110"].
Proof.
  exact (calculate_bit_entropy_stream
           ["01"; "1"; ""; "10"] ["0"; "1110"] eq_refl).
Defined.

Lemma log2_half : log2 (/ 2) = -1.
Proof. rewrite log2_inv by lra. rewrite log2_2. reflexivity. Qed.

(** The entropy of a binary stream in terms of its two symbol counts. *)
Lemma bit_entropy_binary (bits : list string) :
  Forall binary_string bits ->
  let n0 := occurrences "0" (symbol_stream bits) in
  let n1 := occurrences "1" (symbol_stream bits) in
  _calculate_bit_entropy bits
  = if (n0 + n1 =? 0)%Z then 0
    else - (entropy_term (n0 + n1) n0 + (entropy_term (n0 + n1) n1 + 0)).
Proof.
  intros Hbits. cbv zeta.
  rewrite bit_entropy_as_entropy by assumption.
  rewrite entropy_as_sum, symbol_counts_sum. reflexivity.
Qed.

(** Property X8. On input over the alphabet 0, 1: when 0 and 1 occur
    equally often (and at all) the bit-sequence entropy is exactly 1, and
    when only one of the two symbols occurs it is exactly 0. *)
Theorem calculate_bit_entropy_extremes :
  forall bits,
    Forall binary_string bits ->
    let n0 := occurrences "0" (symbol_stream bits) in
    let n1 := occurrences "1" (symbol_stream bits) in
    ((0 < n0)%Z -> n0 = n1 -> _calculate_bit_entropy bits = 1)
    /\ (n0 = 0%Z \/ n1 = 0%Z -> _calculate_bit_entropy bits = 0).
Proof.
  intros bits Hbits. cbv zeta.
  rewrite (bit_entropy_binary bits Hbits). cbv zeta.
  set (n0 := occurrences "0" (symbol_stream bits)).
  set (n1 := occurrences "1" (symbol_stream bits)).
  assert (H0 : (0 <= n0)%Z) by (unfold n0, occurrences; lia).
  assert (H1 : (0 <= n1)%Z) by (unfold n1, occurrences; lia).
  assert (Hfull : forall n, (0 < n)%Z -> entropy_term n n = 0).
  { intros n Hn. unfold entropy_term. cbv zeta.
    apply IZR_lt in Hn.
    replace (IZR n / IZR n) with 1 by (field; lra).
    rewrite log2_1. destruct (Rlt_dec 0 1); lra. }
  split.
  - intros Hpos <-. destruct (Z.eqb_spec (n0 + n0) 0) as [E|_]; [lia|].
    assert (Hterm : entropy_term (n0 + n0) n0 = / 2 * -1).
    { unfold entropy_term. cbv zeta. apply IZR_lt in Hpos.
      replace (IZR n0 / IZR (n0 + n0)) with (/ 2)
        by (rewrite plus_IZR; field; lra).
      rewrite log2_half. destruct (Rlt_dec 0 (/ 2)) as [_|F]; [reflexivity|].
      elim F. lra. }
    rewrite Hterm. lra.
  - intros [E | E]; rewrite E.
    + rewrite Z.add_0_l. destruct (Z.eqb_spec n1 0); [reflexivity|].
      rewrite entropy_term_zero, Hfull by lia. lra.
    + rewrite Z.add_0_r. destruct (Z.eqb_spec n0 0); [reflexivity|].
      rewrite entropy_term_zero, Hfull by lia. lra.
Qed.

Lemma calculate_bit_entropy_extremes_witness :
  _calculate_bit_entropy ["0"; "1"; "1"; "0"] = 1
  /\ _calculate_bit_entropy ["1"; "1"; "1"] = 0.
Proof.
  split.
  - apply (calculate_bit_entropy_extremes ["0"; "1"; "1"; "0"]).
    + repeat (apply Forall_cons || apply Forall_nil);
        unfold binary_string; simpl;
        repeat (apply Forall_cons || apply Forall_nil);
        solve [left; reflexivity | right; reflexivity].
    + reflexivity.
    + reflexivity.
  - apply (calculate_bit_entropy_extremes ["1"; "1"; "1"]).
    + repeat (apply Forall_cons || apply Forall_nil);
        unfold binary_string; simpl;
        repeat (apply Forall_cons || apply Forall_nil);
        solve [left; reflexivity | right; reflexivity].
    + left. reflexivity.
Defined.

End EntropyValues.

(* ================================================================== *)
(** * Further properties of the generation methods                     *)
(* ================================================================== *)

(** Property X9. A generation method never raises.  An exception of the
    backend is returned as a dictionary whose only key is [error], its
    value the method's own prefix followed by the text of the exception.
    The single-circuit methods submit exactly one job; the combined
    method stops at its first failing source, discarding what the
    earlier sources gave.  No method reads the clock. *)
Theorem generation_failure_report :
  forall backend method qubits shots w,
    In method methods ->
    (1 <= qubits)%nat ->
    exists result w',
      generate backend method qubits shots w = (Return result, w')
      /\ ticks w' = ticks w
      /\ (has_key result "error" = true ->
          exists e, result = [("error", VStr (failure_prefix method ++ e))])
      /\ (method <> "nist" ->
          jobs w' = S (jobs w)
          /\ forall e,
               backend (jobs w) (method_circuit method qubits) shots = inl e ->
               result = [("error", VStr (failure_prefix method ++ e))])
      /\ (method = "nist" ->
          forall k e,
            (k < 4)%nat ->
            (forall i, (i < k)%nat ->
                       exists counts,
                         backend (jobs w + i) nist_circuit (shots / 4)%Z
                         = inr counts) ->
            backend (jobs w + k) nist_circuit (shots / 4)%Z = inl e ->
            result = [("error", VStr (failure_prefix method ++ e))]
            /\ jobs w' = (jobs w + k + 1)%nat).
Proof.
  intros backend method qubits shots w Hin Hq.
  destruct (methods_cases method Hin) as [Hsingle | ->].
  - rewrite (generate_single_run backend method qubits shots w Hsingle Hq).
    pose proof (single_not_nist method Hsingle) as Hnot.
    unfold single_run.
    destruct (backend (jobs w) (method_circuit method qubits) shots)
      as [e|counts] eqn:Hrun.
    + do 2 eexists. split; [reflexivity|]. split; [reflexivity|].
      split; [intros _; now exists e|].
      split; [|intros ->; now elim Hnot].
      intros _. split; [reflexivity|]. now intros e' [= <-].
    + do 2 eexists. split; [reflexivity|]. split; [reflexivity|].
      split; [discriminate|].
      split; [|intros ->; now elim Hnot].
      intros _. split; [reflexivity|]. discriminate.
  - change (generate backend "nist" qubits shots)
      with (nist_compliant_method backend shots).
    rewrite nist_compliant_method_run.
    destruct (nist_jobs backend shots 4 w) as [[e|sources] w'] eqn:Hjobs.
    + do 2 eexists. split; [reflexivity|].
      split; [eapply nist_jobs_world; exact Hjobs|].
      split; [intros _; now exists e|].
      split; [intros F; now elim F|].
      intros _ k e' Hk Hbefore Hfail.
      rewrite (nist_jobs_failure backend shots 4 w k e' Hk Hbefore Hfail)
        in Hjobs.
      injection Hjobs as <- <-. split; reflexivity.
    + do 2 eexists. split; [reflexivity|].
      split; [eapply nist_jobs_world; exact Hjobs|].
      split; [discriminate|].
      split; [intros F; now elim F|].
      intros _ k e' Hk Hbefore Hfail.
      rewrite (nist_jobs_failure backend shots 4 w k e' Hk Hbefore Hfail)
        in Hjobs.
      discriminate.
Qed.

Lemma generation_failure_report_witness :
  exists w',
    generate failing_backend "ghz" 3 7 (mkWorld 5 2)
    = (Return [("error",
                VStr "GHZ state method failed: simulation failed")], w')
    /\ jobs w' = 6%nat /\ ticks w' = 2%nat.
Proof.
  destruct (generation_failure_report failing_backend "ghz" 3 7 (mkWorld 5 2))
    as (result & w' & Hrun & Hticks & _ & Hsingle & _).
  { simpl. auto. }
  { lia. }
  destruct Hsingle as [Hjobs Hfail]; [discriminate|].
  exists w'. rewrite Hrun, (Hfail "simulation failed" eq_refl).
  split; [reflexivity|]. split; assumption.
Defined.

Lemma nist_jobs_quotient backend (shots shots' : Z) (n : nat) :
  (shots / 4 = shots' / 4)%Z ->
  forall w, nist_jobs backend shots n w = nist_jobs backend shots' n w.
Proof.
  intros Hq. induction n as [|n IH]; intros w; simpl; [reflexivity|].
  rewrite Hq. destruct (backend (jobs w) nist_circuit (shots' / 4)%Z);
    [reflexivity|]. now rewrite IH.
Qed.

(** Property X10. The combined method hands a quarter of the shots,
    rounded down, to each of its four sources: the remainder of the
    division by 4 is dropped, so a request for [shots] behaves as one for
    [4 * (shots // 4)], and one for fewer than 4 shots as one for 0. *)
Theorem nist_shots_rounded_down :
  forall backend shots w,
    nist_compliant_method backend shots w
    = nist_compliant_method backend (4 * (shots / 4)) w
    /\ ((0 <= shots < 4)%Z ->
        nist_compliant_method backend shots w
        = nist_compliant_method backend 0 w).
Proof.
  intros backend shots w. rewrite !nist_compliant_method_run. split.
  - rewrite (nist_jobs_quotient backend shots (4 * (shots / 4)) 4);
      [reflexivity|].
    rewrite Z.mul_comm, Z.div_mul; lia.
  - intros Hsmall.
    rewrite (nist_jobs_quotient backend shots 0 4); [reflexivity|].
    rewrite Z.div_small by lia. reflexivity.
Qed.

Lemma nist_shots_rounded_down_witness :
  nist_compliant_method zeros_backend 3 (mkWorld 0 0)
  = nist_compliant_method zeros_backend 0 (mkWorld 0 0).
Proof.
  apply (nist_shots_rounded_down zeros_backend 3 (mkWorld 0 0)). lia.
Defined.

Section RandomBits.

Lemma flattened_cons (key : string) (count : Z) (counts : CountMap) :
  flattened ((key, count) :: counts)
  = repeat key (Z.to_nat count) ++ flattened counts.
Proof. reflexivity. Qed.

Lemma flattened_length (counts : CountMap) :
  shot_counts counts ->
  Z.of_nat (List.length (flattened counts)) = sum (values counts).
Proof.
  unfold shot_counts, values.
  induction counts as [|[key count] counts IH]; intros Hcounts.
  - reflexivity.
  - inversion Hcounts as [|? ? Hcount Hrest]; subst. simpl in Hcount.
    rewrite flattened_cons, length_app, repeat_length.
    cbn [map snd]. rewrite sum_cons, Nat2Z.inj_add, IH by assumption. lia.
Qed.

Lemma flattened_elements (counts : CountMap) :
  Forall (fun bit => In bit (keys counts)) (flattened counts).
Proof. apply flattened_keys. apply Forall_forall. auto. Qed.

Lemma count_occ_repeat_same (key : string) (n : nat) :
  count_occ string_dec (repeat key n) key = n.
Proof.
  induction n as [|n IH]; simpl; [reflexivity|].
  destruct (string_dec key key) as [_|F]; [now rewrite IH|now elim F].
Qed.

Lemma count_occ_repeat_other (key key' : string) (n : nat) :
  key' <> key -> count_occ string_dec (repeat key' n) key = 0%nat.
Proof.
  intros Hneq. induction n as [|n IH]; simpl; [reflexivity|].
  destruct (string_dec key' key); [contradiction|exact IH].
Qed.

Lemma flattened_absent (counts : CountMap) (key : string) :
  ~ In key (keys counts) ->
  count_occ string_dec (flattened counts) key = 0%nat.
Proof.
  intros Hnotin. apply count_occ_not_In. intros Hin.
  pose proof (flattened_elements counts) as Hall.
  rewrite Forall_forall in Hall. now apply Hnotin, Hall.
Qed.

(** Each outcome occurs among the flattened strings as often as the map
    counts it. *)
Lemma flattened_count (counts : CountMap) (key : string) :
  distinct_keys counts ->
  Z.of_nat (count_occ string_dec (flattened counts) key)
  = Z.max 0 (count_of counts key).
Proof.
  unfold distinct_keys, keys, count_of.
  induction counts as [|[key' count] counts IH]; intros Hkeys.
  - reflexivity.
  - inversion Hkeys as [|? ? Hnotin Hrest]; subst.
    rewrite flattened_cons, count_occ_app. cbn [dict_get].
    destruct (String.eqb_spec key key') as [<-|Hneq].
    + rewrite count_occ_repeat_same, flattened_absent by exact Hnotin. lia.
    + rewrite count_occ_repeat_other by congruence.
      now apply IH.
Qed.

End RandomBits.

(** Property X11. In a successful result of the Hadamard, Bell or GHZ
    method the list [random_bits] is made of the outcomes of [counts]:
    each of its elements is a key of the map, an outcome occurs in it as
    often as the map counts it (never, for a count below 1), and its
    length is the sum of the counts when none is negative. *)
Theorem random_bits_match_counts :
  forall backend method qubits shots w result w',
    method = "hadamard" \/ method = "bell" \/ method = "ghz" ->
    generate backend method qubits shots w = (Return result, w') ->
    has_key result "error" = false ->
    exists counts random_bits,
      get result "counts" = Some (VCounts counts)
      /\ get result "random_bits" = Some (VBits random_bits)
      /\ Forall (fun bit => In bit (keys counts)) random_bits
      /\ (distinct_keys counts ->
          forall outcome,
            Z.of_nat (count_occ string_dec random_bits outcome)
            = Z.max 0 (count_of counts outcome))
      /\ (shot_counts counts ->
          Z.of_nat (List.length random_bits) = sum (values counts)).
Proof.
  intros backend method qubits shots w result w' Hsingle Hrun Hok.
  destruct (generate_single backend method qubits shots w Hsingle)
    as [prefix Hgen].
  rewrite Hgen in Hrun.
  destruct ((method =? "ghz") && (qubits =? 0)%nat).
  { injection Hrun as <- _. discriminate Hok. }
  unfold single_run in Hrun.
  destruct (backend (jobs w) (method_circuit method qubits) shots)
    as [e|counts]; injection Hrun as <- _; [discriminate Hok|].
  exists counts, (flattened counts).
  split; [reflexivity|]. split; [reflexivity|].
  split; [apply flattened_elements|].
  split; [intros Hkeys outcome; now apply flattened_count|].
  apply flattened_length.
Qed.

Lemma random_bits_match_counts_witness :
  exists counts random_bits,
    get (single_result "Bell_State" bell_circuit [("00", 9%Z)]) "counts"
    = Some (VCounts counts)
    /\ get (single_result "Bell_State" bell_circuit [("00", 9%Z)])
           "random_bits"
       = Some (VBits random_bits)
    /\ Z.of_nat (List.length random_bits) = 9%Z.
Proof.
  destruct (random_bits_match_counts
              zeros_backend "bell" 1 9 (mkWorld 0 0)
              (single_result "Bell_State" bell_circuit [("00", 9%Z)])
              (mkWorld 1 0))
    as (counts & random_bits & Hcounts & Hbits & _ & _ & Hlen).
  - right. left. reflexivity.
  - change (generate zeros_backend "bell" 1 9 (mkWorld 0 0))
      with (bell_state_method zeros_backend 9 (mkWorld 0 0)).
    now rewrite bell_state_method_run.
  - reflexivity.
  - exists counts, random_bits. split; [exact Hcounts|].
    split; [exact Hbits|]. rewrite Hlen.
    + injection Hcounts as <-. reflexivity.
    + injection Hcounts as <-. unfold shot_counts. simpl.
      repeat constructor. lia.
Defined.

Section NistEntropy.
Local Open Scope R_scope.

Lemma binary_bits (bits : list string) :
  Forall (fun bit => bit = "0" \/ bit = "1") bits ->
  Forall binary_string bits.
Proof.
  intros Hbits. eapply Forall_impl; [|exact Hbits].
  intros bit [-> | ->]; unfold binary_string; simpl;
    (constructor; [|constructor]); auto.
Qed.

(** The bit-sequence entropy of binary input lies in the unit
    interval. *)
Lemma bit_entropy_unit_interval (bits : list string) :
  Forall binary_string bits ->
  0 <= _calculate_bit_entropy bits <= 1.
Proof.
  intros Hbits. rewrite bit_entropy_as_entropy by assumption.
  set (counts := symbol_counts (symbol_stream bits)).
  destruct (entropy_range counts (symbol_counts_shots _)) as [Hlow Hhigh].
  split; [assumption|].
  destruct (le_lt_dec (positive_counts counts) 0) as [Hnone|Hsome].
  - rewrite entropy_no_outcome; [lra|apply symbol_counts_shots|lia].
  - apply Rle_trans with (1 := Hhigh Hsome).
    rewrite <- log2_2. unfold log2, Rdiv.
    apply Rmult_le_compat_r.
    + left. apply Rinv_0_lt_compat, ln_2_pos.
    + apply ln_monotone.
      * apply (lt_INR 0). lia.
      * apply (le_INR _ 2). subst counts.
        unfold positive_counts, symbol_counts. simpl.
        destruct (0 <? occurrences "0" (symbol_stream bits))%Z;
          destruct (0 <? occurrences "1" (symbol_stream bits))%Z;
          simpl; lia.
Qed.

(** Property X12. Whatever the backend returns, a successful result of
    the combined method holds under [processed_bits] the extractor's
    output for [raw_bits], a list of "0" and "1" no longer than
    [raw_bits], and under [entropy] a value between 0 and 1. *)
Theorem nist_result_entropy_range :
  forall backend shots w result w',
    nist_compliant_method backend shots w = (Return result, w') ->
    has_key result "error" = false ->
    exists raw_bits processed_bits entropy,
      get result "raw_bits" = Some (VBits raw_bits)
      /\ get result "processed_bits" = Some (VBits processed_bits)
      /\ get result "entropy" = Some (VFloat entropy)
      /\ processed_bits = _von_neumann_extractor raw_bits
      /\ Forall (fun bit => bit = "0" \/ bit = "1") processed_bits
      /\ (List.length processed_bits <= List.length raw_bits)%nat
      /\ 0 <= entropy <= 1.
Proof.
  intros backend shots w result w' Hrun Hok.
  rewrite nist_compliant_method_run in Hrun.
  destruct (nist_jobs backend shots 4 w) as [[e|sources] w1];
    injection Hrun as <- _; [discriminate Hok|].
  set (raw_bits := flat_map flattened sources).
  destruct (extractor_output raw_bits) as [Hbinary Hlen].
  exists raw_bits, (_von_neumann_extractor raw_bits),
    (_calculate_bit_entropy (_von_neumann_extractor raw_bits)).
  split; [reflexivity|]. split; [reflexivity|]. split; [reflexivity|].
  split; [reflexivity|]. split; [exact Hbinary|]. split.
  - rewrite Hlen. apply count_pairs_bound.
  - apply bit_entropy_unit_interval. now apply binary_bits.
Qed.

Lemma nist_result_entropy_range_witness :
  exists raw_bits processed_bits entropy,
    get (nist_result (repeat [("01", 1%Z); ("11", 1%Z)] 4)) "raw_bits"
    = Some (VBits raw_bits)
    /\ get (nist_result (repeat [("01", 1%Z); ("11", 1%Z)] 4))
           "processed_bits"
       = Some (VBits processed_bits)
    /\ get (nist_result (repeat [("01", 1%Z); ("11", 1%Z)] 4)) "entropy"
       = Some (VFloat entropy)
    /\ 0 <= entropy <= 1.
Proof.
  destruct (nist_result_entropy_range
              (fun _ _ _ => inr [("01", 1%Z); ("11", 1%Z)]) 8 (mkWorld 0 0)
              (nist_result (repeat [("01", 1%Z); ("11", 1%Z)] 4))
              (mkWorld 4 0))
    as (raw & processed & entropy & Hraw & Hproc & Hent & _ & _ & _ & Hrange).
  - now rewrite nist_compliant_method_run.
  - reflexivity.
  - exists raw, processed, entropy. repeat split; tauto.
Defined.

End NistEntropy.

(* ================================================================== *)
(** * Further properties of the benchmark                              *)
(* ================================================================== *)

(** Property X13. With [runs <= 0] the benchmark runs nothing: it
    returns the empty map, submits no job and does not read the clock. *)
Theorem benchmark_without_runs :
  forall backend clock runs w,
    (runs <= 0)%Z ->
    benchmark_methods backend clock runs w = (Return [], w).
Proof.
  intros backend clock runs w Hruns.
  unfold benchmark_methods, methods, benchmark_method.
  replace (Z.to_nat runs) with 0%nat by lia. reflexivity.
Qed.

Lemma benchmark_without_runs_witness :
  benchmark_methods failing_backend (fun _ => 0%R) (-3) (mkWorld 2 1)
  = (Return [], mkWorld 2 1).
Proof. apply benchmark_without_runs. lia. Defined.

Section BenchmarkTimes.
Variable backend : nat -> Circuit -> Z -> string + CountMap.
Variable clock : nat -> R.

(** A method called by the benchmark does not read the clock. *)
Lemma benchmark_call_ticks (method : string) (w : World) :
  ticks (snd (benchmark_call backend method w)) = ticks w.
Proof.
  unfold benchmark_call.
  assert (Hsingle : forall name prefix circuit shots,
             ticks (snd (single_run backend name prefix circuit shots w))
             = ticks w).
  { intros. unfold single_run. now destruct (backend _ _ _). }
  destruct (method =? "hadamard").
  { rewrite hadamard_method_run. apply Hsingle. }
  destruct (method =? "bell").
  { rewrite bell_state_method_run. apply Hsingle. }
  destruct (method =? "ghz").
  { rewrite ghz_state_method_run by lia. apply Hsingle. }
  rewrite nist_compliant_method_run.
  destruct (nist_jobs backend 100 4 w) as [[e|sources] w'] eqn:E;
    apply nist_jobs_world in E; simpl; tauto.
Qed.

(** The inner loop, with the times it records. *)
Lemma benchmark_runs_times (method : string) (n : nat) :
  forall (start : nat) (times entropies : list R) (w : World),
  exists ts es w',
    for_each (seq start n) (benchmark_run backend clock method)
             (times, entropies) w
    = (Return (times ++ ts, entropies ++ es), w')
    /\ List.length es = List.length ts
    /\ (List.length ts <= n)%nat
    /\ Forall (fun time => exists k, time = (clock (S k) - clock k)%R) ts
    /\ ticks w' = (ticks w + 2 * n)%nat.
Proof.
  induction n as [|n IH]; intros start times entropies w.
  - exists [], [], w. simpl. unfold ret. rewrite !app_nil_r.
    split; [reflexivity|]. split; [reflexivity|]. split; [lia|].
    split; [constructor|lia].
  - cbn [seq for_each]. unfold bind at 1. rewrite benchmark_run_step.
    pose proof (benchmark_call_ticks method (tick w)) as Hticks.
    destruct (benchmark_call_total backend method (tick w))
      as (result & w1 & Hcall & Hfloat).
    rewrite Hcall in Hticks |- *. cbn [snd tick ticks] in Hticks.
    destruct (succeeded result) eqn:Hok.
    + destruct (Hfloat eq_refl) as [x ->].
      destruct (IH (S start)
                   (times ++ [(clock (ticks w1) - clock (ticks w))%R])
                   (entropies ++ [x]) (tick w1))
        as (ts & es & w' & -> & Hes & Hts & Hall & Hw').
      exists ((clock (ticks w1) - clock (ticks w))%R :: ts), (x :: es), w'.
      rewrite <- !app_assoc. cbn [app List.length].
      split; [reflexivity|]. split; [lia|]. split; [lia|]. split.
      * constructor; [|exact Hall]. exists (ticks w). now rewrite Hticks.
      * rewrite Hw'. cbn [tick ticks]. lia.
    + destruct (IH (S start) times entropies (tick w1))
        as (ts & es & w' & -> & Hes & Hts & Hall & Hw').
      exists ts, es, w'.
      split; [reflexivity|]. split; [lia|]. split; [lia|].
      split; [exact Hall|]. rewrite Hw'. cbn [tick ticks]. lia.
Qed.

(** One turn of the outer loop leaves the map as it is or sets the
    entry of the method to measured statistics. *)
Lemma benchmark_method_stats (runs : Z) (method : string)
      (results : list (string * Stats)) (w : World) :
  exists results' w',
    benchmark_method backend clock runs method results w
    = (Return results', w')
    /\ ticks w' = (ticks w + 2 * Z.to_nat runs)%nat
    /\ (results' = results
        \/ exists stats,
             measured_stats clock runs stats
             /\ results' = dict_set String.eqb results method stats).
Proof.
  unfold benchmark_method. unfold bind at 1. unfold range.
  destruct (benchmark_runs_times method (Z.to_nat runs) 0 [] [] w)
    as (ts & es & w' & -> & Hes & Hts & Hall & Hw').
  cbn [app]. destruct ts as [|t ts].
  - exists results, w'. split; [reflexivity|]. split; [exact Hw'|now left].
  - eexists. exists w'. split; [reflexivity|]. split; [exact Hw'|].
    right. eexists. split; [|reflexivity].
    exists (t :: ts), es. split; [reflexivity|].
    split; [discriminate|]. split; [exact Hes|].
    split; [cbn [List.length] in *; lia|exact Hall].
Qed.

(** Every entry the outer loop adds holds measured statistics. *)
Lemma benchmark_loop_stats (runs : Z) (ms : list string) :
  forall (results : list (string * Stats)) (w : World),
    (forall m stats, dict_get String.eqb results m = Some stats ->
                     measured_stats clock runs stats) ->
    exists final w',
      for_each ms (benchmark_method backend clock runs) results w
      = (Return final, w')
      /\ ticks w' = (ticks w + 2 * Z.to_nat runs * List.length ms)%nat
      /\ (forall m stats, dict_get String.eqb final m = Some stats ->
                          measured_stats clock runs stats).
Proof.
  induction ms as [|m0 ms IH]; intros results w Hresults.
  - exists results, w. split; [reflexivity|]. split; [simpl; lia|assumption].
  - cbn [for_each]. unfold bind at 1.
    destruct (benchmark_method_stats runs m0 results w)
      as (results1 & w1 & -> & Hw1 & Hstep).
    destruct (IH results1 w1) as (final & w' & -> & Hw' & Hfinal).
    + destruct Hstep as [-> | (stats0 & Hmeasured & ->)]; [assumption|].
      intros m stats.
      destruct (string_dec m m0) as [->|Hneq].
      * rewrite dict_get_set_same. now intros [= <-].
      * rewrite dict_get_set_other by assumption. apply Hresults.
    + exists final, w'. split; [reflexivity|].
      split; [|assumption]. rewrite Hw', Hw1. cbn [List.length]. lia.
Qed.

End BenchmarkTimes.

Section Reductions.
Local Open Scope R_scope.

Lemma np_sum_from (xs : list R) : forall a,
  fold_left Rplus xs a = a + Rsum xs.
Proof.
  unfold Rsum. induction xs as [|x xs IH]; intros a; simpl.
  - lra.
  - rewrite IH. lra.
Qed.

Lemma np_sum_bounds (a b : R) (xs : list R) :
  Forall (fun x => a <= x <= b) xs ->
  INR (List.length xs) * a <= np_sum xs <= INR (List.length xs) * b.
Proof.
  unfold np_sum. rewrite np_sum_from.
  induction 1 as [|x xs Hx _ IH].
  - simpl. lra.
  - cbn [List.length]. rewrite S_INR. unfold Rsum in *. simpl. lra.
Qed.

(** The mean of a non-empty list lies between any bounds of its
    elements. *)
Lemma np_mean_bounds (a b : R) (xs : list R) :
  xs <> [] ->
  Forall (fun x => a <= x <= b) xs ->
  a <= np_mean xs <= b.
Proof.
  intros Hne Hall. unfold np_mean.
  assert (Hn : 0 < INR (List.length xs)).
  { apply lt_0_INR. destruct xs; [now elim Hne|simpl; lia]. }
  pose proof (np_sum_bounds a b xs Hall) as [Hlow Hhigh].
  pose proof (Rinv_0_lt_compat _ Hn) as Hinv.
  split.
  - apply Rmult_le_reg_r with (INR (List.length xs)); [assumption|].
    unfold Rdiv. rewrite Rmult_assoc, Rinv_l by lra. lra.
  - apply Rmult_le_reg_r with (INR (List.length xs)); [assumption|].
    unfold Rdiv. rewrite Rmult_assoc, Rinv_l by lra. lra.
Qed.

Lemma fold_min_le (xs : list R) : forall a,
  fold_left Rmin xs a <= a
  /\ Forall (fun x => fold_left Rmin xs a <= x) xs.
Proof.
  induction xs as [|x xs IH]; intros a; simpl.
  - split; [lra|constructor].
  - destruct (IH (Rmin a x)) as [Hhead Hall].
    pose proof (Rmin_l a x). pose proof (Rmin_r a x).
    split; [lra|]. constructor; [lra|exact Hall].
Qed.

Lemma fold_max_ge (xs : list R) : forall a,
  a <= fold_left Rmax xs a
  /\ Forall (fun x => x <= fold_left Rmax xs a) xs.
Proof.
  induction xs as [|x xs IH]; intros a; simpl.
  - split; [lra|constructor].
  - destruct (IH (Rmax a x)) as [Hhead Hall].
    pose proof (Rmax_l a x). pose proof (Rmax_r a x).
    split; [lra|]. constructor; [lra|exact Hall].
Qed.

(** [np.min] and [np.max] bound every element of a non-empty list. *)
Lemma np_min_max_bounds (xs : list R) :
  xs <> [] -> Forall (fun x => np_min xs <= x <= np_max xs) xs.
Proof.
  intros Hne. destruct xs as [|x xs]; [now elim Hne|].
  unfold np_min, np_max.
  destruct (fold_min_le xs x) as [Hmin Hmins].
  destruct (fold_max_ge xs x) as [Hmax Hmaxs].
  constructor; [split; assumption|].
  rewrite Forall_forall in *. intros y Hy. split; auto.
Qed.

Lemma np_min_member (xs : list R) : xs <> [] -> In (np_min xs) xs.
Proof.
  intros Hne. destruct xs as [|x xs]; [now elim Hne|]. unfold np_min.
  clear Hne. revert x. induction xs as [|y xs IH]; intros x; simpl; [now left|].
  destruct (IH (Rmin x y)) as [Heq|Hin]; [|now right; right].
  rewrite <- Heq. unfold Rmin. destruct (Rle_dec x y); auto.
Qed.

Lemma np_max_member (xs : list R) : xs <> [] -> In (np_max xs) xs.
Proof.
  intros Hne. destruct xs as [|x xs]; [now elim Hne|]. unfold np_max.
  clear Hne. revert x. induction xs as [|y xs IH]; intros x; simpl; [now left|].
  destruct (IH (Rmax x y)) as [Heq|Hin]; [|now right; right].
  rewrite <- Heq. unfold Rmax. destruct (Rle_dec x y); auto.
Qed.

(** On a list whose elements all equal [d] the mean is [d] and the
    standard deviation 0. *)
Lemma np_constant (d : R) (xs : list R) :
  xs <> [] -> Forall (fun x => x = d) xs ->
  np_mean xs = d /\ np_std xs = 0 /\ np_min xs = d /\ np_max xs = d.
Proof.
  intros Hne Hall.
  assert (Hmean : np_mean xs = d).
  { apply Rle_antisym; apply (np_mean_bounds d d xs Hne);
      (eapply Forall_impl; [|exact Hall]); simpl; intros; lra. }
  split; [exact Hmean|]. split.
  - unfold np_std. cbv zeta. rewrite Hmean.
    assert (Hzero : np_mean (map (fun x => Rsqr (x - d)) xs) = 0).
    { apply Rle_antisym;
        apply (np_mean_bounds 0 0 (map (fun x => Rsqr (x - d)) xs));
        try (destruct xs; [now elim Hne|discriminate]);
        apply Forall_map; (eapply Forall_impl; [|exact Hall]); simpl;
        intros x ->; unfold Rsqr; lra. }
    rewrite Hzero. apply sqrt_0.
  - rewrite Forall_forall in Hall. split; apply Hall.
    + now apply np_min_member.
    + now apply np_max_member.
Qed.

End Reductions.

Section BenchmarkStatistics.
Local Open Scope R_scope.

Lemma benchmark_measured backend clock (runs : Z) (w : World) :
  exists results w',
    benchmark_methods backend clock runs w = (Return results, w')
    /\ ticks w' = (ticks w + 8 * Z.to_nat runs)%nat
    /\ (forall method stats,
          dict_get String.eqb results method = Some stats ->
          measured_stats clock runs stats).
Proof.
  unfold benchmark_methods.
  destruct (benchmark_loop_stats backend clock runs methods [] w)
    as (results & w' & Hrun & Hticks & Hstats); [discriminate|].
  exists results, w'. split; [exact Hrun|]. split; [|exact Hstats].
  rewrite Hticks. simpl. lia.
Qed.

(** Property X15. The benchmark reads the clock exactly twice per run,
    eight times [runs] in all, whatever fails.  Every entry of its map is
    computed from at least one and at most [runs] successful runs and is
    consistent: [min_time <= avg_time <= max_time], the two standard
    deviations are not negative, and [min_time] is not negative when the
    clock never goes backwards. *)
Theorem benchmark_statistics_consistent :
  forall backend clock runs w,
  exists results w',
    benchmark_methods backend clock runs w = (Return results, w')
    /\ ticks w' = (ticks w + 8 * Z.to_nat runs)%nat
    /\ (forall method stats,
          dict_get String.eqb results method = Some stats ->
          min_time stats <= avg_time stats <= max_time stats
          /\ 0 <= std_time stats
          /\ 0 <= std_entropy stats
          /\ (1 <= successful_runs stats <= runs)%Z
          /\ ((forall n, clock n <= clock (S n)) -> 0 <= min_time stats)).
Proof.
  intros backend clock runs w.
  destruct (benchmark_measured backend clock runs w)
    as (results & w' & Hrun & Hticks & Hstats).
  exists results, w'. split; [exact Hrun|]. split; [exact Hticks|].
  intros method stats Hget.
  destruct (Hstats method stats Hget)
    as (times & entropies & -> & Hne & Hlen & Hruns & Hdiff).
  cbn [stats_of min_time avg_time max_time std_time std_entropy
       successful_runs].
  split; [|split; [|split; [|split]]].
  - apply np_mean_bounds; [exact Hne|now apply np_min_max_bounds].
  - unfold np_std. cbv zeta. apply sqrt_pos.
  - unfold np_std. cbv zeta. apply sqrt_pos.
  - split; [|exact Hruns]. destruct times; [now elim Hne|simpl; lia].
  - intros Hclock. pose proof (np_min_member times Hne) as Hmin.
    rewrite Forall_forall in Hdiff.
    destruct (Hdiff _ Hmin) as [n ->]. specialize (Hclock n). lra.
Qed.

(** Property X16. With a clock that advances by the same amount [d]
    between any two successive readings, every entry of the benchmark's
    map reports [avg_time], [min_time] and [max_time] equal to [d] and a
    [std_time] of 0. *)
Theorem benchmark_steady_clock :
  forall backend clock runs w d,
    (forall n, clock (S n) - clock n = d) ->
    exists results w',
      benchmark_methods backend clock runs w = (Return results, w')
      /\ (forall method stats,
            dict_get String.eqb results method = Some stats ->
            avg_time stats = d /\ std_time stats = 0
            /\ min_time stats = d /\ max_time stats = d).
Proof.
  intros backend clock runs w d Hsteady.
  destruct (benchmark_measured backend clock runs w)
    as (results & w' & Hrun & _ & Hstats).
  exists results, w'. split; [exact Hrun|].
  intros method stats Hget.
  destruct (Hstats method stats Hget)
    as (times & entropies & -> & Hne & _ & _ & Hdiff).
  cbn [stats_of min_time avg_time max_time std_time].
  apply np_constant; [exact Hne|].
  eapply Forall_impl; [|exact Hdiff]. simpl.
  intros time [n ->]. apply Hsteady.
Qed.

End BenchmarkStatistics.

Section BenchmarkEntries.
Variable backend : nat -> Circuit -> Z -> string + CountMap.
Variable clock : nat -> R.

Lemma dict_get_keys {V} (d : list (string * V)) (k : string) :
  dict_get String.eqb d k = None <-> ~ In k (keys d).
Proof.
  unfold keys. induction d as [|[k' v] d IH]; simpl.
  - tauto.
  - destruct (String.eqb_spec k k') as [->|Hneq].
    + split; [discriminate|]. intros F. elim F. now left.
    + rewrite IH. split; [intros H [E|Hin]; [congruence|auto]|tauto].
Qed.

Lemma keys_dict_set_fresh {V} (d : list (string * V)) (k : string) (v : V) :
  dict_get String.eqb d k = None ->
  keys (dict_set String.eqb d k v) = keys d ++ [k].
Proof.
  unfold keys. induction d as [|[k' v'] d IH]; simpl; [reflexivity|].
  destruct (String.eqb k k'); [discriminate|].
  intros Hnone. simpl. now rewrite IH.
Qed.

(** The entries are added in the order of the methods. *)
Lemma benchmark_loop_keys (runs : Z) (ms : list string) :
  forall (results : list (string * Stats)) (w : World) final w',
    NoDup ms ->
    (forall m, In m ms -> dict_get String.eqb results m = None) ->
    for_each ms (benchmark_method backend clock runs) results w
    = (Return final, w') ->
    keys final
    = keys results ++ filter (fun m => dict_mem String.eqb final m) ms.
Proof.
  induction ms as [|m0 ms IH]; intros results w final w' Hnodup Hfresh Hrun.
  - injection Hrun as <- _. simpl. now rewrite app_nil_r.
  - inversion Hnodup as [|? ? Hnotin Hnodup']; subst.
    cbn [for_each] in Hrun. unfold bind at 1 in Hrun.
    destruct (benchmark_method_run backend clock runs m0 results w)
      as (results1 & Hstep & Hnone & Hsome).
    rewrite Hstep in Hrun.
    set (w1 := snd (run_results backend m0 (Z.to_nat runs) w)) in *.
    assert (Hother : forall m, m <> m0 ->
              dict_get String.eqb results1 m = dict_get String.eqb results m).
    { intros m Hm. destruct (successes backend runs m0 w) eqn:E.
      - now rewrite Hnone.
      - destruct Hsome as (stats & -> & _); [discriminate|].
        now apply dict_get_set_other. }
    assert (Hfresh1 : forall m, In m ms ->
              dict_get String.eqb results1 m = None).
    { intros m Hm. rewrite Hother.
      - apply Hfresh. now right.
      - intros ->. contradiction. }
    destruct (benchmark_loop backend clock runs ms results1 w1
                             Hnodup' Hfresh1)
      as (final2 & w2 & Hrun2 & Hkeep & _).
    rewrite Hrun in Hrun2. injection Hrun2 as <- <-.
    rewrite (IH results1 w1 final w' Hnodup' Hfresh1 Hrun).
    cbn [filter]. unfold dict_mem at 2. rewrite (Hkeep m0 Hnotin).
    destruct (successes backend runs m0 w) eqn:E.
    + rewrite Hnone by reflexivity.
      rewrite (Hfresh m0) by now left. reflexivity.
    + destruct Hsome as (stats & -> & _); [discriminate|].
      rewrite dict_get_set_same, keys_dict_set_fresh
        by (apply Hfresh; now left).
      now rewrite <- app_assoc.
Qed.

(** With a backend that never fails every benchmark call succeeds. *)
Lemma benchmark_call_succeeds (method : string) (w : World) :
  (forall job circuit shots,
      exists counts, backend job circuit shots = inr counts) ->
  exists result w',
    benchmark_call backend method w = (Return result, w')
    /\ succeeded result = true.
Proof.
  intros Htotal. unfold benchmark_call.
  assert (Hsingle : forall name prefix circuit shots,
             exists result w',
               single_run backend name prefix circuit shots w
               = (Return result, w')
               /\ succeeded result = true).
  { intros name prefix circuit shots. unfold single_run.
    destruct (Htotal (jobs w) circuit shots) as [counts ->].
    do 2 eexists. split; reflexivity. }
  destruct (method =? "hadamard").
  { rewrite hadamard_method_run. apply Hsingle. }
  destruct (method =? "bell").
  { rewrite bell_state_method_run. apply Hsingle. }
  destruct (method =? "ghz").
  { rewrite ghz_state_method_run by lia. apply Hsingle. }
  rewrite nist_compliant_method_run. cbn [nist_jobs].
  destruct (Htotal (jobs w) nist_circuit (100 / 4)%Z) as [c0 ->].
  destruct (Htotal (jobs (after_job w)) nist_circuit (100 / 4)%Z)
    as [c1 ->].
  destruct (Htotal (jobs (after_job (after_job w))) nist_circuit
                   (100 / 4)%Z) as [c2 ->].
  destruct (Htotal (jobs (after_job (after_job (after_job w))))
                   nist_circuit (100 / 4)%Z) as [c3 ->].
  do 2 eexists. split; reflexivity.
Qed.

Lemma successes_all (runs : Z) (method : string) (w : World) :
  (forall job circuit shots,
      exists counts, backend job circuit shots = inr counts) ->
  List.length (successes backend runs method w) = Z.to_nat runs.
Proof.
  intros Htotal. unfold successes.
  generalize (Z.to_nat runs). intros n. revert w.
  induction n as [|n IH]; intros w; [reflexivity|].
  cbn [run_results].
  destruct (benchmark_call_succeeds method (tick w) Htotal)
    as (result & w' & -> & Hok).
  specialize (IH (tick w')).
  destruct (run_results backend method n (tick w')) as [rest w''].
  cbn [fst filter] in *. rewrite Hok. simpl. now rewrite IH.
Qed.

End BenchmarkEntries.

(** Property X17. The entries of the benchmark's map are methods of the
    list hadamard, bell, ghz, nist, each at most once and in the order of
    that list. *)
Theorem benchmark_entries_in_order :
  forall backend clock runs w,
  exists results w',
    benchmark_methods backend clock runs w = (Return results, w')
    /\ keys results
       = filter (fun method => dict_mem String.eqb results method) methods
    /\ NoDup (keys results).
Proof.
  intros backend clock runs w.
  destruct (benchmark_entries backend clock runs w)
    as (results & w' & Hrun & _ & _).
  exists results, w'. split; [exact Hrun|].
  assert (Hkeys : keys results
                  = filter (fun method => dict_mem String.eqb results method)
                           methods).
  { unfold benchmark_methods in Hrun.
    apply (benchmark_loop_keys backend clock runs methods [] w results w'
                               methods_distinct);
      [reflexivity|exact Hrun]. }
  split; [exact Hkeys|]. rewrite Hkeys.
  apply NoDup_filter, methods_distinct.
Qed.

(** Property X14. With a backend that never fails and [runs >= 1], the
    benchmark's map has exactly the entries hadamard, bell, ghz, nist, in
    this order, each with [successful_runs = runs]. *)
Theorem benchmark_all_succeed :
  forall backend clock runs w,
    (forall job circuit shots,
        exists counts, backend job circuit shots = inr counts) ->
    (1 <= runs)%Z ->
    exists results w',
      benchmark_methods backend clock runs w = (Return results, w')
      /\ keys results = methods
      /\ (forall method stats,
            dict_get String.eqb results method = Some stats ->
            successful_runs stats = runs).
Proof.
  intros backend clock runs w Htotal Hruns.
  destruct (benchmark_entries backend clock runs w)
    as (results & w' & Hrun & Hkeys & Hms).
  exists results, w'. split; [exact Hrun|].
  assert (Hentry : forall i m,
             nth_error methods i = Some m ->
             exists stats,
               dict_get String.eqb results m = Some stats
               /\ successful_runs stats = runs).
  { intros i m Hnth. destruct (Hms i m Hnth) as [_ Hsome].
    pose proof (successes_all backend runs m
                  (world_before backend runs methods i w) Htotal) as Hlen.
    destruct Hsome as (stats & Hget & Hcount).
    - intros Hnil. rewrite Hnil in Hlen. simpl in Hlen. lia.
    - exists stats. split; [exact Hget|]. rewrite Hcount, Hlen. lia. }
  split.
  - unfold benchmark_methods in Hrun.
    rewrite (benchmark_loop_keys backend clock runs methods [] w results w'
                                 methods_distinct
                                 (fun m _ => eq_refl) Hrun).
    cbn [keys map app]. unfold methods. cbn [filter]. unfold dict_mem.
    destruct (Hentry 0%nat "hadamard" eq_refl) as (s0 & -> & _).
    destruct (Hentry 1%nat "bell" eq_refl) as (s1 & -> & _).
    destruct (Hentry 2%nat "ghz" eq_refl) as (s2 & -> & _).
    destruct (Hentry 3%nat "nist" eq_refl) as (s3 & -> & _).
    reflexivity.
  - intros method stats Hget.
    destruct (in_dec string_dec method methods) as [Hin|Hnotin].
    + apply In_nth_error in Hin as [i Hnth].
      destruct (Hentry i method Hnth) as (stats' & Hget' & Hcount).
      rewrite Hget in Hget'. now injection Hget' as <-.
    + rewrite Hkeys in Hget by assumption. discriminate.
Qed.

Lemma zeros_backend_total :
  forall job circuit shots,
  exists counts, zeros_backend job circuit shots = inr counts.
Proof.
  intros job circuit shots. unfold zeros_backend.
  destruct (shots <=? 0)%Z; eexists; reflexivity.
Qed.

Lemma benchmark_all_succeed_witness :
  exists results w',
    benchmark_methods zeros_backend INR 2 (mkWorld 0 0)
    = (Return results, w')
    /\ keys results = ["hadamard"; "bell"; "ghz"; "nist"].
Proof.
  destruct (benchmark_all_succeed zeros_backend INR 2 (mkWorld 0 0)
                                  zeros_backend_total)
    as (results & w' & Hrun & Hkeys & _); [lia|].
  exists results, w'. split; assumption.
Defined.

Lemma benchmark_steady_clock_witness :
  exists results w',
    benchmark_methods zeros_backend INR 2 (mkWorld 0 0)
    = (Return results, w')
    /\ forall method stats,
         dict_get String.eqb results method = Some stats ->
         avg_time stats = 1%R /\ std_time stats = 0%R
         /\ min_time stats = 1%R /\ max_time stats = 1%R.
Proof.
  apply (benchmark_steady_clock zeros_backend INR 2 (mkWorld 0 0) 1%R).
  intros n. rewrite S_INR. apply Rplus_minus_l.
Defined.

(* ================================================================== *)
(** * Properties of the distribution plot                              *)
(* ================================================================== *)

Section Tally.

Lemma count_of_set_same (counts : CountMap) (key : string) (v : Z) :
  count_of (dict_set String.eqb counts key v) key = v.
Proof. unfold count_of. now rewrite dict_get_set_same. Qed.

Lemma count_of_set_other (counts : CountMap) (key key' : string) (v : Z) :
  key' <> key ->
  count_of (dict_set String.eqb counts key v) key' = count_of counts key'.
Proof. intros Hneq. unfold count_of. now rewrite dict_get_set_other. Qed.

Lemma keys_dict_set_present (counts : CountMap) (key : string) (v : Z) :
  In key (keys counts) ->
  keys (dict_set String.eqb counts key v) = keys counts.
Proof.
  unfold keys. induction counts as [|[k c] counts IH]; simpl; [tauto|].
  destruct (String.eqb_spec key k) as [->|Hneq]; [reflexivity|].
  intros [E|Hin]; [congruence|]. simpl. now rewrite IH.
Qed.

Lemma count_bit_distinct (counts : CountMap) (bit : string) :
  distinct_keys counts -> distinct_keys (count_bit counts bit).
Proof.
  unfold distinct_keys, count_bit. intros Hkeys.
  destruct (in_dec string_dec bit (keys counts)) as [Hin|Hnotin].
  - now rewrite keys_dict_set_present.
  - rewrite keys_dict_set_fresh by now apply dict_get_keys.
    apply NoDup_app; [exact Hkeys|repeat constructor; simpl; tauto|].
    intros k Hk [<-|[]]. contradiction.
Qed.

Lemma sum_dict_set (counts : CountMap) (key : string) (v : Z) :
  sum (values (dict_set String.eqb counts key v))
  = (sum (values counts) - count_of counts key + v)%Z.
Proof.
  unfold values, count_of.
  induction counts as [|[k c] counts IH]; simpl.
  - unfold sum. simpl. lia.
  - destruct (String.eqb key k); simpl; rewrite !sum_cons; [lia|].
    rewrite IH. lia.
Qed.

(** The tally loop, started from any dictionary. *)
Lemma tally_from (bits : list string) : forall acc : CountMap,
  distinct_keys acc ->
  distinct_keys (fold_left count_bit bits acc)
  /\ (forall outcome,
        count_of (fold_left count_bit bits acc) outcome
        = (count_of acc outcome
           + Z.of_nat (count_occ string_dec bits outcome))%Z)
  /\ sum (values (fold_left count_bit bits acc))
     = (sum (values acc) + Z.of_nat (List.length bits))%Z.
Proof.
  induction bits as [|bit bits IH]; intros acc Hacc.
  - simpl. split; [exact Hacc|]. split; [intros; lia|lia].
  - cbn [fold_left].
    destruct (IH (count_bit acc bit) (count_bit_distinct acc bit Hacc))
      as (Hkeys & Hcount & Hsum).
    split; [exact Hkeys|]. split.
    + intros outcome. rewrite Hcount. cbn [count_occ]. unfold count_bit.
      destruct (string_dec bit outcome) as [->|Hneq].
      * rewrite count_of_set_same. lia.
      * rewrite count_of_set_other by congruence. lia.
    + rewrite Hsum. unfold count_bit. rewrite sum_dict_set.
      cbn [List.length]. lia.
Qed.

End Tally.

(** Property X18. The dictionary the plot tallies from the classical
    bits has no repeated key, counts each string as often as it occurs
    in the list, and its counts add up to the length of the list; the
    classical histogram is drawn exactly when the list is not empty, and
    the quantum one exactly when the count map passed is not empty. *)
Theorem classical_counts_tally :
  forall quantum_counts classical_bits title,
    distinct_keys (classical_counts classical_bits)
    /\ (forall outcome,
          count_of (classical_counts classical_bits) outcome
          = Z.of_nat (count_occ string_dec classical_bits outcome))
    /\ sum (values (classical_counts classical_bits))
       = Z.of_nat (List.length classical_bits)
    /\ (histogram
          (classical_panel
             (plot_distribution_comparison quantum_counts classical_bits
                                           title)) = None
        <-> classical_bits = [])
    /\ (histogram
          (quantum_panel
             (plot_distribution_comparison quantum_counts classical_bits
                                           title)) = None
        <-> quantum_counts = []).
Proof.
  intros quantum_counts classical_bits title.
  destruct (tally_from classical_bits []) as (Hkeys & Hcount & Hsum);
    [constructor|].
  split; [exact Hkeys|]. split; [exact Hcount|]. split; [exact Hsum|].
  split.
  - cbn [plot_distribution_comparison classical_panel histogram].
    fold (classical_counts classical_bits) in Hsum.
    destruct (classical_counts classical_bits) as [|item rest] eqn:E.
    + split; [|reflexivity]. intros _.
      unfold sum in Hsum. simpl in Hsum.
      destruct classical_bits; [reflexivity|simpl in Hsum; lia].
    + split; [discriminate|]. intros ->. discriminate E.
  - cbn [plot_distribution_comparison quantum_panel histogram].
    destruct quantum_counts; split; try reflexivity; discriminate.
Qed.

Section RoundTrip.

Lemma dict_get_app_fresh (acc : CountMap) (key : string) (c : Z) :
  ~ In key (keys acc) ->
  dict_get String.eqb (acc ++ [(key, c)]) key = Some c.
Proof.
  unfold keys. induction acc as [|[k v] acc IH]; simpl.
  - now rewrite String.eqb_refl.
  - intros Hnotin. destruct (String.eqb_spec key k) as [->|_]; [tauto|].
    apply IH. tauto.
Qed.

Lemma dict_set_app_fresh (acc : CountMap) (key : string) (c v : Z) :
  ~ In key (keys acc) ->
  dict_set String.eqb (acc ++ [(key, c)]) key v = acc ++ [(key, v)].
Proof.
  unfold keys. induction acc as [|[k v'] acc IH]; simpl.
  - now rewrite String.eqb_refl.
  - intros Hnotin. destruct (String.eqb_spec key k) as [->|_]; [tauto|].
    rewrite IH by tauto. reflexivity.
Qed.

Lemma dict_set_fresh (acc : CountMap) (key : string) (v : Z) :
  ~ In key (keys acc) ->
  dict_set String.eqb acc key v = acc ++ [(key, v)].
Proof.
  unfold keys. induction acc as [|[k v'] acc IH]; simpl; [reflexivity|].
  intros Hnotin. destruct (String.eqb_spec key k) as [->|_]; [tauto|].
  rewrite IH by tauto. reflexivity.
Qed.

Lemma tally_repeat (acc : CountMap) (key : string) (n : nat) :
  ~ In key (keys acc) ->
  forall c,
    fold_left count_bit (repeat key n) (acc ++ [(key, c)])
    = acc ++ [(key, (c + Z.of_nat n)%Z)].
Proof.
  intros Hfresh. induction n as [|n IH]; intros c.
  - simpl. now rewrite Z.add_0_r.
  - cbn [repeat fold_left]. unfold count_bit at 2. unfold count_of.
    rewrite dict_get_app_fresh, dict_set_app_fresh by assumption.
    rewrite IH. do 3 f_equal. lia.
Qed.

(** Tallying the flattened strings of a dictionary of positive counts
    gives the dictionary back. *)
Lemma tally_flattened (counts : CountMap) : forall acc : CountMap,
  NoDup (keys acc ++ keys counts) ->
  Forall (fun item => (1 <= snd item)%Z) counts ->
  fold_left count_bit (flattened counts) acc = acc ++ counts.
Proof.
  induction counts as [|[key c] counts IH]; intros acc Hkeys Hpos.
  - simpl. now rewrite app_nil_r.
  - inversion Hpos as [|? ? Hc Hrest]; subst. simpl in Hc.
    assert (Hfresh : ~ In key (keys acc)).
    { intros Hin. cbn [keys map fst] in Hkeys.
      apply NoDup_remove_2 in Hkeys. apply Hkeys.
      apply in_or_app. now left. }
    rewrite flattened_cons, fold_left_app.
    destruct (Z.to_nat c) as [|n] eqn:En; [lia|].
    cbn [repeat fold_left].
    assert (Hfirst : count_bit acc key = acc ++ [(key, 1%Z)]).
    { unfold count_bit, count_of.
      rewrite (proj2 (dict_get_keys acc key) Hfresh).
      now apply dict_set_fresh. }
    rewrite Hfirst, tally_repeat by assumption.
    replace (1 + Z.of_nat n)%Z with c by lia.
    rewrite IH; [now rewrite <- app_assoc| |exact Hrest].
    unfold keys in *. rewrite map_app. cbn [map fst].
    rewrite <- app_assoc. exact Hkeys.
Qed.

End RoundTrip.

(** Property X19. Flattening and tallying are inverse: for a count map
    without repeated keys whose counts are all at least 1, the tally the
    plot makes of the flattened outcome strings (the [random_bits] of the
    map) is the map itself, entries in the same order. *)
Theorem tally_of_flattened :
  forall counts : CountMap,
    distinct_keys counts ->
    Forall (fun item => (1 <= snd item)%Z) counts ->
    classical_counts (flattened counts) = counts.
Proof.
  intros counts Hkeys Hpos. unfold classical_counts.
  now rewrite tally_flattened.
Qed.

Lemma tally_of_flattened_witness :
  classical_counts (flattened [("00", 2%Z); ("11", 3%Z)])
  = [("00", 2%Z); ("11", 3%Z)].
Proof.
  apply tally_of_flattened.
  - unfold distinct_keys. simpl. repeat constructor; simpl; intuition discriminate.
  - repeat constructor; simpl; lia.
Defined.

(* ================================================================== *)
(** * Properties of the web entry points                               *)
(* ================================================================== *)


Section Handler.
Variable backend : nat -> Circuit -> Z -> string + CountMap.
Variable randint : nat -> N -> string + N.
Variable render : Figure -> string + string.

(** For a body that could be read and a known method the entry point
    answers the result of the engine; an exception on the way is answered
    with status 500. *)
Lemma handler_run (method : string) (body : Body) (data : Request)
      (w : World) (result : Result) (w' : World) :
  body_data body = inr data ->
  In method methods ->
  generate backend method (requested_qubits data) (requested_shots data) w
  = (Return result, w') ->
  generate_random_numbers backend randint render method body w
  = match answer randint render (requested_qubits data)
                 (requested_shots data) result w' with
    | (Return reply, w'') => (Return reply, w'')
    | (Raise e, w'') => (Return (Error 500 e), w'')
    end.
Proof.
  intros Hbody Hin Hgen. unfold generate_random_numbers, try_except.
  unfold bind at 1. rewrite Hbody. cbn [lift ret]. cbv zeta.
  simpl in Hin.
  destruct Hin as [<- | [<- | [<- | [<- | []]]]];
    cbn [String.eqb Ascii.eqb Bool.eqb] in *;
    unfold generate in Hgen; cbn [String.eqb Ascii.eqb Bool.eqb] in Hgen;
    unfold bind at 1; rewrite Hgen; reflexivity.
Qed.





End Handler.


Section Replies.
Variable backend : nat -> Circuit -> Z -> string + CountMap.
Variable randint : nat -> N -> string + N.
Variable render : Figure -> string + string.

(** A successful result of the engine is the dictionary of a
    single-circuit method or that of the combined method. *)
Lemma successful_result (method : string) (qubits : nat) (shots : Z)
      (w : World) (result : Result) (w' : World) :
  In method methods ->
  generate backend method qubits shots w = (Return result, w') ->
  has_key result "error" = false ->
  (method <> "nist"
   /\ exists counts,
        result = single_result (method_name method)
                               (method_circuit method qubits) counts)
  \/ (method = "nist" /\ exists sources, result = nist_result sources).
Proof.
  intros Hin Hgen Hok.
  destruct (methods_cases method Hin) as [Hsingle | ->].
  - left. split; [now apply single_not_nist|].
    destruct (generate_single backend method qubits shots w Hsingle)
      as [prefix Hrun].
    rewrite Hrun in Hgen.
    destruct ((method =? "ghz") && (qubits =? 0)%nat).
    { injection Hgen as <- _. discriminate Hok. }
    unfold single_run in Hgen.
    destruct (backend (jobs w) (method_circuit method qubits) shots)
      as [e|counts]; injection Hgen as <- _; [discriminate Hok|].
    now exists counts.
  - right. split; [reflexivity|].
    change (generate backend "nist" qubits shots)
      with (nist_compliant_method backend shots) in Hgen.
    rewrite nist_compliant_method_run in Hgen.
    destruct (nist_jobs backend shots 4 w) as [[e|sources] w1];
      injection Hgen as <- _; [discriminate Hok|].
    now exists sources.
Qed.

Lemma classical_draws_length (qubits : nat) (max_val : N)
      (calls : list nat) : forall bits,
  classical_draws randint qubits max_val calls = inr bits ->
  List.length bits = List.length calls.
Proof.
  induction calls as [|i calls IH]; intros bits; simpl.
  - now intros [= <-].
  - destruct (randint i max_val) as [e|x]; [discriminate|].
    destruct (classical_draws randint qubits max_val calls) as [e|rest];
      [discriminate|].
    intros [= <-]. simpl. f_equal. now apply IH.
Qed.

(** Property X21. For a request whose body could be read (or is absent):
    when the engine succeeds, the classical draws succeed and the figure
    renders, the answer is a response that carries the
    method's name, the requested shot count, one classical string per
    requested shot and [total_bits] equal to the length of its
    [random_bits].  For hadamard, bell and ghz [random_bits] is the
    flattened outcome list of the counts and [processed_bits] is empty;
    for nist [random_bits] is empty and [total_bits] is 0 whatever was
    sampled, [processed_bits] holds the debiased bits, and no quantum
    histogram is drawn. *)
Theorem generate_random_numbers_response :
  forall method body data w result w' classical_bits plot_url,
    body_data body = inr data ->
    In method methods ->
    generate backend method (requested_qubits data) (requested_shots data) w
    = (Return result, w') ->
    has_key result "error" = false ->
    classical_draws randint (requested_qubits data)
                    (2 ^ N.of_nat (requested_qubits data))%N
                    (range (Z.to_nat (requested_shots data)))
    = inr classical_bits ->
    render (plot_distribution_comparison
              (plotted_counts result) classical_bits
              (method_name method ++ " Method")%string)
    = inr plot_url ->
    exists response,
      generate_random_numbers backend randint render method body w
      = (Return (Ok response), w')
      /\ response_method response = method_name method
      /\ response_shots response = requested_shots data
      /\ classical_comparison response = classical_bits
      /\ List.length classical_bits = Z.to_nat (requested_shots data)
      /\ visualization response
         = ("data:image/png;base64," ++ plot_url)%string
      /\ get result "entropy" = Some (VFloat (response_entropy response))
      /\ total_bits response
         = Z.of_nat (List.length (response_random_bits response))
      /\ (method <> "nist" ->
          response_random_bits response = flattened (plotted_counts result)
          /\ response_processed_bits response = [])
      /\ (method = "nist" ->
          response_random_bits response = []
          /\ total_bits response = 0%Z
          /\ get result "processed_bits"
             = Some (VBits (response_processed_bits response))
          /\ plotted_counts result = []).
Proof.
  intros method body data w result w' classical_bits plot_url
         Hbody Hin Hgen Hok Hdraws Hrender.
  rewrite (handler_run backend randint render method body data w result w'
                       Hbody Hin Hgen).
  pose proof (classical_draws_length _ _ _ _ Hdraws) as Hlen.
  unfold range in Hlen. rewrite length_seq in Hlen.
  unfold answer. rewrite Hok. cbv zeta.
  unfold bind at 1. rewrite Hdraws. cbn [lift]. unfold ret at 1.
  destruct (successful_result method _ _ w result w' Hin Hgen Hok)
    as [[Hnot [counts ->]] | [-> [sources ->]]].
  - change (plotted_counts (single_result (method_name method)
              (method_circuit method (requested_qubits data)) counts))
      with counts in *.
    unfold bind, get_counts, get_str, get_bits, get_float.
    cbn [get dict_get single_result String.eqb Ascii.eqb Bool.eqb ret].
    rewrite Hrender. cbn [lift ret].
    eexists. split; [reflexivity|].
    cbn [response_method response_shots classical_comparison visualization
         response_entropy total_bits response_random_bits
         response_processed_bits].
    repeat (split; [reflexivity || exact Hlen|]).
    split; [intros _; split; reflexivity|intros ->; now elim Hnot].
  - change (plotted_counts (nist_result sources)) with (@nil (string * Z)) in *.
    change (method_name "nist") with "NIST_Compliant" in *.
    unfold bind, get_counts, get_str, get_bits, get_float.
    cbn [get dict_get nist_result String.eqb Ascii.eqb Bool.eqb ret].
    rewrite Hrender. cbn [lift ret].
    eexists. split; [reflexivity|].
    cbn [response_method response_shots classical_comparison visualization
         response_entropy total_bits response_random_bits
         response_processed_bits].
    repeat (split; [reflexivity || exact Hlen|]).
    split; [intros F; now elim F|intros _; repeat split].
Qed.

(** Property X22. For a request whose body could be read (or is absent):
    when the engine succeeds but a classical draw or the rendering of the
    figure raises, the answer has status 500 and carries the text of that
    exception. *)
Theorem generate_random_numbers_side_failures :
  forall method body data w result w',
    body_data body = inr data ->
    In method methods ->
    generate backend method (requested_qubits data) (requested_shots data) w
    = (Return result, w') ->
    has_key result "error" = false ->
    (forall e,
        classical_draws randint (requested_qubits data)
                        (2 ^ N.of_nat (requested_qubits data))%N
                        (range (Z.to_nat (requested_shots data)))
        = inl e ->
        generate_random_numbers backend randint render method body w
        = (Return (Error 500 e), w'))
    /\ (forall classical_bits e,
          classical_draws randint (requested_qubits data)
                          (2 ^ N.of_nat (requested_qubits data))%N
                          (range (Z.to_nat (requested_shots data)))
          = inr classical_bits ->
          render (plot_distribution_comparison
                    (plotted_counts result) classical_bits
                    (method_name method ++ " Method")%string)
          = inl e ->
          generate_random_numbers backend randint render method body w
          = (Return (Error 500 e), w')).
Proof.
  intros method body data w result w' Hbody Hin Hgen Hok.
  rewrite (handler_run backend randint render method body data w result w'
                       Hbody Hin Hgen).
  unfold answer. rewrite Hok. cbv zeta. split.
  - intros e Hdraws. unfold bind at 1. now rewrite Hdraws.
  - intros classical_bits e Hdraws Hrender.
    unfold bind at 1. rewrite Hdraws. cbn [lift]. unfold ret at 1.
    destruct (successful_result method _ _ w result w' Hin Hgen Hok)
      as [[Hnot [counts ->]] | [-> [sources ->]]].
    + change (plotted_counts (single_result (method_name method)
                (method_circuit method (requested_qubits data)) counts))
        with counts in *.
      unfold bind, get_counts, get_str.
      cbn [get dict_get single_result String.eqb Ascii.eqb Bool.eqb ret].
      now rewrite Hrender.
    + change (plotted_counts (nist_result sources))
        with (@nil (string * Z)) in *.
      change (method_name "nist") with "NIST_Compliant" in *.
      unfold bind, get_counts, get_str.
      cbn [get dict_get nist_result String.eqb Ascii.eqb Bool.eqb ret].
      now rewrite Hrender.
Qed.

End Replies.

Lemma generate_random_numbers_response_witness :
  exists response,
    generate_random_numbers zeros_backend (fun _ _ => inr 0%N)
                            (fun _ => inr "iVBOR") "nist"
                            (Object (mkRequest (Some 8%Z) (Some 2%nat)))
                            (mkWorld 0 0)
    = (Return (Ok response), mkWorld 4 0)
    /\ response_random_bits response = []
    /\ total_bits response = 0%Z
    /\ classical_comparison response
       = ["00"; "00"; "00"; "00"; "00"; "00"; "00"; "00"].
Proof.
  destruct (generate_random_numbers_response
              zeros_backend (fun _ _ => inr 0%N) (fun _ => inr "iVBOR")
              "nist" (Object (mkRequest (Some 8%Z) (Some 2%nat)))
              (mkRequest (Some 8%Z) (Some 2%nat)) (mkWorld 0 0)
              (nist_result (repeat [("00", 2%Z)] 4)) (mkWorld 4 0)
              ["00"; "00"; "00"; "00"; "00"; "00"; "00"; "00"] "iVBOR")
    as (response & Hrun & _ & _ & Hclassical & _ & _ & _ & _ & _ & Hnist).
  - reflexivity.
  - simpl. auto.
  - cbv [requested_qubits requested_shots req_qubits req_shots].
    change (generate zeros_backend "nist" 2 8 (mkWorld 0 0))
      with (nist_compliant_method zeros_backend 8 (mkWorld 0 0)).
    now rewrite nist_compliant_method_run.
  - reflexivity.
  - reflexivity.
  - reflexivity.
  - destruct (Hnist eq_refl) as (Hbits & Htotal & _).
    exists response. repeat split; assumption.
Defined.

Lemma generate_random_numbers_side_failures_witness :
  generate_random_numbers zeros_backend (fun _ _ => inr 0%N)
                          (fun _ => inl "no display") "bell"
                          (Object (mkRequest (Some 2%Z) None)) (mkWorld 0 0)
  = (Return (Error 500 "no display"), mkWorld 1 0).
Proof.
  destruct (generate_random_numbers_side_failures
              zeros_backend (fun _ _ => inr 0%N) (fun _ => inl "no display")
              "bell" (Object (mkRequest (Some 2%Z) None))
              (mkRequest (Some 2%Z) None) (mkWorld 0 0)
              (single_result "Bell_State" bell_circuit [("00", 2%Z)])
              (mkWorld 1 0))
    as [_ Hrender].
  - reflexivity.
  - simpl. auto.
  - cbv [requested_qubits requested_shots req_qubits req_shots].
    change (generate zeros_backend "bell" 1 2 (mkWorld 0 0))
      with (bell_state_method zeros_backend 2 (mkWorld 0 0)).
    now rewrite bell_state_method_run.
  - reflexivity.
  - apply (Hrender ["0"; "0"] "no display"); reflexivity.
Defined.

Section ClassicalBits.

Lemma string_length_app (s1 s2 : string) :
  String.length (s1 ++ s2) = (String.length s1 + String.length s2)%nat.
Proof. induction s1 as [|c s1 IH]; simpl; [reflexivity|now rewrite IH]. Qed.

Lemma binary_string_app (s1 s2 : string) :
  binary_string s1 -> binary_string s2 -> binary_string (s1 ++ s2).
Proof.
  unfold binary_string. rewrite list_ascii_of_string_app.
  intros H1 H2. apply Forall_app. now split.
Qed.

Lemma constant_string_length (c : ascii) (n : nat) :
  String.length (constant_string c n) = n.
Proof. induction n as [|n IH]; simpl; congruence. Qed.

Lemma constant_string_zeros (n : nat) :
  binary_string (constant_string "0" n).
Proof.
  unfold binary_string. induction n as [|n IH]; simpl; constructor; auto.
Qed.

Lemma binary_digits_binary (p : positive) : binary_string (binary_digits p).
Proof.
  induction p as [p IH|p IH|]; simpl.
  - apply binary_string_app; [exact IH|].
    unfold binary_string. simpl. constructor; auto.
  - apply binary_string_app; [exact IH|].
    unfold binary_string. simpl. constructor; auto.
  - unfold binary_string. simpl. constructor; auto.
Qed.

(** A number below 2^n has at most n binary digits. *)
Lemma binary_digits_length (p : positive) : forall n : nat,
  (N.pos p < 2 ^ N.of_nat n)%N ->
  (String.length (binary_digits p) <= n)%nat.
Proof.
  induction p as [p IH|p IH|]; intros n Hlt; destruct n as [|n];
    try (simpl in Hlt; lia);
    rewrite Nat2N.inj_succ, N.pow_succ_r' in Hlt.
  - simpl. rewrite string_length_app. simpl.
    assert (Hp : (N.pos p < 2 ^ N.of_nat n)%N) by lia.
    specialize (IH n Hp). lia.
  - simpl. rewrite string_length_app. simpl.
    assert (Hp : (N.pos p < 2 ^ N.of_nat n)%N) by lia.
    specialize (IH n Hp). lia.
  - simpl. lia.
Qed.

Lemma format_b_binary (x : N) : binary_string (format_b x).
Proof.
  destruct x as [|p]; [|apply binary_digits_binary].
  unfold binary_string. simpl. constructor; auto.
Qed.

(** A number below 2^width is formatted on exactly [width] binary
    characters, for a width of at least 1. *)
Lemma format_0b_width (width : nat) (x : N) :
  (1 <= width)%nat -> (x < 2 ^ N.of_nat width)%N ->
  String.length (format_0b width x) = width
  /\ binary_string (format_0b width x).
Proof.
  intros Hwidth Hx. unfold format_0b. cbv zeta. split.
  - rewrite string_length_app, constant_string_length.
    assert (String.length (format_b x) <= width)%nat; [|lia].
    destruct x as [|p]; [simpl; lia|]. now apply binary_digits_length.
  - apply binary_string_app; [apply constant_string_zeros|].
    apply format_b_binary.
Qed.

End ClassicalBits.

(** Property X23. When every draw is below 2^qubits and none raises, the
    classical comparison of a request for at least one qubit holds one
    string per requested shot (none for a negative count), each of
    exactly [qubits] characters 0 or 1. *)
Theorem classical_comparison_strings :
  forall (randint : nat -> N -> string + N) qubits shots classical_bits,
    (1 <= qubits)%nat ->
    (forall i x, randint i (2 ^ N.of_nat qubits)%N = inr x ->
                 (x < 2 ^ N.of_nat qubits)%N) ->
    classical_draws randint qubits (2 ^ N.of_nat qubits)%N
                    (range (Z.to_nat shots))
    = inr classical_bits ->
    List.length classical_bits = Z.to_nat shots
    /\ Forall (fun bits => String.length bits = qubits
                           /\ binary_string bits) classical_bits.
Proof.
  intros randint qubits shots classical_bits Hqubits Hrange Hdraws.
  split.
  - rewrite (classical_draws_length randint _ _ _ _ Hdraws).
    unfold range. apply length_seq.
  - revert classical_bits Hdraws.
    generalize (range (Z.to_nat shots)). intros calls.
    induction calls as [|i calls IH]; intros classical_bits; simpl.
    + intros [= <-]. constructor.
    + destruct (randint i (2 ^ N.of_nat qubits)%N) as [e|x] eqn:Hdraw;
        [discriminate|].
      destruct (classical_draws randint qubits (2 ^ N.of_nat qubits)%N calls)
        as [e|rest]; [discriminate|].
      intros [= <-]. constructor; [|now apply IH].
      apply format_0b_width; [exact Hqubits|]. now apply (Hrange i).
Qed.

Lemma classical_comparison_strings_witness :
  List.length ["101"; "101"] = 2%nat
  /\ Forall (fun bits => String.length bits = 3%nat /\ binary_string bits)
            ["101"; "101"].
Proof.
  apply (classical_comparison_strings (fun _ _ => inr 5%N) 3 2).
  - lia.
  - intros i x [= <-]. reflexivity.
  - reflexivity.
Defined.

Section Metadata.


End Metadata.


